(** * HR tool: the business rules and the record store of [utils.py]

    A shallow embedding of [utils.py] (vacation entitlement, seniority
    inference, CSV-backed record store) and of the computations of the
    page [app.py] that use it (the chart's workload normalisation and
    the "Add employee" form), together with the fragment
    of the Python runtime they rely on: dynamically typed values,
    exceptions, binary64 floats, the builtins [float] and [round], and
    string methods. *)

From Stdlib Require Import ZArith Lia List Bool Ascii String Floats.
From Stdlib Require Import DecimalString.
From stdpp Require Import gmap strings.

Set Warnings "-inexact-float".
Local Open Scope Z_scope.

(** [n / d] rounded to the nearest integer, ties to even ([d > 0]). *)
Definition rne_div (n d : Z) : Z :=
  let q := n / d in
  let r := n mod d in
  match 2 * r ?= d with
  | Lt => q
  | Gt => q + 1
  | Eq => if Z.even q then q else q + 1
  end.

(** ** Python runtime fragment *)

Module Py.

(** Exceptions raised by the builtins and by the file layer. *)
Inductive exn :=
| TypeError | ValueError | OverflowError
| FileNotFoundError | PermissionError | ParserError.

(** Outcome of a call: a value, or a raised exception. *)
Inductive result (A : Type) :=
| Return (a : A)
| Raise (e : exn).
Arguments Return {A} a.
Arguments Raise {A} e.

Definition bind {A B} (c : result A) (k : A -> result B) : result B :=
  match c with
  | Return a => k a
  | Raise e => Raise e
  end.

Definition returns {A} (c : result A) : bool :=
  match c with Return _ => true | Raise _ => false end.

(** Two outcomes of a call that returns an int are the same value. *)
Definition returns_int (c : result Z) (n : Z) : bool :=
  match c with Return m => m =? n | Raise _ => false end.

(** [FileNotFoundError] and [PermissionError] are the [OSError]s here. *)
Definition is_os_error (e : exn) : bool :=
  match e with
  | FileNotFoundError | PermissionError => true
  | _ => false
  end.

(** A pandas [Timestamp]: nanoseconds since the epoch, or [NaT]. *)
Inductive timestamp :=
| NaT
| Timestamp (ns : Z).

(** Dynamically typed values, as far as [utils.py] looks at them;
    [PyDate] is a [datetime.date], counted in days since the epoch. *)
Inductive pyval :=
| PyNone
| PyBool (b : bool)
| PyInt (z : Z)
| PyFloat (f : float)
| PyStr (s : string)
| PyDate (day : Z)
| PyTimestamp (t : timestamp).

(** [isinstance(v, str)] and [isinstance(v, (int, float))]; [bool] is a
    subclass of [int]. *)
Definition isinstance_str (v : pyval) : bool :=
  match v with PyStr _ => true | _ => false end.

Definition isinstance_int_float (v : pyval) : bool :=
  match v with PyBool _ | PyInt _ | PyFloat _ => true | _ => false end.

(** *** Strings *)

Definition chars (s : string) : list ascii := list_ascii_of_string s.
Definition text (l : list ascii) : string := string_of_list_ascii l.

Definition mem_char (c : ascii) (set : list ascii) : bool :=
  existsb (Ascii.eqb c) set.

Fixpoint lstrip_chars (set : list ascii) (l : list ascii) : list ascii :=
  match l with
  | c :: l' => if mem_char c set then lstrip_chars set l' else l
  | [] => []
  end.

Definition strip_chars (set : list ascii) (l : list ascii) : list ascii :=
  rev (lstrip_chars set (rev (lstrip_chars set l))).

(** [s.strip(cs)]: drop every leading and trailing character that
    occurs in [cs]. *)
Definition strip (s cs : string) : string :=
  text (strip_chars (chars cs) (chars s)).

Fixpoint is_prefix (p l : list ascii) : bool :=
  match p, l with
  | [], _ => true
  | a :: p', b :: l' => Ascii.eqb a b && is_prefix p' l'
  | _ :: _, [] => false
  end.

(** [str(z)] for an int *)
Definition str_of_int (z : Z) : string :=
  NilZero.string_of_int (Z.to_int z).

(** [s.endswith(suffix)] *)
Definition endswith (s suffix : string) : bool :=
  is_prefix (rev (chars suffix)) (rev (chars s)).

(** *** binary64 floats *)

(** [float(z)] for an int: the nearest double (ties to even), and
    [OverflowError] when the int is too large. *)
Definition float_of_Z (z : Z) : float :=
  SF2Prim (binary_normalize prec emax z 0 false).

Definition float_of_int (z : Z) : result float :=
  match binary_normalize prec emax z 0 false with
  | S754_infinity _ => Raise OverflowError
  | sf => Return (SF2Prim sf)
  end.

(** The integer nearest to a finite [m * 2^e], ties to even. *)
Definition nearest_even (m : positive) (e : Z) : Z :=
  if 0 <=? e then Zpos m * 2 ^ e else rne_div (Zpos m) (2 ^ (- e)).

(** [round(x)] with one argument on a float: the nearest int, ties to
    even; NaN raises [ValueError] and an infinity [OverflowError]. *)
Definition py_round (x : float) : result Z :=
  match Prim2SF x with
  | S754_nan => Raise ValueError
  | S754_infinity _ => Raise OverflowError
  | S754_zero _ => Return 0
  | S754_finite s m e => Return (cond_Zopp s (nearest_even m e))
  end.

(** *** Numbers and their comparison *)

Inductive number :=
| NInt (z : Z)
| NFloat (f : float).

Definition number_of (v : pyval) : option number :=
  match v with
  | PyBool b => Some (NInt (if b then 1 else 0))
  | PyInt z => Some (NInt z)
  | PyFloat f => Some (NFloat f)
  | _ => None
  end.

(** A float against an int, compared exactly. *)
Definition float_cmp_Z (f : float) (z : Z) : option comparison :=
  match Prim2SF f with
  | S754_nan => None
  | S754_infinity s => Some (if s then Lt else Gt)
  | S754_zero _ => Some (0 ?= z)
  | S754_finite s m e =>
      let v := cond_Zopp s (Zpos m) in
      Some (if 0 <=? e then v * 2 ^ e ?= z else v ?= z * 2 ^ (- e))
  end.

(** [None] when a NaN makes the operands unordered. *)
Definition num_cmp (a b : number) : option comparison :=
  match a, b with
  | NInt x, NInt y => Some (x ?= y)
  | NFloat x, NFloat y => SFcompare (Prim2SF x) (Prim2SF y)
  | NFloat x, NInt y => float_cmp_Z x y
  | NInt x, NFloat y => option_map CompOpp (float_cmp_Z y x)
  end.

Definition num_ltb (a b : number) : bool :=
  match num_cmp a b with Some Lt => true | _ => false end.
Definition num_leb (a b : number) : bool :=
  match num_cmp a b with Some (Lt | Eq) => true | _ => false end.
Definition num_gtb (a b : number) : bool := num_ltb b a.
Definition num_geb (a b : number) : bool := num_leb b a.

(** [a < b], [a > b], [a >= b] where one side is a number: any other
    left operand raises [TypeError]. *)
Definition compare_with (op : number -> number -> bool) (a b : pyval)
  : result bool :=
  match number_of a, number_of b with
  | Some x, Some y => Return (op x y)
  | _, _ => Raise TypeError
  end.

Definition lt := compare_with num_ltb.
Definition gt := compare_with num_gtb.
Definition ge := compare_with num_geb.

(** *** The builtin [float] on strings *)

Definition code (c : ascii) : Z := Z.of_nat (nat_of_ascii c).

Definition is_space (c : ascii) : bool :=
  ((9 <=? code c) && (code c <=? 13)) || ((28 <=? code c) && (code c <=? 32)).

Definition is_digit (c : ascii) : bool :=
  (48 <=? code c) && (code c <=? 57).

Definition digit_val (c : ascii) : Z := code c - 48.

Definition lower (c : ascii) : ascii :=
  if (65 <=? code c) && (code c <=? 90)
  then ascii_of_nat (nat_of_ascii c + 32) else c.

Definition strip_space (l : list ascii) : list ascii :=
  let drop := fix drop (l : list ascii) :=
    match l with
    | c :: l' => if is_space c then drop l' else l
    | [] => []
    end in
  rev (drop (rev (drop l))).

(** The rest of a [digitpart] after its first digit: digits, each
    optionally preceded by one underscore. Returns the value read so
    far, the number of digits, and the unread input. *)
Fixpoint digitpart_tail (acc n : Z) (l : list ascii) : Z * Z * list ascii :=
  match l with
  | c :: l' =>
      if is_digit c then digitpart_tail (10 * acc + digit_val c) (n + 1) l'
      else if Ascii.eqb c "_" then
        match l' with
        | d :: l'' =>
            if is_digit d
            then digitpart_tail (10 * acc + digit_val d) (n + 1) l''
            else (acc, n, l)
        | [] => (acc, n, l)
        end
      else (acc, n, l)
  | [] => (acc, n, l)
  end.

Definition digitpart (l : list ascii) : option (Z * Z * list ascii) :=
  match l with
  | c :: l' =>
      if is_digit c then Some (digitpart_tail (digit_val c) 1 l') else None
  | [] => None
  end.

Definition parse_sign (l : list ascii) : bool * list ascii :=
  match l with
  | c :: l' =>
      if Ascii.eqb c "-" then (true, l')
      else if Ascii.eqb c "+" then (false, l')
      else (false, l)
  | [] => (false, l)
  end.

(** [digitpart ["."]] or [[digitpart] "." digitpart]: the digits as an
    integer [m] and a decimal exponent [e <= 0], value [m * 10^e]. *)
Definition parse_number (l : list ascii) : option (Z * Z * list ascii) :=
  match digitpart l with
  | Some (ip, _, rest) =>
      match rest with
      | c :: rest' =>
          if Ascii.eqb c "." then
            match digitpart rest' with
            | Some (fp, nf, rest'') => Some (ip * 10 ^ nf + fp, - nf, rest'')
            | None => Some (ip, 0, rest')
            end
          else Some (ip, 0, rest)
      | [] => Some (ip, 0, rest)
      end
  | None =>
      match l with
      | c :: rest' =>
          if Ascii.eqb c "." then
            match digitpart rest' with
            | Some (fp, nf, rest'') => Some (fp, - nf, rest'')
            | None => None
            end
          else None
      | [] => None
      end
  end.

(** An exponent is read only when digits follow the marker. *)
Definition parse_exponent (l : list ascii) : Z * list ascii :=
  match l with
  | c :: l' =>
      if Ascii.eqb (lower c) "e" then
        let '(neg, l'') := parse_sign l' in
        match digitpart l'' with
        | Some (x, _, rest) => (if neg then - x else x, rest)
        | None => (0, l)
        end
      else (0, l)
  | [] => (0, l)
  end.

(** The number a sequence of decimal digits denotes. *)
Definition digits_value (ds : list ascii) : Z :=
  fold_left (fun acc c => 10 * acc + digit_val c) ds 0.

(** The double nearest to [m * 10^e10] (ties to even), [m >= 0]. *)
Definition float_of_decimal (neg : bool) (m e10 : Z) : float :=
  SF2Prim
    match m with
    | Zpos p =>
        if 0 <=? e10
        then binary_round prec emax neg (Z.to_pos (Zpos p * 10 ^ e10)) 0
        else
          let '(q, e, l) :=
            SFdiv_core_binary prec emax (Zpos p) 0 (10 ^ (- e10)) 0 in
          binary_round_aux prec emax neg q e l
    | _ => S754_zero neg
    end.

Definition float_of_string (s : string) : result float :=
  let '(neg, l) := parse_sign (strip_space (chars s)) in
  let word := text (map lower l) in
  if String.eqb word "inf" || String.eqb word "infinity"
  then Return (if neg then neg_infinity else infinity)
  else if String.eqb word "nan" then Return nan
  else
    match parse_number l with
    | Some (m, e, rest) =>
        match parse_exponent rest with
        | (x, []) => Return (float_of_decimal neg m (e + x))
        | (_, _ :: _) => Raise ValueError
        end
    | None => Raise ValueError
    end.

(** [float(v)] *)
Definition py_float (v : pyval) : result float :=
  match v with
  | PyFloat f => Return f
  | PyInt z => float_of_int z
  | PyBool b => Return (if b then 1%float else 0%float)
  | PyStr s => float_of_string s
  | PyNone | PyDate _ | PyTimestamp _ => Raise TypeError
  end.

End Py.

(** ** [utils.py] *)

Module Utils.
Import Py.

Notation "'let*' x ':=' c 'in' k" := (bind c (fun x => k))
  (at level 10, x name, c at level 100, k at level 200).

Definition DATA_PATH : string := "data/swiss_hr_dataset.csv".

(** *** Vacation entitlement *)

(** [isinstance(workload_pct, str) and workload_pct.endswith("%")] *)
Definition is_percent_str (v : pyval) : bool :=
  match v with PyStr s => endswith s "%" | _ => false end.

(** [isinstance(workload_pct, (int, float)) and workload_pct > 1] *)
Definition is_number_above_one (v : pyval) : bool :=
  match number_of v with
  | Some x => num_gtb x (NInt 1)
  | None => false
  end.

Definition str_strip (v : pyval) (cs : string) : pyval :=
  match v with PyStr s => PyStr (strip s cs) | _ => v end.

(** The workload normalised to a fraction (lines 35-40). *)
Definition workload_fraction (workload_pct : pyval) : result float :=
  if is_percent_str workload_pct then
    let* f := py_float (str_strip workload_pct "%") in
    Return (f / 100)%float
  else if is_number_above_one workload_pct then
    let* f := py_float workload_pct in
    Return (f / 100)%float
  else py_float workload_pct.

Definition compute_vacation_total (workload_pct : pyval) : result Z :=
  let* frac := workload_fraction workload_pct in
  let* total := py_round (25 * frac)%float in
  Return total.

(** *** Seniority *)

(** [a and b] on conditions: [b] is evaluated only when [a] holds. *)
Definition and_then (a b : result bool) : result bool :=
  let* x := a in if x then b else Return false.

(** The decision ladder (lines 58-66). *)
Definition seniority_ladder (age years_at_company : pyval) : result string :=
  let* junior := and_then (lt age (PyInt 28)) (lt years_at_company (PyInt 3)) in
  if junior then Return "Junior"%string else
  let* mid := and_then (lt age (PyInt 35)) (lt years_at_company (PyInt 6)) in
  if mid then Return "Mid"%string else
  let* senior := and_then (lt age (PyInt 45)) (lt years_at_company (PyInt 12)) in
  if senior then Return "Senior"%string else
  let* manager := and_then (lt age (PyInt 60)) (ge years_at_company (PyInt 8)) in
  if manager then Return "Manager"%string else
  Return "Director"%string.

Definition ns_per_day : Z := 86400 * 10 ^ 9.

(** [(a - b).days]: whole days of the difference, rounded down; the
    [days] of [NaT] is NaN. *)
Definition days_between (a b : timestamp) : pyval :=
  match a, b with
  | Timestamp x, Timestamp y => PyInt ((x - y) / ns_per_day)
  | _, _ => PyFloat nan
  end.

(** [n / d] for a number [n] and a float [d]. *)
Definition div_by_float (n : pyval) (d : float) : result pyval :=
  match number_of n with
  | Some _ => let* f := py_float n in Return (PyFloat (f / d)%float)
  | None => Raise TypeError
  end.

(** *** Record store *)

(** A row is a dict from column names to cells; a table is the list of
    its rows in index order. *)
Abbreviation row := (gmap string pyval).
Abbreviation DataFrame := (list (gmap string pyval)).

Inductive file (csv : Type) :=
| Unreadable
| Contents (c : csv).
Arguments Unreadable {csv}.
Arguments Contents {csv} c.

(** [.dt.date]: the calendar day of an instant. *)
Definition dt_date (t : timestamp) : pyval :=
  match t with
  | Timestamp ns => PyDate (ns / ns_per_day)
  | NaT => PyTimestamp NaT
  end.

Section Pandas.
(** The pandas functions the module calls. [to_datetime v] is the
    instant [v] denotes (for ["today"], the current one) or the
    exception pandas raises; [read_csv] is called with
    [parse_dates=["Hire Date"]] and [to_csv] with [index=False], on a
    file whose contents have type [csv]. *)
Context {csv : Type}.
Variable to_datetime : pyval -> result timestamp.
Variable read_csv : csv -> result DataFrame.
Variable to_csv : DataFrame -> csv.

(** The body of the [try] block (line 52). *)
Definition tenure_years (hire_date : pyval) : result pyval :=
  let* today := to_datetime (PyStr "today") in
  let* hired := to_datetime hire_date in
  div_by_float (days_between today hired) 365.25.

(** Lines 49-56: no hire date, or any exception in the [try] block,
    gives 0. *)
Definition years_at_company (hire_date : pyval) : pyval :=
  match hire_date with
  | PyNone => PyInt 0
  | _ =>
      match tenure_years hire_date with
      | Return y => y
      | Raise _ => PyInt 0
      end
  end.

Definition infer_seniority (age hire_date : pyval) : result string :=
  seniority_ladder age (years_at_company hire_date).

Definition load_data (fs : gmap string (file csv)) : result DataFrame :=
  match fs !! DATA_PATH with
  | None => Raise FileNotFoundError
  | Some Unreadable => Raise PermissionError
  | Some (Contents c) => read_csv c
  end.

Definition save_data (df : DataFrame) (fs : gmap string (file csv))
  : gmap string (file csv) :=
  <[DATA_PATH := Contents (to_csv df)]> fs.

Definition append_row (row_dict : row) (fs : gmap string (file csv))
  : result (gmap string (file csv)) :=
  let* df := load_data fs in
  let* new_df :=
    match row_dict !! "Hire Date"%string with
    | Some v =>
        let* t := to_datetime v in
        Return [<["Hire Date"%string := dt_date t]> row_dict]
    | None => Return [row_dict]
    end in
  let df := df ++ new_df in
  Return (save_data df fs).

End Pandas.

End Utils.

(** ** [app.py]

    The computations of the Streamlit page that do not draw anything:
    the cached table, the chart's workload normalisation, and the row
    the "Add employee" form builds and appends. *)

Module App.
Import Py Utils.

(** [workload_to_float] (lines 70-76): only the conversion of a plain
    value is inside the [try]. *)
Definition workload_to_float (x : pyval) : result pyval :=
  if is_percent_str x then
    let* f := py_float (str_strip x "%") in
    Return (PyFloat (f / 100)%float)
  else
    match py_float x with
    | Return f => Return (PyFloat f)
    | Raise _ => Return PyNone
    end.

(** The fields of the form (lines 108-119). *)
Record form := {
  first_name : string;
  last_name : string;
  canton : string;
  department : string;
  age : Z;
  workload : string;
  seniority : string;
  hire_date : Z;
  vacation_taken : Z
}.

Definition workload_options : list string :=
  ["60%"; "70%"; "80%"; "90%"; "100%"]%string.

Definition seniority_levels : list string :=
  ["Junior"; "Mid"; "Senior"; "Manager"; "Director"]%string.

(** The position of a level in that list, 5 for any other string. *)
Definition level_rank (l : string) : nat :=
  let fix index (ls : list string) : nat :=
    match ls with
    | [] => O
    | l' :: ls' => if String.eqb l l' then O else S (index ls')
    end in
  index seniority_levels.

Section Streamlit.
Context {csv : Type}.
Variable to_datetime : pyval -> result timestamp.
Variable read_csv : csv -> result DataFrame.
Variable to_csv : DataFrame -> csv.

(** The row built on submission (lines 128-141), given the
    entitlement computed when the form was drawn. *)
Definition new_row (f : form) (vacation_total : Z) : result row :=
  let* level :=
    if String.eqb (seniority f) "Auto-suggest"
    then infer_seniority to_datetime (PyInt (age f)) (PyDate (hire_date f))
    else Return (seniority f) in
  let* t := to_datetime (PyDate (hire_date f)) in
  Return (list_to_map
    [ ("First Name"%string, PyStr (first_name f));
      ("Last Name"%string, PyStr (last_name f));
      ("Residence (Canton)"%string, PyStr (canton f));
      ("Age"%string, PyInt (age f));
      ("Department"%string, PyStr (department f));
      ("Seniority Level"%string, PyStr level);
      ("Workload"%string, PyStr (workload f));
      ("Vacation Days Total"%string, PyInt vacation_total);
      ("Vacation Days Taken"%string, PyInt (vacation_taken f));
      ("Hire Date"%string, dt_date t) ]).

(** The store after the form is submitted (lines 118 and 123-149):
    nothing is appended without both names, and a failure of
    [append_row] is reported, not raised. *)
Definition submit (f : form) (fs : gmap string (file csv))
  : result (gmap string (file csv)) :=
  let* vacation_total := compute_vacation_total (PyStr (workload f)) in
  if String.eqb (first_name f) EmptyString || String.eqb (last_name f) EmptyString
  then Return fs
  else
    let* r := new_row f vacation_total in
    match append_row to_datetime read_csv to_csv r fs with
    | Return fs' => Return fs'
    | Raise _ => Return fs
    end.

End Streamlit.

End App.

(** ** Sample environment

    Stand-ins for pandas used to run the module on concrete inputs:
    [to_datetime] at a fixed instant, and the CSV file as [to_csv]
    writes it and [read_csv] reads it on tables of text, whole numbers,
    booleans, dates and missing cells. *)

Module Sample.
Import Py Utils.

(** [pd.to_datetime] at a fixed instant [now], on the values the
    examples pass: ["today"], dates and timestamps; any other value
    is rejected, as free text such as ["not a date"] is. *)
Definition to_datetime (now : Z) (v : pyval) : result timestamp :=
  match v with
  | PyStr s =>
      if String.eqb s "today" then Return (Timestamp now) else Raise ValueError
  | PyDate d => Return (Timestamp (d * ns_per_day))
  | PyTimestamp t => Return t
  | _ => Raise ValueError
  end.

(** *** Calendar dates as text *)

(** The year, month and day of a day counted from 1970-01-01, and the
    converse, in the proleptic Gregorian calendar. *)
Definition civil_from_days (z : Z) : Z * Z * Z :=
  let z := z + 719468 in
  let era := z / 146097 in
  let doe := z - era * 146097 in
  let yoe := (doe - doe / 1460 + doe / 36524 - doe / 146096) / 365 in
  let doy := doe - (365 * yoe + yoe / 4 - yoe / 100) in
  let mp := (5 * doy + 2) / 153 in
  let d := doy - (153 * mp + 2) / 5 + 1 in
  let m := if mp <? 10 then mp + 3 else mp - 9 in
  (yoe + era * 400 + (if m <=? 2 then 1 else 0), m, d).

Definition days_from_civil (y m d : Z) : Z :=
  let y := if m <=? 2 then y - 1 else y in
  let era := y / 400 in
  let yoe := y - era * 400 in
  let doy := (153 * (if 2 <? m then m - 3 else m + 9) + 2) / 5 + d - 1 in
  let doe := yoe * 365 + yoe / 4 - yoe / 100 + doy in
  era * 146097 + doe - 719468.

Definition digit_char (n : Z) : ascii := ascii_of_nat (Z.to_nat (48 + n)).

Definition pad2 (n : Z) : list ascii :=
  [digit_char (n / 10); digit_char (n mod 10)].

Definition pad4 (n : Z) : list ascii := pad2 (n / 100) ++ pad2 (n mod 100).

(** [YYYY-MM-DD], for the years 0 to 9999. *)
Definition iso_date (day : Z) : string :=
  let '(y, m, d) := civil_from_days day in
  text (pad4 y ++ "-"%char :: pad2 m ++ "-"%char :: pad2 d).

(** [str] of a [Timestamp] of whole seconds: [YYYY-MM-DD HH:MM:SS]. *)
Definition iso_datetime (ns : Z) : string :=
  let s := (ns mod ns_per_day) / 10 ^ 9 in
  (iso_date (ns / ns_per_day) ++ " " ++
   text (pad2 (s / 3600) ++ ":"%char :: pad2 (s / 60 mod 60)
         ++ ":"%char :: pad2 (s mod 60)))%string.

Definition number_at (l : list ascii) (i n : nat) : option Z :=
  let ds := firstn n (skipn i l) in
  if (length ds =? n)%nat && forallb is_digit ds
  then Some (digits_value ds) else None.

Definition char_at (l : list ascii) (i : nat) (c : ascii) : bool :=
  match nth_error l i with
  | Some x => Ascii.eqb x c
  | None => false
  end.

(** The day a text starting with [YYYY-MM-DD] names, if that is a
    date of the calendar. *)
Definition parse_iso_day (l : list ascii) : option Z :=
  match number_at l 0 4, number_at l 5 2, number_at l 8 2 with
  | Some y, Some m, Some d =>
      let day := days_from_civil y m d in
      if char_at l 4 "-" && char_at l 7 "-" &&
         (1 <=? m) && (m <=? 12) && (1 <=? d) &&
         (let '(y', m', d') := civil_from_days day in
          (y' =? y) && (m' =? m) && (d' =? d))
      then Some day else None
  | _, _, _ => None
  end.

(** The time of day, in nanoseconds, of a text whose characters 10 to
    18 are [ HH:MM:SS]. *)
Definition parse_iso_time (l : list ascii) : option Z :=
  match number_at l 11 2, number_at l 14 2, number_at l 17 2 with
  | Some h, Some m, Some s =>
      if char_at l 10 " " && char_at l 13 ":" && char_at l 16 ":" &&
         (h <? 24) && (m <? 60) && (s <? 60)
      then Some ((h * 3600 + m * 60 + s) * 10 ^ 9) else None
  | _, _, _ => None
  end.

(** The two forms of date text that occur in the file. *)
Inductive date_form := DateOnly | DateAndTime.

Definition same_form (a b : date_form) : bool :=
  match a, b with
  | DateOnly, DateOnly | DateAndTime, DateAndTime => true
  | _, _ => false
  end.

(** The form of a date text and the instant it names. *)
Definition parse_date_field (s : string) : option (date_form * Z) :=
  let l := chars s in
  match parse_iso_day l with
  | Some day =>
      if (length l =? 10)%nat then Some (DateOnly, day * ns_per_day)
      else if (length l =? 19)%nat then
        match parse_iso_time l with
        | Some t => Some (DateAndTime, day * ns_per_day + t)
        | None => None
        end
      else None
  | None => None
  end.

(** *** The file *)

(** A CSV file: the column names of its header line and, for each
    further line, the text of its field in every column. *)
Record table := {
  header : gset string;
  lines : list (gmap string string)
}.

(** The contents of a file: a table, or nothing for a frame with a
    cell whose text is not described here (a float that is not NaN). *)
Definition csv : Type := option table.

(** A missing cell of a frame, NaN. *)
Definition missing : pyval := PyFloat nan.

(** **** [DataFrame.to_csv(index=False)] *)

Definition is_timestamp_cell (o : option pyval) : bool :=
  match o with
  | None | Some (PyTimestamp _) => true
  | _ => false
  end.

Definition at_midnight (o : option pyval) : bool :=
  match o with
  | Some (PyTimestamp (Timestamp ns)) => ns mod ns_per_day =? 0
  | _ => true
  end.

Definition is_int_or_nan (o : option pyval) : bool :=
  match o with
  | None | Some (PyInt _) => true
  | Some (PyFloat f) => PrimFloat.is_nan f
  | _ => false
  end.

Definition is_int_cell (o : option pyval) : bool :=
  match o with
  | Some (PyInt _) => true
  | _ => false
  end.

(** The text of a cell. A missing cell is the empty field. In a
    column of ints with missing cells the ints are floats
    ([as_float]). A timestamp is written as its date when its column
    holds nothing but timestamps, all at midnight ([dates_only]), and
    with its time otherwise; so it is in a column that also holds a
    [date], which is written as its date. *)
Definition write_cell (as_float dates_only : bool) (o : option pyval)
  : option string :=
  match o with
  | None | Some PyNone | Some (PyTimestamp NaT) => Some EmptyString
  | Some (PyBool b) => Some (if b then "True" else "False")%string
  | Some (PyInt z) =>
      if as_float
      then if Z.abs z <? 10 ^ 16
           then Some (str_of_int z ++ ".0")%string else None
      else Some (str_of_int z)
  | Some (PyFloat f) => if PrimFloat.is_nan f then Some EmptyString else None
  | Some (PyStr s) => Some s
  | Some (PyDate d) => Some (iso_date d)
  | Some (PyTimestamp (Timestamp ns)) =>
      Some (if dates_only then iso_date (ns / ns_per_day) else iso_datetime ns)
  end.

Definition write_field (df : DataFrame) (c : string) (r : gmap string pyval)
  : option (string * string) :=
  let cells := (fun r : gmap string pyval => r !! c) <$> df in
  let as_float :=
    forallb is_int_or_nan cells && negb (forallb is_int_cell cells) in
  let dates_only :=
    forallb is_timestamp_cell cells && forallb at_midnight cells in
  (fun s => (c, s)) <$> write_cell as_float dates_only (r !! c).

(** The columns are those of any row; every line has a field in every
    column. *)
Definition to_csv (df : DataFrame) : csv :=
  let cols : gset string := ⋃ (dom <$> df) in
  (fun ls => {| header := cols; lines := ls |}) <$>
  mapM (fun r => list_to_map <$> mapM (fun c => write_field df c r)
                                   (elements cols)) df.

(** **** [pd.read_csv(parse_dates=["Hire Date"])] *)

(** The fields read as a missing value. *)
Definition na_values : list string :=
  [ EmptyString; "#N/A"; "#N/A N/A"; "#NA"; "-1.#IND"; "-1.#QNAN"; "-NaN";
    "-nan"; "1.#IND"; "1.#QNAN"; "<NA>"; "N/A"; "NA"; "NULL"; "NaN"; "None";
    "n/a"; "nan"; "null" ]%string.

Definition is_na (s : string) : bool := existsb (String.eqb s) na_values.

Definition int_of_field (s : string) : option Z :=
  let '(neg, ds) := parse_sign (chars s) in
  let z := if neg then - digits_value ds else digits_value ds in
  match ds with
  | [] => None
  | _ :: _ =>
      if forallb is_digit ds && (- 2 ^ 63 <=? z) && (z <? 2 ^ 63)
      then Some z else None
  end.

Definition bool_of_field (s : string) : option bool :=
  if existsb (String.eqb s) ["True"; "TRUE"; "true"]%string then Some true
  else if existsb (String.eqb s) ["False"; "FALSE"; "false"]%string
  then Some false
  else None.

Definition read_text (s : string) : pyval :=
  if is_na s then missing else PyStr s.

(** A column other than the hire dates: ints when every field that is
    not missing is a whole number (floats when some field is
    missing), booleans when every such field is one, text otherwise. *)
Definition read_column (fields : list string) : list pyval :=
  let present := filter (fun s => negb (is_na s)) fields in
  if forallb (fun s => bool_decide (is_Some (int_of_field s))) present then
    (fun s => match int_of_field s with
              | Some z => if existsb is_na fields then PyFloat (float_of_Z z)
                          else PyInt z
              | None => missing
              end) <$> fields
  else if forallb (fun s => bool_decide (is_Some (bool_of_field s))) present
  then
    (fun s => match bool_of_field s with
              | Some b => PyBool b
              | None => missing
              end) <$> fields
  else read_text <$> fields.

(** The hire dates: timestamps when every field that is not missing
    is a date in the form of the first one; otherwise the column is
    left as text. *)
Definition read_date_column (fields : list string) : list pyval :=
  let present := filter (fun s => negb (is_na s)) fields in
  let form := match present with
              | s :: _ => fst <$> parse_date_field s
              | [] => Some DateOnly
              end in
  match form with
  | Some f =>
      if forallb (fun s => match parse_date_field s with
                           | Some (f', _) => same_form f f'
                           | None => false
                           end) present
      then (fun s => match parse_date_field s with
                     | Some (_, ns) => PyTimestamp (Timestamp ns)
                     | None => PyTimestamp NaT
                     end) <$> fields
      else read_text <$> fields
  | None => read_text <$> fields
  end.

(** A file without a [Hire Date] column is refused. *)
Definition read_csv (c : csv) : result DataFrame :=
  match c with
  | None => Raise ParserError
  | Some t =>
      if bool_decide ("Hire Date"%string ∈ header t) then
        let column (c : string) :=
          (fun l : gmap string string => default EmptyString (l !! c))
          <$> lines t in
        let cells (c : string) :=
          if String.eqb c "Hire Date" then read_date_column (column c)
          else read_column (column c) in
        Return ((fun i => set_to_map (fun c => (c, nth i (cells c) missing))
                            (header t))
                <$> seq 0 (length (lines t)))
      else Raise ValueError
  end.

(** *** Examples *)

(** A store whose data file has one line, [Bo,2020-01-15], under the
    header [First Name,Hire Date]; the table it loads as; a record
    for 2022-01-08; and a record whose first name is the text [NA]. *)
Definition one_row_store : gmap string (file csv) :=
  {[DATA_PATH := Contents (Some
     {| header := {["First Name"; "Hire Date"]}%string;
        lines := [ {["First Name" := "Bo";
                     "Hire Date" := "2020-01-15"]}%string ] |})]}.

Definition one_row_table : DataFrame :=
  [ {["First Name"%string := PyStr "Bo";
      "Hire Date"%string := PyTimestamp (Timestamp (18276 * ns_per_day))]} ].

Definition ana_record : gmap string pyval :=
  {["First Name"%string := PyStr "Ana"; "Hire Date"%string := PyDate 19000]}.


(** A form as it may be submitted. *)
Definition ana : App.form :=
  {| App.first_name := "Ana"; App.last_name := "Keller";
     App.canton := "ZH"; App.department := "Finance";
     App.age := 30; App.workload := "80%";
     App.seniority := "Auto-suggest";
     App.hire_date := 19000; App.vacation_taken := 0 |}.

(** The same form with the first name left empty. *)
Definition nameless : App.form :=
  {| App.first_name := EmptyString; App.last_name := "Keller";
     App.canton := "ZH"; App.department := "Finance";
     App.age := 30; App.workload := "80%";
     App.seniority := "Auto-suggest";
     App.hire_date := 19000; App.vacation_taken := 0 |}.

(** The three spellings of a whole-number percentage [k] give the
    given number of days: the string ["k%"], the fraction [k / 100]
    and the int [k]. *)
Definition same_for_percentage (k : nat) : bool :=
  let p := Z.of_nat k in
  let n := rne_div (25 * p) 100 in
  returns_int (compute_vacation_total (PyStr (str_of_int p ++ "%"))) n &&
  returns_int (compute_vacation_total (PyFloat (float_of_Z p / 100))) n &&
  returns_int (compute_vacation_total (PyInt p)) n.

End Sample.

(** ** The seniority ladder as the specification words it *)

Module Spec.
Import Py.

(** A rule: an upper bound on age, a test on tenure, and the label. *)
Record rule := {
  age_below : Z;
  tenure_test : number -> bool;
  label : string
}.

Definition ladder : list rule :=
  [ {| age_below := 28; tenure_test := fun t => num_ltb t (NInt 3);
       label := "Junior" |};
    {| age_below := 35; tenure_test := fun t => num_ltb t (NInt 6);
       label := "Mid" |};
    {| age_below := 45; tenure_test := fun t => num_ltb t (NInt 12);
       label := "Senior" |};
    {| age_below := 60; tenure_test := fun t => num_geb t (NInt 8);
       label := "Manager" |} ].

Definition applies (age tenure : number) (r : rule) : bool :=
  num_ltb age (NInt (age_below r)) && tenure_test r tenure.

(** The label of the first rule that applies, [Director] otherwise. *)
Definition first_match (age tenure : number) : string :=
  match find (applies age tenure) ladder with
  | Some r => label r
  | None => "Director"
  end.

End Spec.

(** ** binary64 arithmetic by value

    Definitions used to reason about [SpecFloat]'s operations: exact
    values as integers in units of [2^-1074], and rounding to nearest,
    ties to even, as a function on rationals. *)

Module Binary64.

(** [z] is [n / d] rounded to the nearest integer, ties to even. *)
Definition is_rne (n d z : Z) : Prop :=
  2 * d * z - d <= 2 * n <= 2 * d * z + d /\
  (2 * n = 2 * d * z + d -> Z.even z = true) /\
  (2 * n = 2 * d * z - d -> Z.even z = true).

(** A shift record read as an integer in quarter units: the mantissa,
    the round bit and the sticky bit. *)
Definition enc (mrs : shr_record) : Z :=
  4 * shr_m mrs + (if shr_r mrs then 2 else 0) + (if shr_s mrs then 1 else 0).

(** One right shift on such an integer, the lost bits kept sticky. *)
Definition sticky1 (t : Z) : Z :=
  2 * (t / 4) + (if t mod 4 =? 0 then 0 else 1).

Definition loc_code (l : location) : Z :=
  match l with
  | loc_Exact => 0
  | loc_Inexact Lt => 1
  | loc_Inexact Eq => 2
  | loc_Inexact Gt => 3
  end.

(** Where the remainder [r] of a division by [d] lies in [0, d). *)
Definition rem_code (d r : Z) : Z :=
  if r =? 0 then 0
  else match 2 * r ?= d with Lt => 1 | Eq => 2 | Gt => 3 end.

(** [2^1024] in units of [2^-1074]: the first value that overflows. *)
Definition top : Z := 2 ^ 2098.

(** The value of a float in units of [2^-1074], the spacing of the
    subnormals; an infinity counts as [2^1024]. *)
Definition sval (x : spec_float) : Z :=
  match x with
  | S754_zero _ | S754_nan => 0
  | S754_infinity s => cond_Zopp s top
  | S754_finite s m e => cond_Zopp s (Zpos m * 2 ^ (e + 1074))
  end.

Definition sf_is_nan (x : spec_float) : bool :=
  match x with S754_nan => true | _ => false end.

Definition sf_is_finite (x : spec_float) : bool :=
  match x with S754_zero _ | S754_finite _ _ _ => true | _ => false end.

(** What [binary_round_aux] returns on an aligned input: the rounded
    value [v], as a zero, a canonical finite float, or an infinity when
    [v] reaches [2^1024]. *)
Definition rounds_to (s : bool) (v : Z) (x : spec_float) : Prop :=
  (x = S754_zero s /\ v = 0) \/
  (exists m' e', x = S754_finite s m' e' /\ bounded prec emax m' e' = true /\
     -1074 <= e' /\ Zpos m' * 2 ^ (e' + 1074) = v /\ v < top) \/
  (x = S754_infinity s /\ top <= v).

(** The binary64 rounding of the rational [n / d * 2^e], in units of
    [2^-1074] and before the overflow test. *)
Definition round_rat (n d e : Z) : Z :=
  let E := fexp prec emax (Zdigits2 (n / d) + e) in
  rne_div n (d * 2 ^ (E - e)) * 2 ^ (E + 1074).

(** The exponent [e] is fine enough for the value to be rounded. *)
Definition aligned (n d e : Z) : Prop :=
  e <= fexp prec emax (Zdigits2 (n / d) + e).

(** The binary64 rounding of the rational [n / d], both in units of
    [2^-1074]; [top] stands for an infinity. *)
Definition rq (n d : Z) : Z := Z.min (round_rat n d (-1074)) top.

(** The rounding of a signed rational [n / d], [d > 0]. *)
Definition srq (n d : Z) : Z :=
  if n <? 0 then - rq (- n) d else rq n d.

(** The value of a primitive float, and of a Python number. *)
Definition fval (f : float) : Z := sval (Prim2SF f).

Definition nval (x : Py.number) : Z :=
  match x with
  | Py.NInt z => z * 2 ^ 1074
  | Py.NFloat f => fval f
  end.

Definition num_finite (x : Py.number) : bool :=
  match x with
  | Py.NInt _ => true
  | Py.NFloat f => sf_is_finite (Prim2SF f)
  end.

(** A magnitude up to which nothing in [compute_vacation_total]
    overflows. *)
Definition moderate : Z := 10 ^ 300.

(** The value of [float d / 365.25] for an int [d]. *)
Definition tenure_value (d : Z) : Z :=
  srq (srq (d * 2 ^ 1074) 1 * 2 ^ 1074) (1461 * 2 ^ 1072).

(** [round] on a value: the nearest integer, ties to even. *)
Definition round_val (v : Z) : Z :=
  if v <? 0 then - rne_div (- v) (2 ^ 1074) else rne_div v (2 ^ 1074).

(** [compute_vacation_total] on the value [v] of a number, on either
    side of the threshold: conversion to a float, division by 100
    above the threshold, multiplication by 25. *)
Definition vacation_value (above : bool) (v : Z) : Z :=
  let c := srq v 1 in
  let frac := if above then srq (c * 2 ^ 1074) (100 * 2 ^ 1074) else c in
  srq (25 * 2 ^ 1074 * frac) (2 ^ 1074).

End Binary64.

(** * Facts about binary64 rounding *)

Module Binary64Facts.
Import Binary64.

Lemma rne_div_is_rne n d : 0 < d -> is_rne n d (rne_div n d).
Proof.
  intros Hd. unfold is_rne, rne_div.
  pose proof (Z.div_mod n d ltac:(lia)) as Hn.
  pose proof (Z.mod_pos_bound n d Hd) as Hr.
  set (q := n / d) in *. set (r := n mod d) in *.
  destruct (Z.compare_spec (2 * r) d) as [He|Hl|Hg].
  - destruct (Z.even q) eqn:Hq.
    + repeat split; try nia. intros _. exact Hq.
    + repeat split; try nia. intros _.
      rewrite Z.even_add, Hq. reflexivity.
  - repeat split; nia.
  - repeat split; nia.
Qed.

Lemma is_rne_mono n1 d1 z1 n2 d2 z2 :
  0 < d1 -> 0 < d2 -> is_rne n1 d1 z1 -> is_rne n2 d2 z2 ->
  n1 * d2 <= n2 * d1 -> z1 <= z2.
Proof.
  intros H1 H2 [[Ha _] [_ Hlo]] [[_ Hb] [Hhi _]] Hle.
  destruct (Z_le_gt_dec z1 z2) as [|Hgt]; [assumption|exfalso].
  assert (Hz : z1 = z2 + 1).
  { assert ((2 * z1 - 1) * (d1 * d2) <= (2 * z2 + 1) * (d1 * d2)) by nia.
    assert (0 < d1 * d2) by nia. nia. }
  subst z1.
  assert (E1 : 2 * n1 = 2 * d1 * (z2 + 1) - d1) by nia.
  assert (E2 : 2 * n2 = 2 * d2 * z2 + d2) by nia.
  specialize (Hlo E1). specialize (Hhi E2).
  rewrite Z.even_add, Hhi in Hlo. discriminate.
Qed.

Lemma rne_div_mono n1 d1 n2 d2 :
  0 < d1 -> 0 < d2 -> n1 * d2 <= n2 * d1 -> rne_div n1 d1 <= rne_div n2 d2.
Proof.
  intros H1 H2 Hle.
  exact (is_rne_mono _ _ _ _ _ _ H1 H2 (rne_div_is_rne _ _ H1)
           (rne_div_is_rne _ _ H2) Hle).
Qed.

Lemma is_rne_unique n d z : 0 < d -> is_rne n d z -> z = rne_div n d.
Proof.
  intros Hd Hz. pose proof (rne_div_is_rne n d Hd) as Hr.
  apply Z.le_antisymm.
  - exact (is_rne_mono _ _ _ _ _ _ Hd Hd Hz Hr (Z.le_refl _)).
  - exact (is_rne_mono _ _ _ _ _ _ Hd Hd Hr Hz (Z.le_refl _)).
Qed.

Lemma rne_div_exact z d : 0 < d -> rne_div (z * d) d = z.
Proof.
  intros Hd. symmetry. apply is_rne_unique; [assumption|].
  unfold is_rne. repeat split; nia.
Qed.

Lemma rne_div_scale n d c : 0 < d -> 0 < c -> rne_div (n * c) (d * c) = rne_div n d.
Proof.
  intros. apply Z.le_antisymm; apply rne_div_mono; nia.
Qed.

Lemma rne_div_ge n d a : 0 < d -> a * d <= n -> a <= rne_div n d.
Proof.
  intros. rewrite <- (rne_div_exact a d) at 1 by assumption.
  apply rne_div_mono; nia.
Qed.

Lemma rne_div_le n d a : 0 < d -> n <= a * d -> rne_div n d <= a.
Proof.
  intros. rewrite <- (rne_div_exact a d) by assumption.
  apply rne_div_mono; nia.
Qed.

Lemma rne_div_small n d : 0 < d -> 0 <= n -> 2 * n < d -> rne_div n d = 0.
Proof.
  intros. symmetry. apply is_rne_unique; [assumption|].
  unfold is_rne. repeat split; try lia.
Qed.

Lemma digits2_size p : digits2_pos p = Pos.size p.
Proof. induction p; simpl; congruence. Qed.

Lemma Zdigits2_bounds m :
  0 < m -> 2 ^ (Zdigits2 m - 1) <= m < 2 ^ Zdigits2 m.
Proof.
  destruct m as [|p|p]; try lia. intros _. simpl Zdigits2.
  rewrite digits2_size. split.
  - pose proof (Pos.size_le p) as H.
    assert (Hz : 2 ^ Zpos (Pos.size p) <= 2 * Zpos p).
    { rewrite <- Pos2Z.inj_pow. change (2 * Zpos p) with (Zpos p~0). lia. }
    replace (Zpos (Pos.size p)) with (Z.succ (Zpos (Pos.size p) - 1)) in Hz by lia.
    rewrite Z.pow_succ_r in Hz by lia. lia.
  - pose proof (Pos.size_gt p) as H.
    rewrite <- Pos2Z.inj_pow. lia.
Qed.

Lemma Zdigits2_nonneg m : 0 <= Zdigits2 m.
Proof. destruct m; simpl; lia. Qed.

Lemma Zdigits2_pos m : 0 < m -> 0 < Zdigits2 m.
Proof. destruct m; simpl; lia. Qed.

Lemma pow2_pos k : 0 <= k -> 0 < 2 ^ k.
Proof. intros. apply Z.pow_pos_nonneg; lia. Qed.

Lemma pow2_le a b : 0 <= a <= b -> 2 ^ a <= 2 ^ b.
Proof. intros. apply Z.pow_le_mono_r; lia. Qed.

Lemma pow2_lt a b : 0 <= a < b -> 2 ^ a < 2 ^ b.
Proof. intros. apply Z.pow_lt_mono_r; lia. Qed.

Lemma pow2_split a b : 0 <= a <= b -> 2 ^ b = 2 ^ (b - a) * 2 ^ a.
Proof. intros. rewrite <- Z.pow_add_r by lia. f_equal. lia. Qed.

(** A number below [2^d] has at most [d] digits; one from [2^d] on has
    more. *)
Lemma Zdigits2_le m d : 0 <= m -> 0 <= d -> m < 2 ^ d -> Zdigits2 m <= d.
Proof.
  intros Hm Hd Hlt.
  destruct (Z.eq_dec m 0) as [->|Hne]; [simpl; lia|].
  pose proof (Zdigits2_bounds m ltac:(lia)) as [Hlo _].
  destruct (Z_le_gt_dec (Zdigits2 m) d) as [|Hgt]; [assumption|exfalso].
  pose proof (pow2_le d (Zdigits2 m - 1) ltac:(lia)). lia.
Qed.

Lemma Zdigits2_gt m d : 0 <= d -> 2 ^ d <= m -> d < Zdigits2 m.
Proof.
  intros Hd Hle.
  pose proof (pow2_pos d Hd).
  pose proof (Zdigits2_bounds m ltac:(lia)) as [_ Hhi].
  destruct (Z_lt_le_dec d (Zdigits2 m)) as [|Hge]; [assumption|exfalso].
  pose proof (Zdigits2_nonneg m).
  pose proof (pow2_le (Zdigits2 m) d ltac:(lia)). lia.
Qed.

Lemma Zdigits2_pow2 d : 0 <= d -> Zdigits2 (2 ^ d) = d + 1.
Proof.
  intros Hd. apply Z.le_antisymm.
  - pose proof (pow2_pos d Hd). pose proof (pow2_lt d (d + 1) ltac:(lia)).
    apply Zdigits2_le; lia.
  - pose proof (Zdigits2_gt (2 ^ d) d Hd ltac:(lia)). lia.
Qed.

(** ** Right shifts with round and sticky bits *)

Lemma iter_pos_nat {A} (f : A -> A) p x :
  SpecFloat.iter_pos f p x = Nat.iter (Pos.to_nat p) f x.
Proof.
  revert x. induction p as [p IH|p IH|]; intros x; simpl SpecFloat.iter_pos.
  - rewrite !IH. rewrite Pos2Nat.inj_xI.
    replace (S (2 * Pos.to_nat p))%nat with (Pos.to_nat p + (Pos.to_nat p + 1))%nat by lia.
    rewrite !Nat.iter_add. reflexivity.
  - rewrite !IH. rewrite Pos2Nat.inj_xO.
    replace (2 * Pos.to_nat p)%nat with (Pos.to_nat p + Pos.to_nat p)%nat by lia.
    rewrite Nat.iter_add. reflexivity.
  - reflexivity.
Qed.

Lemma shr_1_eq m r s :
  0 <= m ->
  shr_1 (Build_shr_record m r s) = Build_shr_record (Z.div2 m) (Z.odd m) (r || s).
Proof.
  intros Hm. destruct m as [|[p|p|]|p]; try lia; reflexivity.
Qed.

Lemma shr_1_enc mrs :
  0 <= shr_m mrs ->
  enc (shr_1 mrs) = sticky1 (enc mrs) /\ shr_m (shr_1 mrs) = shr_m mrs / 2.
Proof.
  destruct mrs as [m r s]. cbn [shr_m]. intros Hm.
  rewrite shr_1_eq by assumption. unfold enc, sticky1. cbn [shr_m shr_r shr_s].
  pose proof (Z.div2_odd m) as Hd. rewrite Z.div2_div in *.
  set (h := m / 2) in *. clearbody h.
  split; [|reflexivity].
  destruct (Z.odd m), r, s; cbn [orb Z.b2z] in *; subst m;
    match goal with |- context [?t mod 4 =? 0] => destruct (Z.eqb_spec (t mod 4) 0) end;
    Z.div_mod_to_equations; lia.
Qed.

Lemma sticky1_rne t d : 0 <= t -> 0 < d -> rne_div (sticky1 t) (4 * d) = rne_div t (8 * d).
Proof.
  intros Ht Hd. apply is_rne_unique; [lia|].
  pose proof (rne_div_is_rne (sticky1 t) (4 * d) ltac:(lia)) as Hs.
  set (z := rne_div (sticky1 t) (4 * d)) in *. clearbody z.
  unfold is_rne, sticky1 in *.
  pose proof (Z.div_mod t 4 ltac:(lia)) as Hdm.
  pose proof (Z.mod_pos_bound t 4 ltac:(lia)) as Hb.
  set (a := t / 4) in *. set (c := t mod 4) in *. clearbody a c.
  destruct Hs as [[H1 H2] [H3 H4]].
  destruct (Z.eqb_spec c 0) as [Hc|Hc].
  - repeat split; try nia; intros; [apply H3|apply H4]; nia.
  - repeat split; try nia; intros; exfalso; nia.
Qed.

Lemma shr_iter_spec n mrs :
  0 <= shr_m mrs ->
  let mrs' := Nat.iter n shr_1 mrs in
  rne_div (enc mrs') 4 = rne_div (enc mrs) (4 * 2 ^ Z.of_nat n) /\
  shr_m mrs' = shr_m mrs / 2 ^ Z.of_nat n.
Proof.
  revert mrs. induction n as [|n IH]; intros mrs Hm.
  - simpl. rewrite Z.div_1_r. split; reflexivity.
  - cbv zeta. rewrite Nat.iter_succ_r.
    destruct (shr_1_enc mrs Hm) as [He Hs].
    assert (Hm' : 0 <= shr_m (shr_1 mrs)).
    { rewrite Hs. apply Z.div_pos; lia. }
    destruct (IH (shr_1 mrs) Hm') as [IH1 IH2].
    rewrite IH1, IH2, He, Hs.
    rewrite Nat2Z.inj_succ, Z.pow_succ_r by lia.
    pose proof (pow2_pos (Z.of_nat n) ltac:(lia)) as Hp.
    split.
    + rewrite sticky1_rne.
      * f_equal. lia.
      * unfold enc. destruct (shr_r mrs), (shr_s mrs); lia.
      * lia.
    + rewrite Z.div_div by lia. reflexivity.
Qed.

Lemma enc_of_loc m l : enc (shr_record_of_loc m l) = 4 * m + loc_code l.
Proof. destruct l as [|[]]; unfold enc; simpl; lia. Qed.

Lemma round_nearest_even_enc mrs :
  round_nearest_even (shr_m mrs) (loc_of_shr_record mrs) = rne_div (enc mrs) 4.
Proof.
  destruct mrs as [m r s]. unfold enc. simpl shr_m. simpl shr_r. simpl shr_s.
  apply is_rne_unique; [lia|]. unfold is_rne.
  destruct r, s; cbn [loc_of_shr_record round_nearest_even]; try (repeat split; lia).
  destruct (Z.even m) eqn:Hm.
  - repeat split; try lia. intros _. exact Hm.
  - repeat split; try lia. intros _. rewrite Z.even_add, Hm. reflexivity.
Qed.

(** What shifting right by [k] and then rounding yields. *)
Lemma shr_round m l e k :
  0 <= m -> 0 <= k ->
  let res := shr (shr_record_of_loc m l) e k in
  round_nearest_even (shr_m (fst res)) (loc_of_shr_record (fst res))
    = rne_div (4 * m + loc_code l) (4 * 2 ^ k) /\
  shr_m (fst res) = m / 2 ^ k /\ snd res = e + k.
Proof.
  intros Hm Hk.
  assert (H0 : 0 <= shr_m (shr_record_of_loc m l)) by (destruct l as [|[]]; exact Hm).
  assert (Hm0 : shr_m (shr_record_of_loc m l) = m) by (destruct l as [|[]]; reflexivity).
  destruct k as [|p|p]; [| |lia]; unfold shr; cbn [fst snd].
  - rewrite round_nearest_even_enc, enc_of_loc, Hm0.
    change (2 ^ 0) with 1. rewrite Z.div_1_r, Z.mul_1_r, Z.add_0_r. auto.
  - rewrite iter_pos_nat, round_nearest_even_enc.
    destruct (shr_iter_spec (Pos.to_nat p) _ H0) as [H1 H2].
    rewrite positive_nat_Z in H1, H2.
    rewrite H1, H2, enc_of_loc, Hm0. auto.
Qed.

Lemma fexp_eq x : fexp prec emax x = Z.max (x - 53) (-1074).
Proof. reflexivity. Qed.

Lemma shr_nonpos mrs e k : k <= 0 -> shr mrs e k = (mrs, e).
Proof. destruct k; try lia; reflexivity. Qed.

Lemma binary_round_aux_unfold s m e l :
  binary_round_aux prec emax s m e l =
  let r1 := shr_fexp prec emax m e l in
  let m1 := round_nearest_even (shr_m (fst r1)) (loc_of_shr_record (fst r1)) in
  let r2 := shr_fexp prec emax m1 (snd r1) loc_Exact in
  match shr_m (fst r2) with
  | Z0 => S754_zero s
  | Zpos m2 =>
      if snd r2 <=? emax - prec then S754_finite s m2 (snd r2) else S754_infinity s
  | Zneg _ => S754_nan
  end.
Proof.
  unfold binary_round_aux.
  destruct (shr_fexp prec emax m e l) as [mrs1 e1]. cbn [fst snd].
  destruct (shr_fexp prec emax _ e1 loc_Exact) as [mrs2 e2]. reflexivity.
Qed.

(** The first stage: shift to the target exponent and round. *)
Lemma round_stage m e l :
  0 <= m -> e <= fexp prec emax (Zdigits2 m + e) ->
  let E := fexp prec emax (Zdigits2 m + e) in
  let r1 := shr_fexp prec emax m e l in
  round_nearest_even (shr_m (fst r1)) (loc_of_shr_record (fst r1))
    = rne_div (4 * m + loc_code l) (4 * 2 ^ (E - e)) /\ snd r1 = E.
Proof.
  intros Hm Hal E r1. unfold r1, shr_fexp.
  destruct (shr_round m l e (E - e) Hm ltac:(unfold E; lia)) as (H1 & _ & H3).
  fold E. rewrite H1, H3. split; [reflexivity|lia].
Qed.

Lemma loc_code_range l : 0 <= loc_code l <= 3.
Proof. destruct l as [|[]]; simpl; lia. Qed.

(** Size of the rounded mantissa, with [p] the number of digits kept. *)
Lemma rounded_bounds m c k :
  0 <= m -> 0 <= c <= 3 -> 0 <= k ->
  let p := Zdigits2 m - k in
  let m1 := rne_div (4 * m + c) (4 * 2 ^ k) in
  0 <= m1 /\ (0 <= p -> m1 <= 2 ^ p) /\ (p < 0 -> m1 = 0) /\
  (0 < m -> 1 <= p -> 2 ^ (p - 1) <= m1).
Proof.
  intros Hm Hc Hk p m1.
  pose proof (pow2_pos k Hk) as Hpk.
  pose proof (Zdigits2_nonneg m) as Hd.
  assert (Hlt : m < 2 ^ Zdigits2 m).
  { destruct (Z.eq_dec m 0) as [->|]; [reflexivity|].
    apply Zdigits2_bounds; lia. }
  repeat split.
  - apply (rne_div_ge _ _ 0); lia.
  - intros Hp. apply rne_div_le; [lia|].
    rewrite (pow2_split k (Zdigits2 m)) in Hlt by lia. fold p in Hlt. nia.
  - intros Hp. apply rne_div_small; try lia.
    rewrite (pow2_split (Zdigits2 m + 1) k) by lia.
    rewrite Z.pow_add_r, Z.pow_1_r in * by lia.
    pose proof (pow2_pos (k - (Zdigits2 m + 1)) ltac:(lia)). nia.
  - intros Hm0 Hp. apply rne_div_ge; [lia|].
    pose proof (Zdigits2_bounds m Hm0) as [Hlo _].
    replace (Zdigits2 m - 1) with ((p - 1) + k) in Hlo by lia.
    rewrite Z.pow_add_r in Hlo by lia. nia.
Qed.

(** The second stage renormalises a mantissa that rounding carried up
    to the next power of two. *)
Lemma renorm_stage m1 E p :
  0 < m1 -> m1 <= 2 ^ p -> 0 <= p <= 53 -> -1074 <= E ->
  (E = -1074 \/ (p = 53 /\ 2 ^ 52 <= m1)) ->
  let r2 := shr_fexp prec emax m1 E loc_Exact in
  exists m2,
    shr_m (fst r2) = Zpos m2 /\
    canonical_mantissa prec emax m2 (snd r2) = true /\
    -1074 <= snd r2 /\
    Zpos m2 * 2 ^ (snd r2 + 1074) = m1 * 2 ^ (E + 1074) /\
    Zpos m2 < 2 ^ 53 /\
    (-1074 < snd r2 -> 2 ^ 52 <= Zpos m2).
Proof.
  intros Hm1 Hle Hp HE Hcase r2. unfold r2, shr_fexp.
  rewrite fexp_eq.
  assert (Hsh0 : shr_m (shr_record_of_loc m1 loc_Exact) = m1) by reflexivity.
  pose proof (pow2_pos p ltac:(lia)) as Hpp.
  destruct (Z.eq_dec m1 (2 ^ p)) as [Heq|Hne].
  - (* the mantissa is a power of two *)
    subst m1. rewrite Zdigits2_pow2 by lia.
    destruct (Z.eq_dec p 53) as [->|Hp53].
    + (* carry: one more shift *)
      replace (Z.max (53 + 1 + E - 53) (-1074) - E) with 1 by lia.
      destruct (shr_round (2 ^ 53) loc_Exact E 1 ltac:(lia) ltac:(lia)) as (_ & H2 & H3).
      rewrite H2, H3.
      change (2 ^ 53 / 2 ^ 1) with (Zpos (Z.to_pos (2 ^ 52))).
      exists (Z.to_pos (2 ^ 52)). repeat split; try lia.
      * unfold canonical_mantissa. rewrite fexp_eq.
        change (Zpos (digits2_pos (Z.to_pos (2 ^ 52)))) with 53. lia.
      * change (Zpos (Z.to_pos (2 ^ 52))) with (2 ^ 52).
        replace (E + 1 + 1074) with (1 + (E + 1074)) by lia.
        rewrite Z.pow_add_r by lia. change (2 ^ 53) with (2 ^ 52 * 2 ^ 1). lia.
    + destruct Hcase as [->|[? _]]; [|lia].
      rewrite shr_nonpos by lia. cbn [fst snd]. rewrite Hsh0.
      assert (Hpos : 2 ^ p = Zpos (Z.to_pos (2 ^ p))) by (rewrite Z2Pos.id; lia).
      exists (Z.to_pos (2 ^ p)). rewrite <- Hpos.
      pose proof (pow2_lt p 53 ltac:(lia)).
      repeat split; try lia.
      unfold canonical_mantissa. rewrite fexp_eq.
      change (Zpos (digits2_pos (Z.to_pos (2 ^ p)))) with (Zdigits2 (Zpos (Z.to_pos (2 ^ p)))).
      rewrite <- Hpos, Zdigits2_pow2 by lia. lia.
  - (* strictly below the power of two: already canonical *)
    assert (Hd1 : Zdigits2 m1 <= p) by (apply Zdigits2_le; lia).
    pose proof (Zdigits2_pos m1 Hm1) as Hd0.
    assert (Hd2 : E = -1074 \/ Zdigits2 m1 = 53).
    { destruct Hcase as [?|[-> Hlo]]; [left; assumption|right].
      pose proof (Zdigits2_gt m1 52 ltac:(lia) Hlo). lia. }
    rewrite shr_nonpos by lia. cbn [fst snd]. rewrite Hsh0.
    assert (Hpos : m1 = Zpos (Z.to_pos m1)) by (rewrite Z2Pos.id; lia).
    exists (Z.to_pos m1). rewrite <- Hpos.
    pose proof (pow2_le p 53 ltac:(lia)).
    repeat split; try lia.
    unfold canonical_mantissa. rewrite fexp_eq.
    change (Zpos (digits2_pos (Z.to_pos m1))) with (Zdigits2 (Zpos (Z.to_pos m1))).
    rewrite <- Hpos. lia.
Qed.

(** Two ways of splitting [2^2098], the value that stands for an
    infinity. *)
Lemma top_split_53 : 2 ^ 2098 = 2 ^ 53 * 2 ^ 2045.
Proof.
  rewrite <- (Z.pow_add_r 2 53 2045) by lia.
  change (53 + 2045) with 2098. reflexivity.
Qed.

Lemma top_split_52 : 2 ^ 2098 = 2 ^ 52 * 2 ^ 2046.
Proof.
  rewrite <- (Z.pow_add_r 2 52 2046) by lia.
  change (52 + 2046) with 2098. reflexivity.
Qed.

Lemma binary_round_aux_spec s m e l :
  0 <= m -> e <= fexp prec emax (Zdigits2 m + e) ->
  let E := fexp prec emax (Zdigits2 m + e) in
  rounds_to s (rne_div (4 * m + loc_code l) (4 * 2 ^ (E - e)) * 2 ^ (E + 1074))
    (binary_round_aux prec emax s m e l).
Proof.
  intros Hm Hal E. rewrite binary_round_aux_unfold. cbv zeta.
  destruct (round_stage m e l Hm Hal) as [H1 H2]. fold E in H1, H2.
  rewrite H1, H2.
  assert (HE : -1074 <= E) by (unfold E; rewrite fexp_eq; lia).
  assert (HEd : E = Z.max (Zdigits2 m + e - 53) (-1074)) by (unfold E; rewrite fexp_eq; lia).
  destruct (rounded_bounds m (loc_code l) (E - e) Hm (loc_code_range l) ltac:(lia))
    as (B0 & B1 & B2 & B3).
  set (m1 := rne_div (4 * m + loc_code l) (4 * 2 ^ (E - e))) in *.
  set (p := Zdigits2 m - (E - e)) in *.
  destruct (Z.eq_dec m1 0) as [Hz|Hnz].
  - left. rewrite Hz. unfold shr_fexp. rewrite fexp_eq.
    change (Zdigits2 0) with 0. rewrite shr_nonpos by lia. cbn. auto.
  - assert (Hp0 : 0 <= p) by (destruct (Z_lt_le_dec p 0); [specialize (B2 ltac:(lia)); lia | lia]).
    specialize (B1 Hp0).
    assert (Hp53 : p <= 53) by lia.
    assert (Hcase : E = -1074 \/ (p = 53 /\ 2 ^ 52 <= m1)).
    { destruct (Z.eq_dec E (-1074)); [left; assumption|right].
      assert (p = 53) by lia. split; [assumption|].
      assert (0 < m).
      { destruct (Z.eq_dec m 0) as [->|]; [|lia]. change (Zdigits2 0) with 0 in *. lia. }
      replace 52 with (p - 1) by lia. apply B3; lia. }
    destruct (renorm_stage m1 E p ltac:(lia) B1 ltac:(lia) HE Hcase)
      as (m2 & R1 & R2 & R3 & R4 & R5 & R6).
    rewrite R1.
    set (e2 := snd (shr_fexp prec emax m1 E loc_Exact)) in *.
    change (emax - prec) with 971.
    destruct (Z.leb_spec e2 971) as [Hle|Hgt].
    + right; left. exists m2, e2. repeat split; try assumption.
      * unfold bounded. rewrite R2. change (emax - prec) with 971.
        apply andb_true_intro; split; [reflexivity|lia].
      * rewrite <- R4. unfold top.
        pose proof (pow2_pos (e2 + 1074) ltac:(lia)) as HJ.
        pose proof (pow2_le (e2 + 1074) 2045 ltac:(lia)) as HK.
        rewrite top_split_53.
        apply Z.lt_le_trans with (2 ^ 53 * 2 ^ (e2 + 1074)).
        -- apply Z.mul_lt_mono_pos_r; [exact HJ|exact R5].
        -- apply Z.mul_le_mono_nonneg_l; [apply Z.pow_nonneg; lia|exact HK].
    + right; right. split; [reflexivity|].
      rewrite <- R4. unfold top.
      specialize (R6 ltac:(lia)).
      pose proof (pow2_le 2046 (e2 + 1074) ltac:(lia)) as HK.
      rewrite top_split_52.
      apply Z.le_trans with (2 ^ 52 * 2 ^ (e2 + 1074)).
      * apply Z.mul_le_mono_nonneg_l; [apply Z.pow_nonneg; lia|exact HK].
      * apply Z.mul_le_mono_nonneg_r; [apply Z.pow_nonneg; lia|exact R6].
Qed.

Lemma rounds_to_valid s v x : rounds_to s v x -> valid_binary x = true.
Proof.
  intros [[-> _]|[(m' & e' & -> & Hb & _)|[-> _]]]; simpl; auto.
Qed.

Lemma rounds_to_sval s v x : 0 <= v -> rounds_to s v x -> sval x = cond_Zopp s (Z.min v top).
Proof.
  intros Hv [[-> ->]|[(m' & e' & -> & _ & _ & <- & Hlt)|[-> Hge]]]; simpl.
  - rewrite Z.min_l by (unfold top; lia). destruct s; reflexivity.
  - rewrite Z.min_l by lia. reflexivity.
  - rewrite Z.min_r by lia. reflexivity.
Qed.

Lemma new_location_code d r :
  0 < d -> 0 <= r < d -> loc_code (new_location d r) = rem_code d r.
Proof.
  intros Hd Hr. unfold new_location, new_location_even, new_location_odd, rem_code.
  destruct (Z.even d) eqn:Hev; destruct (Z.eqb_spec r 0) as [|Hr0]; try reflexivity.
  assert (Hodd : Z.odd d = true) by (rewrite <- Z.negb_even, Hev; reflexivity).
  apply Z.odd_spec in Hodd. destruct Hodd as [h Hh].
  destruct (Z.compare_spec (2 * r + 1) d); destruct (Z.compare_spec (2 * r) d);
    try reflexivity; lia.
Qed.

(** Rounding a quotient from its integer part and the position of the
    remainder is rounding the exact quotient. *)
Lemma quotient_rne n d k :
  0 < d -> 0 <= n -> 0 <= k ->
  rne_div (4 * (n / d) + rem_code d (n mod d)) (4 * 2 ^ k) = rne_div n (d * 2 ^ k).
Proof.
  intros Hd Hn Hk.
  pose proof (pow2_pos k Hk) as Hp. set (P := 2 ^ k) in *. clearbody P.
  pose proof (Z.div_mod n d ltac:(lia)) as Hdm.
  pose proof (Z.mod_pos_bound n d Hd) as Hr.
  set (q := n / d) in *. set (r := n mod d) in *. clearbody q r.
  assert (HdP : 0 < d * P) by (apply Z.mul_pos_pos; assumption).
  apply is_rne_unique; [exact HdP|].
  pose proof (rne_div_is_rne (4 * q + rem_code d r) (4 * P) ltac:(lia)) as Hs.
  set (z := rne_div (4 * q + rem_code d r) (4 * P)) in *. clearbody z.
  unfold is_rne in *. destruct Hs as [[H1 H2] [H3 H4]].
  set (w := P * (2 * z + 1)) in *.
  set (w' := P * (2 * z - 1)) in *.
  assert (Hw : 2 * (4 * P) * z + 4 * P = 4 * w) by (unfold w; lia).
  assert (Hw' : 2 * (4 * P) * z - 4 * P = 4 * w') by (unfold w'; lia).
  assert (Gw : 2 * (d * P) * z + d * P = d * w) by (unfold w; lia).
  assert (Gw' : 2 * (d * P) * z - d * P = d * w') by (unfold w'; lia).
  rewrite Hw in *. rewrite Hw' in *. rewrite Gw, Gw'. clearbody w w'.
  subst n. unfold rem_code in *.
  assert (Hmul : forall a b, a <= b -> d * a <= d * b)
    by (intros a b Hab; apply Z.mul_le_mono_nonneg_l; lia).
  assert (Hcan : forall a b, d * a = d * b -> a = b)
    by (intros a b Hab; apply (Z.mul_reg_l a b d); lia).
  destruct (Z.eqb_spec r 0) as [Hr0|Hr0].
  - subst r.
    pose proof (Hmul w' (2 * q) ltac:(lia)) as M1.
    pose proof (Hmul (2 * q) w ltac:(lia)) as M2.
    split; [lia|]. split; intros Ht.
    + apply H3. assert (2 * q = w) by (apply Hcan; lia). lia.
    + apply H4. assert (2 * q = w') by (apply Hcan; lia). lia.
  - destruct (Z.compare_spec (2 * r) d) as [He|Hl|Hg].
    + pose proof (Hmul w' (2 * q + 1) ltac:(lia)) as M1.
      pose proof (Hmul (2 * q + 1) w ltac:(lia)) as M2.
      split; [lia|]. split; intros Ht.
      * apply H3. assert (2 * q + 1 = w) by (apply Hcan; lia). lia.
      * apply H4. assert (2 * q + 1 = w') by (apply Hcan; lia). lia.
    + pose proof (Hmul w' (2 * q) ltac:(lia)) as M1.
      pose proof (Hmul (2 * q + 1) w ltac:(lia)) as M2.
      split; [lia|]. split; intros Ht; exfalso; lia.
    + pose proof (Hmul w' (2 * q + 1) ltac:(lia)) as M1.
      pose proof (Hmul (2 * q + 2) w ltac:(lia)) as M2.
      split; [lia|]. split; intros Ht; exfalso; lia.
Qed.

Lemma fexp_mono a b : a <= b -> fexp prec emax a <= fexp prec emax b.
Proof. rewrite !fexp_eq. lia. Qed.

Lemma fexp_ge x : -1074 <= fexp prec emax x.
Proof. rewrite fexp_eq. lia. Qed.

(** The integer part of a quotient brackets it. *)
Lemma quot_bounds n d :
  0 < d -> 0 <= n ->
  0 <= n / d /\ (n / d) * d <= n < (n / d + 1) * d /\ n < 2 ^ Zdigits2 (n / d) * d.
Proof.
  intros Hd Hn.
  pose proof (Z.div_mod n d ltac:(lia)) as Hdm.
  pose proof (Z.mod_pos_bound n d Hd) as Hr.
  assert (Hq : 0 <= n / d) by (apply Z.div_pos; lia).
  repeat split; try nia.
  assert (n / d < 2 ^ Zdigits2 (n / d)).
  { destruct (Z.eq_dec (n / d) 0) as [->|]; [reflexivity|].
    apply Zdigits2_bounds; lia. }
  nia.
Qed.

(** Magnitudes are ordered like the values. *)
Lemma magnitude_mono n1 d1 e1 n2 d2 e2 L :
  0 < d1 -> 0 < d2 -> 0 <= n1 -> 0 <= n2 -> L <= e1 -> L <= e2 ->
  0 < n1 / d1 ->
  n1 * 2 ^ (e1 - L) * d2 <= n2 * 2 ^ (e2 - L) * d1 ->
  Zdigits2 (n1 / d1) + e1 <= Zdigits2 (n2 / d2) + e2.
Proof.
  intros Hd1 Hd2 Hn1 Hn2 HL1 HL2 Hq1 Hle.
  destruct (quot_bounds n1 d1 Hd1 Hn1) as (_ & [Hlo1 _] & _).
  destruct (quot_bounds n2 d2 Hd2 Hn2) as (Hq2 & _ & Hhi2).
  pose proof (Zdigits2_bounds (n1 / d1) Hq1) as [Hb1 _].
  pose proof (Zdigits2_pos (n1 / d1) Hq1) as Hp1.
  pose proof (Zdigits2_nonneg (n2 / d2)) as Hp2.
  set (g1 := Zdigits2 (n1 / d1)) in *. set (g2 := Zdigits2 (n2 / d2)) in *.
  pose proof (pow2_pos (e1 - L) ltac:(lia)) as P1.
  pose proof (pow2_pos (e2 - L) ltac:(lia)) as P2.
  assert (Hlt : 2 ^ (g1 - 1) * 2 ^ (e1 - L) < 2 ^ g2 * 2 ^ (e2 - L)).
  { assert (A1 : 2 ^ (g1 - 1) * d1 <= n1) by nia.
    assert (A2 : 2 ^ (g1 - 1) * d1 * (2 ^ (e1 - L) * d2) <= n1 * (2 ^ (e1 - L) * d2)).
    { apply Z.mul_le_mono_nonneg_r; nia. }
    assert (A3 : n2 * (2 ^ (e2 - L) * d1) < 2 ^ g2 * d2 * (2 ^ (e2 - L) * d1)).
    { apply Z.mul_lt_mono_pos_r; nia. }
    assert (A4 : (2 ^ (g1 - 1) * 2 ^ (e1 - L)) * (d1 * d2)
                 < (2 ^ g2 * 2 ^ (e2 - L)) * (d1 * d2)) by lia.
    apply Z.mul_lt_mono_pos_r in A4; nia. }
  rewrite <- !Z.pow_add_r in Hlt by lia.
  destruct (Z_le_gt_dec (g1 + e1) (g2 + e2)) as [|Hgt]; [assumption|exfalso].
  pose proof (pow2_le (g2 + (e2 - L)) (g1 - 1 + (e1 - L)) ltac:(lia)). lia.
Qed.

(** Comparing two scaled integers does not depend on the common unit. *)
Lemma rescale_le n1 e1 n2 e2 L E :
  L <= e1 <= E -> L <= e2 <= E ->
  n1 * 2 ^ (e1 - L) <= n2 * 2 ^ (e2 - L) ->
  n1 * 2 ^ (E - e2) <= n2 * 2 ^ (E - e1).
Proof.
  intros H1 H2 Hle.
  pose proof (pow2_pos (e1 - L) ltac:(lia)) as P1.
  pose proof (pow2_pos (e2 - L) ltac:(lia)) as P2.
  pose proof (pow2_pos (E - L) ltac:(lia)) as P3.
  apply (Z.mul_le_mono_pos_r _ _ (2 ^ (e1 - L) * 2 ^ (e2 - L))); [nia|].
  assert (X1 : 2 ^ (E - e2) * 2 ^ (e2 - L) = 2 ^ (E - L)).
  { rewrite <- Z.pow_add_r by lia. f_equal. lia. }
  assert (X2 : 2 ^ (E - e1) * 2 ^ (e1 - L) = 2 ^ (E - L)).
  { rewrite <- Z.pow_add_r by lia. f_equal. lia. }
  replace (n1 * 2 ^ (E - e2) * (2 ^ (e1 - L) * 2 ^ (e2 - L)))
    with (n1 * 2 ^ (e1 - L) * (2 ^ (E - e2) * 2 ^ (e2 - L))) by ring.
  replace (n2 * 2 ^ (E - e1) * (2 ^ (e1 - L) * 2 ^ (e2 - L)))
    with (n2 * 2 ^ (e2 - L) * (2 ^ (E - e1) * 2 ^ (e1 - L))) by ring.
  rewrite X1, X2. apply Z.mul_le_mono_nonneg_r; lia.
Qed.

Lemma round_rat_nonneg n d e : 0 < d -> 0 <= n -> aligned n d e -> 0 <= round_rat n d e.
Proof.
  intros Hd Hn Hal. unfold round_rat, aligned in *. cbv zeta.
  set (E := fexp prec emax _) in *.
  pose proof (fexp_ge (Zdigits2 (n / d) + e)) as HE. fold E in HE.
  pose proof (pow2_pos (E - e) ltac:(lia)).
  pose proof (pow2_pos (E + 1074) ltac:(lia)).
  apply Z.mul_nonneg_nonneg; [|lia].
  apply (rne_div_ge _ _ 0); nia.
Qed.

(** Rounding is monotone. *)
Lemma round_rat_mono n1 d1 e1 n2 d2 e2 L :
  0 < d1 -> 0 < d2 -> 0 <= n1 -> 0 <= n2 -> L <= e1 -> L <= e2 ->
  aligned n1 d1 e1 -> aligned n2 d2 e2 ->
  n1 * 2 ^ (e1 - L) * d2 <= n2 * 2 ^ (e2 - L) * d1 ->
  round_rat n1 d1 e1 <= round_rat n2 d2 e2.
Proof.
  intros Hd1 Hd2 Hn1 Hn2 HL1 HL2 Hal1 Hal2 Hle.
  unfold round_rat, aligned in *. cbv zeta.
  destruct (quot_bounds n1 d1 Hd1 Hn1) as (Hq1 & [Hlo1 _] & Hhi1).
  destruct (quot_bounds n2 d2 Hd2 Hn2) as (Hq2 & [Hlo2 _] & Hhi2).
  pose proof (Zdigits2_nonneg (n1 / d1)) as Hp1.
  pose proof (Zdigits2_nonneg (n2 / d2)) as Hp2.
  set (g1 := Zdigits2 (n1 / d1)) in *. set (g2 := Zdigits2 (n2 / d2)) in *.
  pose proof (fexp_ge (g1 + e1)) as G1. pose proof (fexp_ge (g2 + e2)) as G2.
  assert (F1 : fexp prec emax (g1 + e1) = Z.max (g1 + e1 - 53) (-1074)) by apply fexp_eq.
  assert (F2 : fexp prec emax (g2 + e2) = Z.max (g2 + e2 - 53) (-1074)) by apply fexp_eq.
  set (E1 := fexp prec emax (g1 + e1)) in *. set (E2 := fexp prec emax (g2 + e2)) in *.
  clearbody E1 E2.
  pose proof (pow2_pos (E1 - e1) ltac:(lia)) as K1.
  pose proof (pow2_pos (E2 - e2) ltac:(lia)) as K2.
  pose proof (pow2_pos (e1 - L) ltac:(lia)) as P1.
  pose proof (pow2_pos (e2 - L) ltac:(lia)) as P2.
  pose proof (pow2_pos (E1 + 1074) ltac:(lia)) as S1.
  pose proof (pow2_pos (E2 + 1074) ltac:(lia)) as S2.
  assert (Hsame : E2 = E1 ->
    rne_div n1 (d1 * 2 ^ (E1 - e1)) * 2 ^ (E1 + 1074)
    <= rne_div n2 (d2 * 2 ^ (E2 - e2)) * 2 ^ (E2 + 1074)).
  { intros HE. rewrite HE in *. apply Z.mul_le_mono_nonneg_r; [lia|].
    apply rne_div_mono; try nia.
    pose proof (rescale_le (n1 * d2) e1 (n2 * d1) e2 L E1 ltac:(lia) ltac:(lia)) as Hre.
    replace (n1 * (d2 * 2 ^ (E1 - e2))) with (n1 * d2 * 2 ^ (E1 - e2)) by ring.
    replace (n2 * (d1 * 2 ^ (E1 - e1))) with (n2 * d1 * 2 ^ (E1 - e1)) by ring.
    apply Hre. lia. }
  assert (Hfull : E1 < E2 -> 2 ^ 52 <= rne_div n2 (d2 * 2 ^ (E2 - e2))).
  { intros HE12.
    assert (Hg2 : g2 = E2 - e2 + 53) by lia.
    apply rne_div_ge; [nia|].
    assert (0 < n2 / d2).
    { destruct (Z.eq_dec (n2 / d2) 0) as [Hz2|]; [|lia].
      unfold g2 in Hg2. rewrite Hz2 in Hg2. change (Zdigits2 0) with 0 in Hg2. lia. }
    pose proof (Zdigits2_bounds (n2 / d2) ltac:(lia)) as [Hb _]. fold g2 in Hb.
    replace (g2 - 1) with (52 + (E2 - e2)) in Hb by lia.
    rewrite (Z.pow_add_r 2 52 (E2 - e2)) in Hb by lia. nia. }
  destruct (Z.eq_dec (n1 / d1) 0) as [Hz|Hnz].
  - (* below the smallest subnormal: rounds to 0 or to one unit *)
    assert (He1 : E1 = -1074).
    { unfold g1 in *. rewrite Hz in *. change (Zdigits2 0) with 0 in *. lia. }
    destruct (Z.eq_dec E2 E1) as [HE|HE]; [auto|].
    specialize (Hfull ltac:(lia)).
    assert (Hr1 : rne_div n1 (d1 * 2 ^ (E1 - e1)) <= 1).
    { apply rne_div_le; [nia|]. unfold g1 in Hhi1. rewrite Hz in Hhi1.
      change (2 ^ Zdigits2 0) with 1 in Hhi1. nia. }
    pose proof (pow2_le (E1 + 1074) (E2 + 1074) ltac:(lia)). nia.
  - assert (Hq1' : 0 < n1 / d1) by lia.
    pose proof (magnitude_mono n1 d1 e1 n2 d2 e2 L Hd1 Hd2 Hn1 Hn2 HL1 HL2 Hq1' Hle) as Hmag.
    fold g1 g2 in Hmag.
    destruct (Z.eq_dec E2 E1) as [HE|HE]; [auto|].
    specialize (Hfull ltac:(lia)).
    assert (Hg : g1 + e1 < g2 + e2) by lia.
    (* the smaller one stays below its binade's upper end *)
    assert (Hr1 : rne_div n1 (d1 * 2 ^ (E1 - e1)) * 2 ^ (E1 + 1074) <= 2 ^ (g1 + e1 + 1074)).
    { destruct (Z_lt_le_dec (g1 - (E1 - e1)) 0) as [Hneg|Hpos].
      - pose proof (Z.pow_nonneg 2 (g1 + e1 + 1074) ltac:(lia)).
        pose proof (pow2_le (g1 + 1) (E1 - e1) ltac:(lia)) as Hpw.
        rewrite (Z.pow_add_r 2 g1 1), Z.pow_1_r in Hpw by lia.
        rewrite rne_div_small;
          [lia | apply Z.mul_pos_pos; assumption | assumption | ].
        assert (2 ^ g1 * 2 * d1 <= 2 ^ (E1 - e1) * d1)
          by (apply Z.mul_le_mono_nonneg_r; lia).
        lia.
      - assert (rne_div n1 (d1 * 2 ^ (E1 - e1)) <= 2 ^ (g1 - (E1 - e1))).
        { apply rne_div_le; [nia|].
          rewrite (pow2_split (E1 - e1) g1) in Hhi1 by lia. nia. }
        replace (g1 + e1 + 1074) with ((g1 - (E1 - e1)) + (E1 + 1074)) by lia.
        rewrite (Z.pow_add_r 2 (g1 - (E1 - e1)) (E1 + 1074)) by lia.
        apply Z.mul_le_mono_nonneg_r; lia. }
    assert (2 ^ (g1 + e1 + 1074) <= 2 ^ 52 * 2 ^ (E2 + 1074)).
    { rewrite <- (Z.pow_add_r 2 52 (E2 + 1074)) by lia.
      destruct (Z_lt_le_dec (g1 + e1 + 1074) 0) as [Hneg|Hpos].
      - rewrite (Z.pow_neg_r 2 _ Hneg). apply Z.pow_nonneg; lia.
      - apply pow2_le. lia. }
    nia.
Qed.

(** The rounding depends on the value only, not on how it is written. *)
Lemma round_rat_ext n1 d1 e1 n2 d2 e2 L :
  0 < d1 -> 0 < d2 -> 0 <= n1 -> 0 <= n2 -> L <= e1 -> L <= e2 ->
  aligned n1 d1 e1 -> aligned n2 d2 e2 ->
  n1 * 2 ^ (e1 - L) * d2 = n2 * 2 ^ (e2 - L) * d1 ->
  round_rat n1 d1 e1 = round_rat n2 d2 e2.
Proof.
  intros. apply Z.le_antisymm; eapply round_rat_mono with (L := L); eauto; lia.
Qed.

Lemma aligned_min n d : aligned n d (-1074).
Proof. unfold aligned. apply fexp_ge. Qed.

Lemma top_pos : 0 < top.
Proof. reflexivity. Qed.

Lemma rq_mono n1 d1 n2 d2 :
  0 < d1 -> 0 < d2 -> 0 <= n1 -> 0 <= n2 -> n1 * d2 <= n2 * d1 ->
  rq n1 d1 <= rq n2 d2.
Proof.
  intros. unfold rq. apply Z.min_le_compat_r.
  apply (round_rat_mono _ _ _ _ _ _ (-1074)); auto using aligned_min; try lia.
Qed.

Lemma rq_ext n1 d1 n2 d2 :
  0 < d1 -> 0 < d2 -> 0 <= n1 -> 0 <= n2 -> n1 * d2 = n2 * d1 ->
  rq n1 d1 = rq n2 d2.
Proof. intros. apply Z.le_antisymm; apply rq_mono; lia. Qed.

Lemma rq_range n d : 0 < d -> 0 <= n -> 0 <= rq n d <= top.
Proof.
  intros Hd Hn. unfold rq.
  pose proof (round_rat_nonneg n d (-1074) Hd Hn (aligned_min n d)).
  pose proof top_pos. lia.
Qed.

(** Any aligned way of writing a value rounds to its [rq]. *)
Lemma round_rat_rq n d e n' d' :
  0 < d -> 0 <= n -> aligned n d e -> 0 < d' -> 0 <= n' -> -2148 <= e ->
  n * 2 ^ (e + 2148) * d' = n' * 2 ^ 1074 * d ->
  Z.min (round_rat n d e) top = rq n' d'.
Proof.
  intros Hd Hn Hal Hd' Hn' He Heq. unfold rq. f_equal.
  apply (round_rat_ext _ _ _ _ _ _ (-2148)); auto using aligned_min; try lia.
Qed.

(** ** Valid floats *)

Lemma bounded_facts m e :
  bounded prec emax m e = true ->
  -1074 <= e <= 971 /\ fexp prec emax (Zdigits2 (Zpos m) + e) = e /\
  Zpos m < 2 ^ 53 /\ (-1074 < e -> 2 ^ 52 <= Zpos m) /\
  Zpos m * 2 ^ (e + 1074) < top.
Proof.
  unfold bounded, canonical_mantissa. intros H.
  apply andb_true_iff in H. destruct H as [Hc Hb].
  apply Z.eqb_eq in Hc. apply Z.leb_le in Hb. change (emax - prec) with 971 in Hb.
  change (Zpos (digits2_pos m)) with (Zdigits2 (Zpos m)) in Hc.
  pose proof Hc as Hc'. rewrite fexp_eq in Hc'.
  pose proof (Zdigits2_bounds (Zpos m) ltac:(lia)) as [Hlo Hhi].
  pose proof (Zdigits2_pos (Zpos m) ltac:(lia)) as Hdp.
  assert (Hm : Zpos m < 2 ^ 53).
  { pose proof (pow2_le (Zdigits2 (Zpos m)) 53 ltac:(lia)). lia. }
  repeat split; try lia; try assumption.
  - intros He. replace (Zdigits2 (Zpos m)) with 53 in Hlo by lia. exact Hlo.
  - unfold top. pose proof (pow2_pos (e + 1074) ltac:(lia)) as HJ.
    pose proof (pow2_le (e + 1074) 2045 ltac:(lia)) as HK.
    rewrite top_split_53.
    apply Z.lt_le_trans with (2 ^ 53 * 2 ^ (e + 1074)).
    + apply Z.mul_lt_mono_pos_r; [exact HJ|exact Hm].
    + apply Z.mul_le_mono_nonneg_l; [apply Z.pow_nonneg; lia|exact HK].
Qed.

(** A representable value rounds to itself. *)
Lemma rq_representable m e :
  bounded prec emax m e = true ->
  rq (Zpos m * 2 ^ (e + 1074)) 1 = Zpos m * 2 ^ (e + 1074).
Proof.
  intros Hb. destruct (bounded_facts m e Hb) as (He & Hc & _ & _ & Htop).
  pose proof (pow2_pos (e + 1074) ltac:(lia)) as Hp.
  rewrite <- (round_rat_rq (Zpos m) 1 e); try lia.
  - unfold round_rat. rewrite Z.div_1_r, Hc, Z.sub_diag.
    change (1 * 2 ^ 0) with 1. rewrite <- (Z.mul_1_r (Zpos m)) at 1.
    rewrite rne_div_exact by lia. lia.
  - unfold aligned. rewrite Z.div_1_r, Hc. lia.
  - replace (e + 2148) with ((e + 1074) + 1074) by lia.
    rewrite (Z.pow_add_r 2 (e + 1074) 1074) by lia. ring.
Qed.

(** The order of valid floats is the order of their values. *)
Lemma finite_compare m1 e1 m2 e2 :
  bounded prec emax m1 e1 = true -> bounded prec emax m2 e2 = true ->
  match e1 ?= e2 with
  | Lt => Lt
  | Gt => Gt
  | Eq => Pos.compare_cont Eq m1 m2
  end = (Zpos m1 * 2 ^ (e1 + 1074) ?= Zpos m2 * 2 ^ (e2 + 1074)).
Proof.
  intros H1 H2.
  destruct (bounded_facts m1 e1 H1) as (E1 & _ & U1 & L1 & _).
  destruct (bounded_facts m2 e2 H2) as (E2 & _ & U2 & L2 & _).
  pose proof (pow2_pos (e1 + 1074) ltac:(lia)) as P1.
  pose proof (pow2_pos (e2 + 1074) ltac:(lia)) as P2.
  symmetry. destruct (Z.compare_spec e1 e2) as [He|He|He].
  - subst e2. change (Pos.compare_cont Eq m1 m2) with (Zpos m1 ?= Zpos m2).
    destruct (Z.compare_spec (Zpos m1) (Zpos m2)) as [Hm|Hm|Hm].
    + rewrite Hm. apply Z.compare_refl.
    + apply Z.compare_lt_iff. apply Z.mul_lt_mono_pos_r; lia.
    + apply Z.compare_gt_iff. apply Z.mul_lt_mono_pos_r; lia.
  - apply Z.compare_lt_iff. specialize (L2 ltac:(lia)).
    replace (e2 + 1074) with ((e2 - e1) + (e1 + 1074)) by lia.
    rewrite (Z.pow_add_r 2 (e2 - e1) (e1 + 1074)) by lia.
    pose proof (pow2_le 1 (e2 - e1) ltac:(lia)) as Hq. change (2 ^ 1) with 2 in Hq.
    change (2 ^ 53) with (2 * 2 ^ 52) in U1.
    assert (Hx : Zpos m1 < Zpos m2 * 2 ^ (e2 - e1)) by nia.
    rewrite Z.mul_assoc. apply Z.mul_lt_mono_pos_r; lia.
  - apply Z.compare_gt_iff. specialize (L1 ltac:(lia)).
    replace (e1 + 1074) with ((e1 - e2) + (e2 + 1074)) by lia.
    rewrite (Z.pow_add_r 2 (e1 - e2) (e2 + 1074)) by lia.
    pose proof (pow2_le 1 (e1 - e2) ltac:(lia)) as Hq. change (2 ^ 1) with 2 in Hq.
    change (2 ^ 53) with (2 * 2 ^ 52) in U2.
    assert (Hx : Zpos m2 < Zpos m1 * 2 ^ (e1 - e2)) by nia.
    rewrite Z.mul_assoc. apply Z.mul_lt_mono_pos_r; lia.
Qed.

Lemma sval_bound x : valid_binary x = true -> - top <= sval x <= top.
Proof.
  pose proof top_pos.
  destruct x as [s|s| |s m e]; cbn [sval cond_Zopp valid_binary]; intros Hv;
    try lia; try (destruct s; cbn [cond_Zopp]; lia).
  destruct (bounded_facts m e Hv) as (He & _ & _ & _ & Ht).
  pose proof (pow2_pos (e + 1074) ltac:(lia)).
  destruct s; cbn [cond_Zopp]; lia.
Qed.

Lemma sval_finite m e :
  bounded prec emax m e = true ->
  0 < Zpos m * 2 ^ (e + 1074) < top.
Proof.
  intros Hv. destruct (bounded_facts m e Hv) as (He & _ & _ & _ & Ht).
  pose proof (pow2_pos (e + 1074) ltac:(lia)). lia.
Qed.

Lemma SFcompare_sval x y :
  valid_binary x = true -> valid_binary y = true ->
  sf_is_nan x = false -> sf_is_nan y = false ->
  SFcompare x y = Some (sval x ?= sval y).
Proof.
  pose proof top_pos as Ht.
  destruct x as [sx|sx| |sx mx ex], y as [sy|sy| |sy my ey];
    cbn [sval valid_binary sf_is_nan SFcompare]; intros Hx Hy Nx Ny;
    try discriminate; f_equal.
  - destruct sy; cbn [cond_Zopp]; symmetry;
      [apply Z.compare_gt_iff | apply Z.compare_lt_iff]; lia.
  - pose proof (sval_finite my ey Hy).
    destruct sy; cbn [cond_Zopp]; symmetry;
      [apply Z.compare_gt_iff | apply Z.compare_lt_iff]; lia.
  - destruct sx; cbn [cond_Zopp]; symmetry;
      [apply Z.compare_lt_iff | apply Z.compare_gt_iff]; lia.
  - destruct sx, sy; cbn [cond_Zopp]; symmetry;
      first [apply Z.compare_eq_iff | apply Z.compare_lt_iff | apply Z.compare_gt_iff]; lia.
  - pose proof (sval_finite my ey Hy).
    destruct sx, sy; cbn [cond_Zopp]; symmetry;
      first [apply Z.compare_lt_iff; lia | apply Z.compare_gt_iff; lia].
  - pose proof (sval_finite mx ex Hx).
    destruct sx; cbn [cond_Zopp]; symmetry;
      [apply Z.compare_lt_iff | apply Z.compare_gt_iff]; lia.
  - pose proof (sval_finite mx ex Hx).
    destruct sx, sy; cbn [cond_Zopp]; symmetry;
      first [apply Z.compare_lt_iff; lia | apply Z.compare_gt_iff; lia].
  - pose proof (sval_finite mx ex Hx). pose proof (sval_finite my ey Hy).
    pose proof (finite_compare mx ex my ey Hx Hy) as Hc.
    destruct sx, sy; cbn [cond_Zopp].
    + rewrite Z.compare_opp, <- (finite_compare my ey mx ex Hy Hx).
      rewrite (Z.compare_antisym ex ey).
      destruct (ex ?= ey); simpl; try reflexivity.
      rewrite Pos.compare_cont_antisym. reflexivity.
    + symmetry. apply Z.compare_lt_iff. lia.
    + symmetry. apply Z.compare_gt_iff. lia.
    + exact Hc.
Qed.

Lemma Zdigits2_unique m d : 0 < d -> 2 ^ (d - 1) <= m < 2 ^ d -> Zdigits2 m = d.
Proof.
  intros Hd [Hlo Hhi].
  pose proof (pow2_pos (d - 1) ltac:(lia)).
  pose proof (Zdigits2_le m d ltac:(lia) ltac:(lia) Hhi).
  pose proof (Zdigits2_gt m (d - 1) ltac:(lia) Hlo). lia.
Qed.

Lemma Zdigits2_mul_pow2 m j : 0 < m -> 0 <= j -> Zdigits2 (m * 2 ^ j) = Zdigits2 m + j.
Proof.
  intros Hm Hj. pose proof (Zdigits2_bounds m Hm) as [Hlo Hhi].
  pose proof (Zdigits2_pos m Hm). pose proof (pow2_pos j Hj).
  apply Zdigits2_unique; [lia|].
  replace (Zdigits2 m + j - 1) with ((Zdigits2 m - 1) + j) by lia.
  rewrite !Z.pow_add_r by lia. nia.
Qed.

Lemma Zdigits2_mul m1 m2 :
  0 < m1 -> 0 < m2 -> Zdigits2 m1 + Zdigits2 m2 - 1 <= Zdigits2 (m1 * m2).
Proof.
  intros H1 H2.
  pose proof (Zdigits2_bounds m1 H1) as [L1 _].
  pose proof (Zdigits2_bounds m2 H2) as [L2 _].
  pose proof (Zdigits2_pos m1 H1). pose proof (Zdigits2_pos m2 H2).
  pose proof (pow2_pos (Zdigits2 m1 - 1) ltac:(lia)).
  pose proof (pow2_pos (Zdigits2 m2 - 1) ltac:(lia)).
  assert (2 ^ (Zdigits2 m1 + Zdigits2 m2 - 2) <= m1 * m2).
  { replace (Zdigits2 m1 + Zdigits2 m2 - 2) with ((Zdigits2 m1 - 1) + (Zdigits2 m2 - 1)) by lia.
    rewrite Z.pow_add_r by lia. nia. }
  pose proof (Zdigits2_gt (m1 * m2) (Zdigits2 m1 + Zdigits2 m2 - 2) ltac:(lia) ltac:(assumption)).
  lia.
Qed.

(** An exact input rounds as its value does. *)
Lemma round_exact s m e :
  0 <= m -> e <= fexp prec emax (Zdigits2 m + e) ->
  rounds_to s (round_rat m 1 e) (binary_round_aux prec emax s m e loc_Exact).
Proof.
  intros Hm Hal. pose proof (binary_round_aux_spec s m e loc_Exact Hm Hal) as H.
  cbv zeta in H. unfold round_rat. rewrite Z.div_1_r.
  set (E := fexp prec emax (Zdigits2 m + e)) in *.
  pose proof (pow2_pos (E - e) ltac:(lia)).
  cbn [loc_code] in H. rewrite Z.add_0_r in H.
  replace (4 * m) with (m * 4) in H by lia.
  replace (4 * 2 ^ (E - e)) with (2 ^ (E - e) * 4) in H by lia.
  rewrite rne_div_scale in H by lia.
  rewrite Z.mul_1_l. exact H.
Qed.

(** *** Multiplication *)

Lemma SFmul_finite s1 m1 e1 s2 m2 e2 :
  bounded prec emax m1 e1 = true -> bounded prec emax m2 e2 = true ->
  exists V, 0 <= V /\
    rounds_to (xorb s1 s2) V
      (SFmul prec emax (S754_finite s1 m1 e1) (S754_finite s2 m2 e2)) /\
    Z.min V top
    = rq (Zpos m1 * 2 ^ (e1 + 1074) * (Zpos m2 * 2 ^ (e2 + 1074))) (2 ^ 1074).
Proof.
  intros H1 H2. cbn [SFmul].
  destruct (bounded_facts m1 e1 H1) as (E1 & C1 & _).
  destruct (bounded_facts m2 e2 H2) as (E2 & C2 & _).
  rewrite fexp_eq in C1, C2.
  pose proof (Zdigits2_mul (Zpos m1) (Zpos m2) ltac:(lia) ltac:(lia)) as Hd.
  pose proof (Zdigits2_pos (Zpos m1) ltac:(lia)).
  pose proof (Zdigits2_pos (Zpos m2) ltac:(lia)).
  rewrite Pos2Z.inj_mul.
  assert (Hal : e1 + e2 <= fexp prec emax (Zdigits2 (Zpos m1 * Zpos m2) + (e1 + e2))).
  { rewrite fexp_eq.
    set (d1 := Zdigits2 (Zpos m1)) in *. set (d2 := Zdigits2 (Zpos m2)) in *.
    set (d := Zdigits2 (Zpos m1 * Zpos m2)) in *. clearbody d1 d2 d. lia. }
  exists (round_rat (Zpos m1 * Zpos m2) 1 (e1 + e2)).
  assert (Hal' : aligned (Zpos m1 * Zpos m2) 1 (e1 + e2)).
  { unfold aligned. rewrite Z.div_1_r. exact Hal. }
  split; [apply round_rat_nonneg; [lia|lia|exact Hal']|].
  split; [apply round_exact; [lia|exact Hal]|].
  pose proof (pow2_pos (e1 + 1074) ltac:(lia)). pose proof (pow2_pos (e2 + 1074) ltac:(lia)).
  apply round_rat_rq.
  - lia.
  - lia.
  - exact Hal'.
  - reflexivity.
  - apply Z.mul_nonneg_nonneg; lia.
  - lia.
  - replace (e1 + e2 + 2148) with ((e1 + 1074) + (e2 + 1074)) by lia.
    rewrite (Z.pow_add_r 2 (e1 + 1074) (e2 + 1074)) by lia. ring.
Qed.

(** *** Division *)

Lemma SFdiv_core_binary_eq m1 e1 m2 e2 :
  0 < m2 ->
  let e' := Z.min (fexp prec emax (Zdigits2 m1 + e1 - (Zdigits2 m2 + e2))) (e1 - e2) in
  let n := m1 * 2 ^ (e1 - e2 - e') in
  SFdiv_core_binary prec emax m1 e1 m2 e2 = (n / m2, e', new_location m2 (n mod m2)).
Proof.
  intros Hm2 e' n. unfold SFdiv_core_binary. fold e'.
  set (s := e1 - e2 - e') in *.
  assert (Hs : 0 <= s) by (unfold s, e'; lia).
  assert (Hm' : match s with Zpos _ => Z.shiftl m1 s | Z0 => m1 | Zneg _ => 0 end = n).
  { unfold n. destruct s as [|p|p]; [change (2 ^ 0) with 1; lia| |lia].
    rewrite Z.shiftl_mul_pow2 by lia. reflexivity. }
  rewrite Hm'. unfold Z.div, Z.modulo.
  destruct (Z.div_eucl n m2) as [q r]. reflexivity.
Qed.

Lemma div_core_spec s m1 e1 m2 e2 :
  0 < m1 -> 0 < m2 -> -1074 <= e1 -> -1074 <= e2 <= 1074 ->
  let '(q, e', l) := SFdiv_core_binary prec emax m1 e1 m2 e2 in
  exists V, 0 <= V /\
    rounds_to s V (binary_round_aux prec emax s q e' l) /\
    Z.min V top = rq (m1 * 2 ^ (e1 + 1074) * 2 ^ 1074) (m2 * 2 ^ (e2 + 1074)).
Proof.
  intros Hm1 Hm2 He1 He2.
  rewrite SFdiv_core_binary_eq by assumption. cbv zeta.
  set (g0 := Zdigits2 m1 + e1 - (Zdigits2 m2 + e2)).
  set (e' := Z.min (fexp prec emax g0) (e1 - e2)).
  set (n := m1 * 2 ^ (e1 - e2 - e')).
  assert (Hs : 0 <= e1 - e2 - e') by (unfold e'; lia).
  pose proof (pow2_pos (e1 - e2 - e') Hs) as Hps.
  assert (Hn : 0 < n) by (unfold n; nia).
  destruct (quot_bounds n m2 Hm2 ltac:(lia)) as (Hq & _ & _).
  pose proof (Z.mod_pos_bound n m2 Hm2) as Hr.
  assert (Hal : e' <= fexp prec emax (Zdigits2 (n / m2) + e')).
  { destruct (Z_le_gt_dec e' (-1074)) as [|Hgt].
    - pose proof (fexp_ge (Zdigits2 (n / m2) + e')). lia.
    - assert (Hg0 : e' <= g0 - 53).
      { pose proof (fexp_eq g0) as Hf. unfold e' in *. lia. }
      pose proof (Zdigits2_bounds m1 Hm1) as [L1 _].
      pose proof (Zdigits2_bounds m2 Hm2) as [_ U2].
      pose proof (Zdigits2_pos m1 Hm1). pose proof (Zdigits2_pos m2 Hm2).
      assert (Hge : 2 ^ (g0 - 1 - e') <= n / m2).
      { apply Z.div_le_lower_bound; [lia|].
        assert (2 ^ (g0 - 1 - e') * 2 ^ Zdigits2 m2 = 2 ^ (Zdigits2 m1 - 1) * 2 ^ (e1 - e2 - e')).
        { rewrite <- !Z.pow_add_r by lia. f_equal. unfold g0. lia. }
        pose proof (pow2_pos (g0 - 1 - e') ltac:(lia)).
        unfold n. nia. }
      pose proof (Zdigits2_gt (n / m2) (g0 - 1 - e') ltac:(lia) Hge).
      pose proof (fexp_mono g0 (Zdigits2 (n / m2) + e') ltac:(lia)).
      assert (e' <= fexp prec emax g0) by (unfold e'; lia).
      lia. }
  pose proof (binary_round_aux_spec s (n / m2) e' (new_location m2 (n mod m2)) Hq Hal) as H.
  cbv zeta in H. rewrite new_location_code in H by lia.
  set (E := fexp prec emax (Zdigits2 (n / m2) + e')) in *.
  rewrite quotient_rne in H by lia.
  exists (round_rat n m2 e').
  assert (Hal' : aligned n m2 e') by exact Hal.
  split; [apply round_rat_nonneg; [lia|lia|exact Hal']|].
  split; [exact H|].
  pose proof (pow2_pos (e1 + 1074) ltac:(lia)). pose proof (pow2_pos (e2 + 1074) ltac:(lia)).
  assert (He' : -2148 <= e').
  { unfold e'. pose proof (fexp_ge g0). lia. }
  apply round_rat_rq.
  - lia.
  - lia.
  - exact Hal'.
  - apply Z.mul_pos_pos; lia.
  - apply Z.mul_nonneg_nonneg; [apply Z.mul_nonneg_nonneg; lia|apply Z.pow_nonneg; lia].
  - lia.
  - unfold n.
    assert (Hpw : 2 ^ (e1 - e2 - e') * 2 ^ (e' + 2148) * 2 ^ (e2 + 1074)
                  = 2 ^ (e1 + 1074) * 2 ^ 1074 * 2 ^ 1074).
    { rewrite <- !Z.pow_add_r by lia. f_equal. lia. }
    transitivity (m1 * m2 * (2 ^ (e1 - e2 - e') * 2 ^ (e' + 2148) * 2 ^ (e2 + 1074))); [ring|].
    rewrite Hpw. ring.
Qed.

Lemma SFdiv_finite s1 m1 e1 s2 m2 e2 :
  bounded prec emax m1 e1 = true -> bounded prec emax m2 e2 = true ->
  exists V, 0 <= V /\
    rounds_to (xorb s1 s2) V
      (SFdiv prec emax (S754_finite s1 m1 e1) (S754_finite s2 m2 e2)) /\
    Z.min V top
    = rq (Zpos m1 * 2 ^ (e1 + 1074) * 2 ^ 1074) (Zpos m2 * 2 ^ (e2 + 1074)).
Proof.
  intros H1 H2. cbn [SFdiv].
  destruct (bounded_facts m1 e1 H1) as (E1 & _).
  destruct (bounded_facts m2 e2 H2) as (E2 & _).
  pose proof (div_core_spec (xorb s1 s2) (Zpos m1) e1 (Zpos m2) e2
                ltac:(lia) ltac:(lia) ltac:(lia) ltac:(lia)) as H.
  destruct (SFdiv_core_binary prec emax (Zpos m1) e1 (Zpos m2) e2) as [[q e'] l].
  exact H.
Qed.

(** *** Conversion from integers *)

Lemma iter_xO m d : Zpos (Pos.iter xO m d) = Zpos m * 2 ^ Zpos d.
Proof.
  induction d as [|d IH] using Pos.peano_ind.
  - cbn [Pos.iter]. rewrite Pos2Z.inj_xO. change (2 ^ 1) with 2. lia.
  - rewrite Pos.iter_succ, Pos2Z.inj_xO, IH, Pos2Z.inj_succ, Z.pow_succ_r by lia. ring.
Qed.

Lemma binary_round_spec s m e :
  -1074 <= e ->
  exists V, 0 <= V /\
    rounds_to s V (binary_round prec emax s m e) /\
    Z.min V top = rq (Zpos m * 2 ^ (e + 1074)) 1.
Proof.
  intros He. unfold binary_round, shl_align.
  change (Zpos (digits2_pos m)) with (Zdigits2 (Zpos m)).
  set (E := fexp prec emax (Zdigits2 (Zpos m) + e)).
  pose proof (pow2_pos (e + 1074) ltac:(lia)).
  assert (Hnoshift : e <= E ->
    exists V, 0 <= V /\
      rounds_to s V (binary_round_aux prec emax s (Zpos m) e loc_Exact) /\
      Z.min V top = rq (Zpos m * 2 ^ (e + 1074)) 1).
  { intros Hal. exists (round_rat (Zpos m) 1 e).
    assert (Hal' : aligned (Zpos m) 1 e) by (unfold aligned; rewrite Z.div_1_r; exact Hal).
    split; [apply round_rat_nonneg; [lia|lia|exact Hal']|].
    split; [apply round_exact; [lia|exact Hal]|].
    apply round_rat_rq; try lia; try exact Hal'.
    replace (e + 2148) with ((e + 1074) + 1074) by lia.
    rewrite (Z.pow_add_r 2 (e + 1074) 1074) by lia. ring. }
  destruct (E - e) as [|p|p] eqn:Hd; [apply Hnoshift; lia | apply Hnoshift; lia |].
  rewrite iter_xO.
  assert (HE : E = e - Zpos p) by lia.
  assert (HE0 : -1074 <= E) by apply fexp_ge.
  pose proof (pow2_pos (Zpos p) ltac:(lia)) as Hpp.
  assert (Hdig : Zdigits2 (Zpos m * 2 ^ Zpos p) + E = Zdigits2 (Zpos m) + e).
  { rewrite Zdigits2_mul_pow2 by lia. lia. }
  assert (Hal : E <= fexp prec emax (Zdigits2 (Zpos m * 2 ^ Zpos p) + E)).
  { rewrite Hdig. fold E. lia. }
  assert (Hal' : aligned (Zpos m * 2 ^ Zpos p) 1 E).
  { unfold aligned. rewrite Z.div_1_r. exact Hal. }
  assert (Hnn : 0 <= Zpos m * 2 ^ Zpos p) by (apply Z.mul_nonneg_nonneg; lia).
  exists (round_rat (Zpos m * 2 ^ Zpos p) 1 E).
  split; [apply round_rat_nonneg; [lia|exact Hnn|exact Hal']|].
  split; [apply round_exact; [exact Hnn|exact Hal]|].
  apply round_rat_rq; try lia; try exact Hal'.
  assert (Hpw : 2 ^ Zpos p * 2 ^ (E + 2148) = 2 ^ (e + 1074) * 2 ^ 1074).
  { rewrite <- !Z.pow_add_r by lia. f_equal. lia. }
  transitivity (Zpos m * (2 ^ Zpos p * 2 ^ (E + 2148))); [ring|].
  rewrite Hpw. ring.
Qed.

Lemma rq_zero d : 0 < d -> rq 0 d = 0.
Proof.
  intros Hd. unfold rq, round_rat.
  rewrite Z.div_0_l by lia. change (Zdigits2 0) with 0.
  set (E := fexp prec emax (0 + -1074)).
  assert (HE : E = -1074) by reflexivity.
  rewrite rne_div_small.
  - rewrite Z.mul_0_l. apply Z.min_l. pose proof top_pos. lia.
  - rewrite HE. change (2 ^ (-1074 - -1074)) with 1. lia.
  - lia.
  - rewrite HE. change (2 ^ (-1074 - -1074)) with 1. lia.
Qed.

Lemma srq_mono n1 d1 n2 d2 :
  0 < d1 -> 0 < d2 -> n1 * d2 <= n2 * d1 -> srq n1 d1 <= srq n2 d2.
Proof.
  intros H1 H2 Hle. unfold srq.
  destruct (Z.ltb_spec n1 0), (Z.ltb_spec n2 0).
  - apply Z.opp_le_mono. rewrite !Z.opp_involutive. apply rq_mono; lia.
  - pose proof (rq_range (- n1) d1 H1 ltac:(lia)).
    pose proof (rq_range n2 d2 H2 ltac:(lia)). lia.
  - exfalso. nia.
  - apply rq_mono; lia.
Qed.

Lemma srq_range n d : 0 < d -> - top <= srq n d <= top.
Proof.
  intros Hd. unfold srq. destruct (Z.ltb_spec n 0).
  - pose proof (rq_range (- n) d Hd ltac:(lia)). lia.
  - pose proof (rq_range n d Hd ltac:(lia)). lia.
Qed.

Lemma srq_zero d : 0 < d -> srq 0 d = 0.
Proof. intros. unfold srq. cbn. apply rq_zero. assumption. Qed.

Lemma rq_top : rq top 1 = top.
Proof. vm_compute. reflexivity. Qed.

(** A value that is representable rounds to itself. *)
Lemma srq_representable x :
  valid_binary x = true -> sf_is_nan x = false -> srq (sval x) 1 = sval x.
Proof.
  intros Hv Hn. destruct x as [s|s| |s m e]; try discriminate;
    cbn [sval valid_binary] in *.
  - apply srq_zero. lia.
  - pose proof rq_top as Ht.
    pose proof top_pos.
    unfold srq. destruct s; cbn [cond_Zopp].
    + destruct (Z.ltb_spec (- top) 0); [|lia]. rewrite Z.opp_involutive, Ht. reflexivity.
    + destruct (Z.ltb_spec top 0); [lia|]. exact Ht.
  - pose proof (sval_finite m e Hv). pose proof (rq_representable m e Hv) as Hr.
    unfold srq. destruct s; cbn [cond_Zopp].
    + destruct (Z.ltb_spec (- (Zpos m * 2 ^ (e + 1074))) 0); [|lia].
      rewrite Z.opp_involutive, Hr. reflexivity.
    + destruct (Z.ltb_spec (Zpos m * 2 ^ (e + 1074)) 0); [lia|]. exact Hr.
Qed.

Lemma is_finite_sval x :
  valid_binary x = true -> sf_is_nan x = false ->
  sf_is_finite x = true <-> Z.abs (sval x) < top.
Proof.
  pose proof top_pos.
  intros Hv Hn. destruct x as [s|s| |s m e]; try discriminate;
    cbn [sval valid_binary sf_is_finite] in *.
  - split; [lia|reflexivity].
  - split; [discriminate|]. destruct s; cbn [cond_Zopp]; lia.
  - pose proof (sval_finite m e Hv). split; [|reflexivity].
    intros _. destruct s; cbn [cond_Zopp]; lia.
Qed.

(** A rounded result, with its sign. *)
Lemma rounds_to_signed s V x a :
  0 <= V -> rounds_to s V x -> Z.min V top = a ->
  valid_binary x = true /\ sf_is_nan x = false /\ sval x = cond_Zopp s a.
Proof.
  intros HV Hr <-. split; [exact (rounds_to_valid _ _ _ Hr)|].
  split; [|exact (rounds_to_sval _ _ _ HV Hr)].
  destruct Hr as [[-> _]|[(m' & e' & -> & _)|[-> _]]]; reflexivity.
Qed.

Lemma cond_Zopp_srq s1 s2 a b d :
  0 < a -> 0 < b -> 0 < d ->
  cond_Zopp (xorb s1 s2) (rq (a * b) d) = srq (cond_Zopp s1 a * cond_Zopp s2 b) d.
Proof.
  intros Ha Hb Hd. unfold srq.
  destruct s1, s2; cbn [xorb cond_Zopp].
  - destruct (Z.ltb_spec (- a * - b) 0); [nia|]. f_equal. lia.
  - destruct (Z.ltb_spec (- a * b) 0); [|nia]. do 2 f_equal. lia.
  - destruct (Z.ltb_spec (a * - b) 0); [|nia]. do 2 f_equal. lia.
  - destruct (Z.ltb_spec (a * b) 0); [nia|]. reflexivity.
Qed.

(** *** The operations on valid finite floats, by value *)

Lemma SFmul_sval x y :
  valid_binary x = true -> valid_binary y = true ->
  sf_is_finite x = true -> sf_is_finite y = true ->
  let z := SFmul prec emax x y in
  valid_binary z = true /\ sf_is_nan z = false /\
  sval z = srq (sval x * sval y) (2 ^ 1074).
Proof.
  intros Hx Hy Fx Fy.
  assert (Hp : 0 < 2 ^ 1074) by reflexivity.
  destruct x as [sx|sx| |sx mx ex]; try discriminate;
    destruct y as [sy|sy| |sy my ey]; try discriminate;
    cbn [SFmul sval valid_binary sf_is_nan] in *; cbv zeta;
    try (rewrite ?Z.mul_0_l, ?Z.mul_0_r, srq_zero by assumption; auto).
  destruct (SFmul_finite sx mx ex sy my ey Hx Hy) as (V & HV & Hr & Hm).
  cbn [SFmul] in Hr.
  destruct (rounds_to_signed _ _ _ _ HV Hr Hm) as (R1 & R2 & R3).
  pose proof (sval_finite mx ex Hx). pose proof (sval_finite my ey Hy).
  repeat split; try assumption.
  rewrite R3. apply cond_Zopp_srq; lia.
Qed.

Lemma SFdiv_sval x y :
  valid_binary x = true -> valid_binary y = true ->
  sf_is_finite x = true -> sf_is_finite y = true -> 0 < sval y ->
  let z := SFdiv prec emax x y in
  valid_binary z = true /\ sf_is_nan z = false /\
  sval z = srq (sval x * 2 ^ 1074) (sval y).
Proof.
  intros Hx Hy Fx Fy Hpos.
  assert (Hp : 0 < 2 ^ 1074) by reflexivity.
  destruct y as [sy|sy| |sy my ey]; try discriminate; cbn [sval] in Hpos; try lia.
  pose proof (sval_finite my ey Hy) as Hvy.
  destruct sy; cbn [cond_Zopp] in Hpos; [lia|].
  destruct x as [sx|sx| |sx mx ex]; try discriminate;
    cbn [SFdiv sval valid_binary sf_is_nan cond_Zopp] in *; cbv zeta.
  - rewrite Z.mul_0_l, srq_zero by lia. auto.
  - destruct (SFdiv_finite sx mx ex false my ey Hx Hy) as (V & HV & Hr & Hm).
    cbn [SFdiv] in Hr.
    destruct (rounds_to_signed _ _ _ _ HV Hr Hm) as (R1 & R2 & R3).
    pose proof (sval_finite mx ex Hx).
    repeat split; try assumption.
    rewrite R3, xorb_false_r. unfold srq.
    destruct sx; cbn [cond_Zopp].
    + destruct (Z.ltb_spec (- (Zpos mx * 2 ^ (ex + 1074)) * 2 ^ 1074) 0); [|nia].
      do 2 f_equal. lia.
    + destruct (Z.ltb_spec (Zpos mx * 2 ^ (ex + 1074) * 2 ^ 1074) 0); [nia|]. reflexivity.
Qed.

Lemma binary_normalize_sval z :
  let x := binary_normalize prec emax z 0 false in
  valid_binary x = true /\ sf_is_nan x = false /\
  sval x = srq (z * 2 ^ 1074) 1.
Proof.
  assert (Hp : 0 < 2 ^ 1074) by reflexivity.
  destruct z as [|p|p]; cbn [binary_normalize]; cbv zeta.
  - rewrite Z.mul_0_l, srq_zero by lia. auto.
  - destruct (binary_round_spec false p 0 ltac:(lia)) as (V & HV & Hr & Hm).
    change (0 + 1074) with 1074 in Hm.
    destruct (rounds_to_signed _ _ _ _ HV Hr Hm) as (R1 & R2 & R3).
    split; [exact R1|]. split; [exact R2|]. rewrite R3. cbn [cond_Zopp].
    unfold srq. destruct (Z.ltb_spec (Zpos p * 2 ^ 1074) 0); [lia|]. reflexivity.
  - destruct (binary_round_spec true p 0 ltac:(lia)) as (V & HV & Hr & Hm).
    change (0 + 1074) with 1074 in Hm.
    destruct (rounds_to_signed _ _ _ _ HV Hr Hm) as (R1 & R2 & R3).
    split; [exact R1|]. split; [exact R2|]. rewrite R3. cbn [cond_Zopp].
    unfold srq. destruct (Z.ltb_spec (Zneg p * 2 ^ 1074) 0); [|lia].
    do 2 f_equal; lia.
Qed.

End Binary64Facts.

(** * Facts about the Python runtime fragment *)

Module PyFacts.
Import Py Binary64 Binary64Facts.

Lemma pow1074_pos : 0 < 2 ^ 1074.
Proof. reflexivity. Qed.

(** ** [round] *)

Lemma nearest_even_val m e :
  bounded prec emax m e = true ->
  nearest_even m e = rne_div (Zpos m * 2 ^ (e + 1074)) (2 ^ 1074).
Proof.
  intros Hb. destruct (bounded_facts m e Hb) as (He & _).
  pose proof pow1074_pos as Hp.
  unfold nearest_even. destruct (Z.leb_spec 0 e) as [H0|H0].
  - rewrite (Z.pow_add_r 2 e 1074) by lia.
    rewrite Z.mul_assoc, rne_div_exact by lia. reflexivity.
  - pose proof (pow2_pos (e + 1074) ltac:(lia)) as Hq.
    rewrite <- (rne_div_scale (Zpos m) (2 ^ (- e)) (2 ^ (e + 1074)))
      by (try apply pow2_pos; lia).
    rewrite <- (Z.pow_add_r 2 (- e) (e + 1074)) by lia.
    replace (- e + (e + 1074)) with 1074 by lia. reflexivity.
Qed.

Lemma round_val_nonneg v : 0 <= v -> round_val v = rne_div v (2 ^ 1074).
Proof. intros. unfold round_val. destruct (Z.ltb_spec v 0); [lia|reflexivity]. Qed.

Lemma round_val_neg v : v < 0 -> round_val v = - rne_div (- v) (2 ^ 1074).
Proof. intros. unfold round_val. destruct (Z.ltb_spec v 0); [reflexivity|lia]. Qed.

Lemma round_val_mono v1 v2 : v1 <= v2 -> round_val v1 <= round_val v2.
Proof.
  intros Hle. pose proof pow1074_pos as Hp. unfold round_val.
  destruct (Z.ltb_spec v1 0), (Z.ltb_spec v2 0); try lia.
  - apply Z.opp_le_mono. rewrite !Z.opp_involutive. apply rne_div_mono; nia.
  - pose proof (rne_div_ge (- v1) (2 ^ 1074) 0 Hp ltac:(lia)).
    pose proof (rne_div_ge v2 (2 ^ 1074) 0 Hp ltac:(lia)). lia.
  - apply rne_div_mono; nia.
Qed.

Lemma round_val_exact z : round_val (z * 2 ^ 1074) = z.
Proof.
  pose proof pow1074_pos as Hp. unfold round_val.
  destruct (Z.ltb_spec (z * 2 ^ 1074) 0).
  - rewrite <- Z.mul_opp_l, rne_div_exact by lia. lia.
  - apply rne_div_exact. lia.
Qed.

Lemma py_round_finite f :
  sf_is_finite (Prim2SF f) = true -> py_round f = Return (round_val (fval f)).
Proof.
  unfold py_round, fval. pose proof (Prim2SF_valid f) as Hv.
  destruct (Prim2SF f) as [s|s| |s m e]; try discriminate; intros _; cbn [sval].
  - pose proof (round_val_exact 0) as H0. rewrite Z.mul_0_l in H0. rewrite H0. reflexivity.
  - cbn [valid_binary] in Hv. pose proof (sval_finite m e Hv).
    rewrite (nearest_even_val m e Hv). f_equal.
    destruct s; cbn [cond_Zopp].
    + rewrite round_val_neg by lia. rewrite Z.opp_involutive. reflexivity.
    + rewrite round_val_nonneg by lia. reflexivity.
Qed.

Lemma py_round_not_finite f :
  sf_is_finite (Prim2SF f) = false -> exists e, py_round f = Raise e.
Proof.
  unfold py_round. destruct (Prim2SF f); try discriminate; intros _; eauto.
Qed.

(** ** Comparisons *)

Lemma compare_scale a b c : 0 < c -> (a * c ?= b * c) = (a ?= b).
Proof.
  intros Hc. destruct (Z.compare_spec a b) as [->|H|H].
  - apply Z.compare_refl.
  - apply Z.compare_lt_iff. nia.
  - apply Z.compare_gt_iff. nia.
Qed.

Lemma float_cmp_Z_spec f z :
  sf_is_finite (Prim2SF f) = true ->
  float_cmp_Z f z = Some (fval f ?= z * 2 ^ 1074).
Proof.
  unfold float_cmp_Z, fval. pose proof (Prim2SF_valid f) as Hv.
  pose proof pow1074_pos as Hp.
  destruct (Prim2SF f) as [s|s| |s m e]; try discriminate; intros _; cbn [sval]; f_equal.
  - rewrite <- (compare_scale 0 z (2 ^ 1074)) by lia. reflexivity.
  - cbn [valid_binary] in Hv. destruct (bounded_facts m e Hv) as (He & _).
    cbv zeta. destruct (Z.leb_spec 0 e) as [H0|H0].
    + rewrite <- (compare_scale _ z (2 ^ 1074)) by lia. f_equal.
      rewrite (Z.pow_add_r 2 e 1074) by lia. destruct s; cbn [cond_Zopp]; ring.
    + pose proof (pow2_pos (e + 1074) ltac:(lia)) as Hq.
      rewrite <- (compare_scale _ _ (2 ^ (e + 1074))) by lia. f_equal.
      * destruct s; cbn [cond_Zopp]; ring.
      * rewrite <- Z.mul_assoc, <- (Z.pow_add_r 2 (- e) (e + 1074)) by lia.
        replace (- e + (e + 1074)) with 1074 by lia. reflexivity.
Qed.

Lemma finite_not_nan x : sf_is_finite x = true -> sf_is_nan x = false.
Proof. destruct x; try discriminate; reflexivity. Qed.

Lemma num_cmp_spec x y :
  num_finite x = true -> num_finite y = true ->
  num_cmp x y = Some (nval x ?= nval y).
Proof.
  pose proof pow1074_pos as Hp.
  destruct x as [a|f], y as [b|g]; cbn [num_finite num_cmp nval]; intros Hx Hy.
  - rewrite compare_scale by lia. reflexivity.
  - rewrite (float_cmp_Z_spec g a Hy). cbn [option_map]. f_equal.
    symmetry. apply Z.compare_antisym.
  - apply float_cmp_Z_spec. assumption.
  - unfold fval. apply SFcompare_sval; auto using Prim2SF_valid, finite_not_nan.
Qed.

Lemma num_leb_spec x y :
  num_finite x = true -> num_finite y = true ->
  num_leb x y = (nval x <=? nval y).
Proof.
  intros Hx Hy. unfold num_leb. rewrite (num_cmp_spec x y Hx Hy).
  unfold Z.leb. destruct (nval x ?= nval y); reflexivity.
Qed.

Lemma num_ltb_spec x y :
  num_finite x = true -> num_finite y = true ->
  num_ltb x y = (nval x <? nval y).
Proof.
  intros Hx Hy. unfold num_ltb. rewrite (num_cmp_spec x y Hx Hy).
  unfold Z.ltb. destruct (nval x ?= nval y); reflexivity.
Qed.

(** ** Arithmetic on primitive floats *)

Lemma fval_finite f : sf_is_finite (Prim2SF f) = true -> Z.abs (fval f) < top.
Proof.
  intros H. apply is_finite_sval; auto using Prim2SF_valid, finite_not_nan.
Qed.

Lemma finite_of_fval f :
  sf_is_nan (Prim2SF f) = false -> Z.abs (fval f) < top ->
  sf_is_finite (Prim2SF f) = true.
Proof.
  intros Hn Hlt. apply is_finite_sval; auto using Prim2SF_valid.
Qed.

Lemma mul_fval a b :
  sf_is_finite (Prim2SF a) = true -> sf_is_finite (Prim2SF b) = true ->
  sf_is_nan (Prim2SF (a * b)) = false /\
  fval (a * b) = srq (fval a * fval b) (2 ^ 1074).
Proof.
  intros Ha Hb. unfold fval. rewrite mul_spec.
  destruct (SFmul_sval (Prim2SF a) (Prim2SF b) (Prim2SF_valid a) (Prim2SF_valid b) Ha Hb)
    as (_ & H2 & H3).
  split; assumption.
Qed.

Lemma div_fval a b :
  sf_is_finite (Prim2SF a) = true -> sf_is_finite (Prim2SF b) = true ->
  0 < fval b ->
  sf_is_nan (Prim2SF (a / b)) = false /\
  fval (a / b) = srq (fval a * 2 ^ 1074) (fval b).
Proof.
  intros Ha Hb Hpos. unfold fval. rewrite div_spec.
  destruct (SFdiv_sval (Prim2SF a) (Prim2SF b) (Prim2SF_valid a) (Prim2SF_valid b) Ha Hb Hpos)
    as (_ & H2 & H3).
  split; assumption.
Qed.

Lemma finite_of_sval x :
  valid_binary x = true -> sf_is_nan x = false -> Z.abs (sval x) < top ->
  sf_is_finite x = true.
Proof. intros Hv Hn Hlt. apply is_finite_sval; assumption. Qed.

(** [float(z)]: the rounded value, or [OverflowError]. *)
Lemma float_of_int_spec z :
  let v := srq (z * 2 ^ 1074) 1 in
  if Z.abs v <? top
  then exists f, float_of_int z = Return f /\
         sf_is_finite (Prim2SF f) = true /\ fval f = v
  else float_of_int z = Raise OverflowError.
Proof.
  cbv zeta. destruct (binary_normalize_sval z) as (Hv & Hn & Hs). cbv zeta in *.
  unfold float_of_int. rewrite <- Hs.
  pose proof top_pos.
  destruct (binary_normalize prec emax z 0 false) as [s|s| |s m e] eqn:Hb;
    try discriminate; cbn [sval].
  - change (Z.abs 0 <? top) with true. cbv iota.
    exists (SF2Prim (S754_zero s)). split; [reflexivity|].
    unfold fval. rewrite Prim2SF_SF2Prim by assumption. auto.
  - destruct (Z.ltb_spec (Z.abs (cond_Zopp s top)) top) as [Hlt|_]; [|reflexivity].
    destruct s; cbn [cond_Zopp] in Hlt; lia.
  - cbn [valid_binary] in Hv. pose proof (sval_finite m e Hv).
    destruct (Z.ltb_spec (Z.abs (cond_Zopp s (Zpos m * 2 ^ (e + 1074)))) top) as [_|Hge].
    + exists (SF2Prim (S754_finite s m e)). split; [reflexivity|].
      unfold fval. rewrite Prim2SF_SF2Prim by assumption. auto.
    + destruct s; cbn [cond_Zopp] in Hge; lia.
Qed.

Lemma fval_25 : fval 25 = 25 * 2 ^ 1074.
Proof. vm_compute. reflexivity. Qed.

Lemma fval_100 : fval 100 = 100 * 2 ^ 1074.
Proof. vm_compute. reflexivity. Qed.

Lemma finite_25 : sf_is_finite (Prim2SF 25) = true.
Proof. vm_compute. reflexivity. Qed.

Lemma finite_100 : sf_is_finite (Prim2SF 100) = true.
Proof. vm_compute. reflexivity. Qed.

(** A float that is not finite is NaN or an infinity. *)
Lemma not_finite_cases f :
  sf_is_finite (Prim2SF f) = false -> f = nan \/ f = infinity \/ f = neg_infinity.
Proof.
  intros H. rewrite <- (SF2Prim_Prim2SF f).
  destruct (Prim2SF f) as [s|s| |s m e]; try discriminate.
  - destruct s; cbn [SF2Prim]; auto.
  - cbn [SF2Prim]. auto.
Qed.

End PyFacts.

(** * Facts about [compute_vacation_total] on numbers *)

Module VacationFacts.
Import Py Utils Binary64 Binary64Facts PyFacts.

Lemma bind_return {A} (c : result A) : bind c Return = c.
Proof. destruct c; reflexivity. Qed.

Lemma py_round_value f :
  sf_is_nan (Prim2SF f) = false ->
  py_round f = if Z.abs (fval f) <? top then Return (round_val (fval f))
               else Raise OverflowError.
Proof.
  intros Hn. destruct (Z.ltb_spec (Z.abs (fval f)) top) as [Hlt|Hge].
  - apply py_round_finite, finite_of_fval; assumption.
  - unfold py_round, fval in *. pose proof (Prim2SF_valid f) as Hv.
    destruct (Prim2SF f) as [s|s| |s m e]; try discriminate; cbn [sval] in Hge.
    + pose proof top_pos. cbn in Hge. lia.
    + reflexivity.
    + cbn [valid_binary] in Hv. pose proof (sval_finite m e Hv).
      destruct s; cbn [cond_Zopp] in Hge; lia.
Qed.

(** Dividing a finite float by 100 cannot overflow. *)
Lemma hundredth_bound c :
  Z.abs c < top -> srq c 1 = c ->
  Z.abs (srq (c * 2 ^ 1074) (100 * 2 ^ 1074)) < top.
Proof.
  intros Hc Hr. pose proof pow1074_pos as Hp.
  assert (H0 : srq (0 * 2 ^ 1074) (100 * 2 ^ 1074) = 0) by (rewrite Z.mul_0_l; apply srq_zero; lia).
  destruct (Z_lt_le_dec c 0) as [Hneg|Hpos].
  - pose proof (srq_mono c 1 (c * 2 ^ 1074) (100 * 2 ^ 1074) ltac:(lia) ltac:(lia) ltac:(nia)) as H1.
    pose proof (srq_mono (c * 2 ^ 1074) (100 * 2 ^ 1074) (0 * 2 ^ 1074) (100 * 2 ^ 1074)
                  ltac:(lia) ltac:(lia) ltac:(nia)) as H2.
    rewrite Hr in H1. rewrite H0 in H2. lia.
  - pose proof (srq_mono (c * 2 ^ 1074) (100 * 2 ^ 1074) c 1 ltac:(lia) ltac:(lia) ltac:(nia)) as H1.
    pose proof (srq_mono (0 * 2 ^ 1074) (100 * 2 ^ 1074) (c * 2 ^ 1074) (100 * 2 ^ 1074)
                  ltac:(lia) ltac:(lia) ltac:(nia)) as H2.
    rewrite Hr in H1. rewrite H0 in H2. lia.
Qed.

(** The tail of [compute_vacation_total] once the argument is a finite
    float [f0]: the optional division by 100, the multiplication by 25
    and the rounding. *)
Lemma vacation_tail (above : bool) f0 :
  sf_is_finite (Prim2SF f0) = true ->
  let frac := if above then (f0 / 100)%float else f0 in
  let T := srq (25 * 2 ^ 1074 *
                (if above then srq (fval f0 * 2 ^ 1074) (100 * 2 ^ 1074) else fval f0))
               (2 ^ 1074) in
  py_round (25 * frac)%float
  = if Z.abs T <? top then Return (round_val T) else Raise OverflowError.
Proof.
  intros Hf. cbv zeta. pose proof pow1074_pos as Hp.
  assert (Hfrac : sf_is_finite (Prim2SF (if above then (f0 / 100)%float else f0)) = true /\
                  fval (if above then (f0 / 100)%float else f0)
                  = if above then srq (fval f0 * 2 ^ 1074) (100 * 2 ^ 1074) else fval f0).
  { destruct above; [|auto].
    destruct (div_fval f0 100 Hf finite_100 ltac:(rewrite fval_100; lia)) as [Hn Hv].
    rewrite fval_100 in Hv. split; [|exact Hv].
    apply finite_of_fval; [exact Hn|]. rewrite Hv.
    apply hundredth_bound.
    - apply fval_finite. assumption.
    - unfold fval. apply srq_representable; auto using Prim2SF_valid, finite_not_nan. }
  destruct Hfrac as [Hff Hfv].
  destruct (mul_fval 25 _ finite_25 Hff) as [Hn Hv].
  rewrite fval_25, Hfv in Hv.
  rewrite (py_round_value _ Hn), Hv. reflexivity.
Qed.

Lemma above_one_spec w x :
  number_of w = Some x -> num_finite x = true ->
  is_number_above_one w = (2 ^ 1074 <? nval x).
Proof.
  intros Hw Hx. unfold is_number_above_one. rewrite Hw.
  unfold num_gtb. rewrite num_ltb_spec by (auto; reflexivity).
  reflexivity.
Qed.

(** [compute_vacation_total] on a finite number, by value. *)
Lemma vacation_total_value w x :
  number_of w = Some x -> num_finite x = true ->
  compute_vacation_total w =
    let above := 2 ^ 1074 <? nval x in
    let T := vacation_value above (nval x) in
    if (Z.abs (srq (nval x) 1) <? top) && (Z.abs T <? top)
    then Return (round_val T) else Raise OverflowError.
Proof.
  intros Hw Hx. pose proof (above_one_spec w x Hw Hx) as Hab.
  pose proof pow1074_pos as Hp.
  destruct w as [|b|z|f|s|d|t]; try discriminate; cbn [number_of] in Hw;
    injection Hw as <-.
  - (* bool *) destruct b; vm_compute; reflexivity.
  - (* int *)
    unfold compute_vacation_total, workload_fraction.
    cbn [is_percent_str]. rewrite Hab. cbn [nval] in *. cbv zeta.
    unfold vacation_value.
    pose proof (float_of_int_spec z) as Hc. cbv zeta in Hc.
    set (c := srq (z * 2 ^ 1074) 1) in *.
    destruct (Z.abs c <? top).
    + destruct Hc as (f0 & Hf0 & Hfin & Hval).
      cbn [py_float andb]. rewrite Hf0.
      pose proof (vacation_tail (2 ^ 1074 <? z * 2 ^ 1074) f0 Hfin) as Ht.
      cbv zeta in Ht. rewrite Hval in Ht.
      destruct (2 ^ 1074 <? z * 2 ^ 1074); cbn [bind];
        rewrite bind_return; exact Ht.
    + cbn [py_float andb]. rewrite Hc.
      destruct (2 ^ 1074 <? z * 2 ^ 1074); reflexivity.
  - (* float *)
    unfold compute_vacation_total, workload_fraction.
    cbn [is_percent_str]. rewrite Hab. cbn [nval num_finite] in *. cbv zeta.
    unfold vacation_value.
    assert (Hc : srq (fval f) 1 = fval f).
    { unfold fval. apply srq_representable; auto using Prim2SF_valid, finite_not_nan. }
    rewrite Hc.
    pose proof (fval_finite f Hx) as Hlt. apply Z.ltb_lt in Hlt. rewrite Hlt.
    cbn [py_float andb].
    pose proof (vacation_tail (2 ^ 1074 <? fval f) f Hx) as Ht. cbv zeta in Ht.
    destruct (2 ^ 1074 <? fval f); cbn [bind]; rewrite bind_return; exact Ht.
Qed.

Lemma vacation_value_mono above v1 v2 :
  v1 <= v2 -> vacation_value above v1 <= vacation_value above v2.
Proof.
  intros Hle. pose proof pow1074_pos as Hp. unfold vacation_value.
  assert (Hc : srq v1 1 <= srq v2 1) by (apply srq_mono; lia).
  apply srq_mono; try lia.
  apply Z.mul_le_mono_nonneg_r; [lia|].
  apply Z.mul_le_mono_nonneg_l; [lia|].
  destruct above; [|exact Hc].
  apply srq_mono; try lia; nia.
Qed.

(** A number that is not finite makes the function raise. *)
Lemma vacation_total_not_finite w x :
  number_of w = Some x -> num_finite x = false ->
  exists e, compute_vacation_total w = Raise e.
Proof.
  intros Hw Hx.
  destruct w as [|b|z|f|s|d|t]; try discriminate; cbn [number_of] in Hw;
    injection Hw as <-; cbn [num_finite] in Hx; try discriminate.
  destruct (not_finite_cases f Hx) as [->|[->| ->]]; vm_compute; eauto.
Qed.

Lemma num_finite_of_return w x n :
  number_of w = Some x -> compute_vacation_total w = Return n ->
  num_finite x = true.
Proof.
  intros Hw Hr. destruct (num_finite x) eqn:Hf; [reflexivity|].
  destruct (vacation_total_not_finite w x Hw Hf) as [e He]. congruence.
Qed.

Lemma vacation_total_return w x n :
  number_of w = Some x -> compute_vacation_total w = Return n ->
  n = round_val (vacation_value (2 ^ 1074 <? nval x) (nval x)).
Proof.
  intros Hw Hr. pose proof (num_finite_of_return w x n Hw Hr) as Hf.
  rewrite (vacation_total_value w x Hw Hf) in Hr. cbv zeta in Hr.
  destruct (_ && _); congruence.
Qed.

(** Monotonicity on either side of the threshold. *)
Lemma vacation_total_mono w1 w2 x1 x2 n1 n2 :
  number_of w1 = Some x1 -> number_of w2 = Some x2 ->
  num_leb x1 x2 = true ->
  is_number_above_one w1 = is_number_above_one w2 ->
  compute_vacation_total w1 = Return n1 ->
  compute_vacation_total w2 = Return n2 ->
  n1 <= n2.
Proof.
  intros H1 H2 Hle Hside R1 R2.
  pose proof (num_finite_of_return _ _ _ H1 R1) as F1.
  pose proof (num_finite_of_return _ _ _ H2 R2) as F2.
  rewrite (above_one_spec _ _ H1 F1), (above_one_spec _ _ H2 F2) in Hside.
  rewrite (vacation_total_return _ _ _ H1 R1), (vacation_total_return _ _ _ H2 R2).
  rewrite (num_leb_spec _ _ F1 F2) in Hle. apply Z.leb_le in Hle.
  rewrite Hside. apply round_val_mono, vacation_value_mono. exact Hle.
Qed.

End VacationFacts.

(** * Bounds, thresholds and strings *)

Module InputFacts.
Import Py Utils Binary64 Binary64Facts PyFacts VacationFacts.

(** ** Conversions that cannot overflow *)

Lemma float_of_int_return z f : float_of_int z = Return f -> f = float_of_Z z.
Proof.
  unfold float_of_int, float_of_Z.
  destruct (binary_normalize prec emax z 0 false); congruence.
Qed.

Lemma srq_between lo hi v d :
  0 < d -> lo <= v <= hi ->
  Z.abs (srq lo d) < top -> Z.abs (srq hi d) < top -> Z.abs (srq v d) < top.
Proof.
  intros Hd [H1 H2] Hlo Hhi.
  assert (L1 : lo * d <= v * d) by (apply Z.mul_le_mono_nonneg_r; lia).
  assert (L2 : v * d <= hi * d) by (apply Z.mul_le_mono_nonneg_r; lia).
  pose proof (srq_mono lo d v d Hd Hd L1).
  pose proof (srq_mono v d hi d Hd Hd L2). lia.
Qed.

Lemma srq_opp n d : 0 < n -> srq (- n) d = - srq n d.
Proof.
  intros Hn. unfold srq.
  destruct (Z.ltb_spec (- n) 0) as [_|H]; [|lia].
  destruct (Z.ltb_spec n 0) as [H|_]; [lia|].
  rewrite Z.opp_involutive. reflexivity.
Qed.

(** The largest power of two below the overflow threshold is
    representable. *)
Lemma srq_pow1023 : srq (2 ^ 1023 * 2 ^ 1074) 1 = 2 ^ 1023 * 2 ^ 1074.
Proof.
  pose proof (srq_representable (S754_finite false 4503599627370496 971)
                eq_refl eq_refl) as H.
  cbn [sval cond_Zopp] in H.
  assert (E : Zpos 4503599627370496 * 2 ^ (971 + 1074) = 2 ^ 1023 * 2 ^ 1074).
  { change (Zpos 4503599627370496) with (2 ^ 52).
    rewrite <- (Z.pow_add_r 2 52 (971 + 1074)) by lia.
    rewrite <- (Z.pow_add_r 2 1023 1074) by lia.
    change (52 + (971 + 1074)) with 2097. change (1023 + 1074) with 2097.
    reflexivity. }
  rewrite E in H. exact H.
Qed.

Lemma pow1023_below_top : 2 ^ 1023 * 2 ^ 1074 < top.
Proof.
  unfold top. rewrite <- (Z.pow_add_r 2 1023 1074) by lia.
  apply pow2_lt. lia.
Qed.

(** An int up to [2^1023] in magnitude rounds to a finite float. *)
Lemma srq_int_bound z :
  Z.abs z <= 2 ^ 1023 -> Z.abs (srq (z * 2 ^ 1074) 1) < top.
Proof.
  intros Hz. pose proof pow1074_pos as Hp. pose proof pow1023_below_top as Ht.
  assert (Hpos : 0 < 2 ^ 1023 * 2 ^ 1074)
    by (apply Z.mul_pos_pos; [apply pow2_pos; lia|exact Hp]).
  assert (Hv : - (2 ^ 1023 * 2 ^ 1074) <= z * 2 ^ 1074 <= 2 ^ 1023 * 2 ^ 1074).
  { rewrite <- Z.mul_opp_l. split; apply Z.mul_le_mono_nonneg_r; lia. }
  apply (srq_between (- (2 ^ 1023 * 2 ^ 1074)) (2 ^ 1023 * 2 ^ 1074)).
  - lia.
  - exact Hv.
  - rewrite (srq_opp _ 1 Hpos), srq_pow1023. lia.
  - rewrite srq_pow1023. lia.
Qed.

Lemma float_of_int_small z :
  Z.abs z <= 2 ^ 1023 -> float_of_int z = Return (float_of_Z z).
Proof.
  intros Hz. pose proof (float_of_int_spec z) as H. cbv zeta in H.
  pose proof pow1074_pos as Hp.
  pose proof (srq_int_bound z Hz) as Hlt.
  apply Z.ltb_lt in Hlt. rewrite Hlt in H. destruct H as (f & Hf & _).
  rewrite Hf. f_equal. apply float_of_int_return. exact Hf.
Qed.

(** [float] on an int that is not huge. *)
Lemma float_of_Z_value z :
  Z.abs z <= 2 ^ 1023 ->
  sf_is_finite (Prim2SF (float_of_Z z)) = true /\
  fval (float_of_Z z) = srq (z * 2 ^ 1074) 1.
Proof.
  intros Hz.
  pose proof (float_of_int_small z Hz) as Hf.
  pose proof (float_of_int_spec z) as Hs. cbv zeta in Hs.
  pose proof (srq_int_bound z Hz) as Hlt.
  apply Z.ltb_lt in Hlt. rewrite Hlt in Hs. destruct Hs as (f0 & Hf0 & Hfin & Hval).
  assert (f0 = float_of_Z z) by congruence. subst f0. auto.
Qed.

(** The value the function works with on an int, read off the floats:
    when rounding [25 * frac] returns [n], that value is finite and
    rounds to [n]. *)
Lemma vacation_value_of_int (ab : bool) z n :
  Z.abs z <= 2 ^ 1023 ->
  py_round (25 * (if ab then float_of_Z z / 100 else float_of_Z z))%float = Return n ->
  Z.abs (vacation_value ab (z * 2 ^ 1074)) < top /\
  round_val (vacation_value ab (z * 2 ^ 1074)) = n.
Proof.
  intros Hz Hr. destruct (float_of_Z_value z Hz) as [Hfin Hval].
  pose proof (vacation_tail ab (float_of_Z z) Hfin) as Ht. cbv zeta in Ht.
  rewrite Hval, Hr in Ht. fold (vacation_value ab (z * 2 ^ 1074)) in Ht.
  destruct (Z.ltb_spec (Z.abs (vacation_value ab (z * 2 ^ 1074))) top) as [Hlt|_];
    [|discriminate].
  split; [exact Hlt|]. congruence.
Qed.

(** ** Primitive comparisons by value *)

Lemma leb_fval a b :
  (a <=? b)%float = true ->
  sf_is_nan (Prim2SF a) = false /\ sf_is_nan (Prim2SF b) = false /\ fval a <= fval b.
Proof.
  rewrite leb_spec. unfold SFleb, fval. intros H.
  assert (Ha : sf_is_nan (Prim2SF a) = false).
  { destruct (Prim2SF a); try reflexivity. discriminate. }
  assert (Hb : sf_is_nan (Prim2SF b) = false).
  { destruct (Prim2SF b); try reflexivity. destruct (Prim2SF a); discriminate. }
  rewrite (SFcompare_sval _ _ (Prim2SF_valid a) (Prim2SF_valid b) Ha Hb) in H.
  repeat split; try assumption.
  destruct (Z.compare_spec (sval (Prim2SF a)) (sval (Prim2SF b))); try lia; discriminate.
Qed.

Lemma fval_1 : fval 1 = 2 ^ 1074.
Proof. vm_compute. reflexivity. Qed.

Lemma fval_0 : fval 0 = 0.
Proof. vm_compute. reflexivity. Qed.

(** The test [workload_pct > 1] on a float is the primitive one. *)
Lemma above_one_float f : is_number_above_one (PyFloat f) = (1 <? f)%float.
Proof.
  destruct (sf_is_finite (Prim2SF f)) eqn:Hf.
  - rewrite (above_one_spec (PyFloat f) (NFloat f) eq_refl Hf). cbn [nval].
    rewrite ltb_spec. unfold SFltb.
    rewrite (SFcompare_sval _ _ (Prim2SF_valid 1) (Prim2SF_valid f) eq_refl
               (finite_not_nan _ Hf)).
    change (sval (Prim2SF 1)) with (fval 1). rewrite fval_1.
    change (sval (Prim2SF f)) with (fval f).
    unfold Z.ltb. destruct (2 ^ 1074 ?= fval f); reflexivity.
  - destruct (not_finite_cases f Hf) as [->|[->| ->]]; vm_compute; reflexivity.
Qed.

Lemma above_one_int z : is_number_above_one (PyInt z) = (1 <? z).
Proof.
  unfold is_number_above_one, num_gtb, num_ltb. cbn [number_of num_cmp].
  unfold Z.ltb. destruct (1 ?= z); reflexivity.
Qed.

(** ** Numbers of moderate size are accepted *)

Lemma moderate_finite x :
  num_leb (NInt (- moderate)) x = true -> num_leb x (NInt moderate) = true ->
  num_finite x = true.
Proof.
  destruct x as [z|f]; [reflexivity|]. cbn [num_finite]. intros H1 H2.
  destruct (sf_is_finite (Prim2SF f)) eqn:Hf; [reflexivity|exfalso].
  destruct (not_finite_cases f Hf) as [->|[->| ->]];
    vm_compute in H1, H2; discriminate.
Qed.

Lemma moderate_small : Z.abs moderate <= 2 ^ 1023 /\ Z.abs (- moderate) <= 2 ^ 1023.
Proof. split; vm_compute; discriminate. Qed.

Lemma moderate_rounds (ab : bool) :
  (exists n, py_round (25 * (if ab then float_of_Z (- moderate) / 100
                             else float_of_Z (- moderate)))%float = Return n) /\
  (exists n, py_round (25 * (if ab then float_of_Z moderate / 100
                             else float_of_Z moderate))%float = Return n).
Proof. destruct ab; split; eexists; vm_compute; reflexivity. Qed.

Lemma vacation_value_moderate (ab : bool) v :
  - moderate * 2 ^ 1074 <= v <= moderate * 2 ^ 1074 ->
  Z.abs (srq v 1) < top /\ Z.abs (vacation_value ab v) < top.
Proof.
  intros [H1 H2]. destruct moderate_small as [Sp Sn].
  destruct (moderate_rounds ab) as [[n1 R1] [n2 R2]].
  destruct (vacation_value_of_int ab (- moderate) n1 Sn R1) as [B1 _].
  destruct (vacation_value_of_int ab moderate n2 Sp R2) as [B2 _].
  pose proof (srq_int_bound (- moderate) Sn) as C1.
  pose proof (srq_int_bound moderate Sp) as C2.
  split.
  - apply (srq_between (- moderate * 2 ^ 1074) (moderate * 2 ^ 1074));
      [lia|split; assumption|assumption|assumption].
  - pose proof (vacation_value_mono ab _ _ H1) as M1.
    pose proof (vacation_value_mono ab _ _ H2) as M2.
    set (T := vacation_value ab v) in *.
    set (T1 := vacation_value ab (- moderate * 2 ^ 1074)) in *.
    set (T2 := vacation_value ab (moderate * 2 ^ 1074)) in *.
    clearbody T T1 T2. lia.
Qed.

Lemma vacation_total_moderate w x :
  number_of w = Some x ->
  num_leb (NInt (- moderate)) x = true -> num_leb x (NInt moderate) = true ->
  exists n, compute_vacation_total w = Return n.
Proof.
  intros Hw H1 H2. pose proof (moderate_finite x H1 H2) as Hf.
  rewrite (num_leb_spec (NInt (- moderate)) x eq_refl Hf) in H1.
  rewrite (num_leb_spec x (NInt moderate) Hf eq_refl) in H2.
  apply Z.leb_le in H1, H2. cbn [nval] in H1, H2.
  rewrite (vacation_total_value w x Hw Hf). cbv zeta.
  destruct (vacation_value_moderate (2 ^ 1074 <? nval x) (nval x) (conj H1 H2))
    as [Hc HT].
  apply Z.ltb_lt in Hc, HT. rewrite Hc, HT. cbn [andb]. eauto.
Qed.

(** The function's tail on an int of moderate size. *)
Lemma vacation_tail_moderate (ab : bool) z :
  Z.abs z <= moderate ->
  float_of_int z = Return (float_of_Z z) /\
  exists n,
    py_round (25 * (if ab then float_of_Z z / 100 else float_of_Z z))%float = Return n.
Proof.
  intros Hz. pose proof pow1074_pos as Hp. destruct moderate_small as [Sp _].
  assert (Hsm : Z.abs z <= 2 ^ 1023).
  { assert (0 <= moderate) by (vm_compute; discriminate).
    rewrite Z.abs_eq in Sp by assumption. lia. }
  pose proof (float_of_int_small z Hsm) as Hf. split; [exact Hf|].
  destruct (float_of_Z_value z Hsm) as [Hfin Hval].
  pose proof (vacation_tail ab (float_of_Z z) Hfin) as Ht. cbv zeta in Ht.
  rewrite Hval in Ht. fold (vacation_value ab (z * 2 ^ 1074)) in Ht.
  assert (Hr : - moderate * 2 ^ 1074 <= z * 2 ^ 1074 <= moderate * 2 ^ 1074)
    by (split; apply Z.mul_le_mono_nonneg_r; lia).
  destruct (vacation_value_moderate ab _ Hr) as [_ HT].
  apply Z.ltb_lt in HT. rewrite Ht, HT. eauto.
Qed.

(** ** Digit strings *)

Lemma digit_code c : is_digit c = true -> 48 <= code c <= 57.
Proof.
  unfold is_digit. intros H. apply andb_true_iff in H. destruct H as [H1 H2].
  apply Z.leb_le in H1, H2. lia.
Qed.

Lemma digit_neq c d : is_digit c = true -> is_digit d = false -> Ascii.eqb c d = false.
Proof.
  intros Hc Hd. destruct (Ascii.eqb_spec c d) as [->|]; [congruence|reflexivity].
Qed.

Lemma digit_not_space c : is_digit c = true -> is_space c = false.
Proof.
  intros H. apply digit_code in H. unfold is_space.
  destruct (Z.leb_spec 9 (code c)), (Z.leb_spec (code c) 13),
    (Z.leb_spec 28 (code c)), (Z.leb_spec (code c) 32); cbn; try reflexivity; lia.
Qed.

Lemma digit_lower c : is_digit c = true -> lower c = c.
Proof.
  intros H. apply digit_code in H. unfold lower.
  destruct (Z.leb_spec 65 (code c)), (Z.leb_spec (code c) 90); cbn; try reflexivity; lia.
Qed.

Lemma digit_val_range c : is_digit c = true -> 0 <= digit_val c <= 9.
Proof. intros H. apply digit_code in H. unfold digit_val. lia. Qed.

Lemma forallb_rev {A} (p : A -> bool) l : forallb p l = true -> forallb p (rev l) = true.
Proof.
  rewrite !forallb_forall. intros H x Hx. apply H. apply in_rev. exact Hx.
Qed.

Lemma lstrip_digits set l :
  (forall c, is_digit c = true -> mem_char c set = false) ->
  forallb is_digit l = true -> lstrip_chars set l = l.
Proof.
  intros Hset Hl. destruct l as [|c l]; [reflexivity|].
  cbn [forallb] in Hl. apply andb_true_iff in Hl. destruct Hl as [Hc _].
  cbn [lstrip_chars]. rewrite (Hset c Hc). reflexivity.
Qed.

Lemma percent_not_digit c : is_digit c = true -> mem_char c (chars "%") = false.
Proof.
  intros Hc. cbn. rewrite (digit_neq c "%" Hc eq_refl). reflexivity.
Qed.

Lemma strip_chars_percent ds :
  forallb is_digit ds = true ->
  strip_chars (chars "%") (ds ++ ["%"%char]) = ds.
Proof.
  intros Hd. destruct ds as [|c0 ds0] eqn:E; [reflexivity|].
  rewrite <- E in *. unfold strip_chars.
  assert (H1 : lstrip_chars (chars "%") (ds ++ ["%"%char]) = ds ++ ["%"%char]).
  { rewrite E in *.
    cbn [forallb] in Hd. apply andb_true_iff in Hd. destruct Hd as [Hc _].
    rewrite <- app_comm_cons. cbn [lstrip_chars].
    rewrite (percent_not_digit c0 Hc). reflexivity. }
  rewrite H1, rev_app_distr.
  assert (H2 : lstrip_chars (chars "%") (rev ["%"%char] ++ rev ds) = rev ds).
  { change (rev ["%"%char] ++ rev ds) with ("%"%char :: rev ds).
    change (lstrip_chars (chars "%") ("%"%char :: rev ds))
      with (lstrip_chars (chars "%") (rev ds)).
    apply (lstrip_digits _ _ percent_not_digit (forallb_rev _ _ Hd)). }
  rewrite H2. apply rev_involutive.
Qed.

Lemma strip_percent ds :
  forallb is_digit ds = true -> strip (text (ds ++ ["%"%char])) "%" = text ds.
Proof.
  intros Hd. unfold strip.
  replace (chars (text (ds ++ ["%"%char]))) with (ds ++ ["%"%char])
    by (symmetry; apply list_ascii_of_string_of_list_ascii).
  rewrite (strip_chars_percent ds Hd). reflexivity.
Qed.

Lemma endswith_percent ds : endswith (text (ds ++ ["%"%char])) "%" = true.
Proof.
  unfold endswith, chars at 2. rewrite list_ascii_of_string_of_list_ascii.
  rewrite rev_app_distr. reflexivity.
Qed.

Lemma strip_space_digits ds : forallb is_digit ds = true -> strip_space ds = ds.
Proof.
  intros Hd. unfold strip_space.
  set (drop := fix drop (l : list ascii) : list ascii :=
         match l with
         | [] => []
         | c :: l' => if is_space c then drop l' else l
         end).
  assert (Hdrop : forall l, forallb is_digit l = true -> drop l = l).
  { intros [|c l] Hl; [reflexivity|].
    cbn [forallb] in Hl. apply andb_true_iff in Hl. destruct Hl as [Hc _].
    cbn. rewrite (digit_not_space c Hc). reflexivity. }
  rewrite (Hdrop ds Hd), (Hdrop _ (forallb_rev _ _ Hd)). apply rev_involutive.
Qed.

Lemma digitpart_tail_digits l : forall acc n,
  forallb is_digit l = true ->
  digitpart_tail acc n l
  = (fold_left (fun a c => 10 * a + digit_val c) l acc, n + Z.of_nat (length l), []).
Proof.
  induction l as [|c l IH]; intros acc n Hl.
  - cbn. rewrite Z.add_0_r. reflexivity.
  - cbn [forallb] in Hl. apply andb_true_iff in Hl. destruct Hl as [Hc Hl].
    cbn [digitpart_tail fold_left length]. rewrite Hc, (IH _ _ Hl).
    rewrite Nat2Z.inj_succ.
    replace (n + 1 + Z.of_nat (length l)) with (n + Z.succ (Z.of_nat (length l))) by lia.
    reflexivity.
Qed.

Lemma digits_value_range ds :
  forallb is_digit ds = true -> 0 <= digits_value ds < 10 ^ Z.of_nat (length ds).
Proof.
  unfold digits_value. intros Hd.
  assert (H : forall l acc, forallb is_digit l = true -> 0 <= acc ->
            acc * 10 ^ Z.of_nat (length l)
            <= fold_left (fun a c => 10 * a + digit_val c) l acc
            < (acc + 1) * 10 ^ Z.of_nat (length l)).
  { induction l as [|c l IH]; intros acc Hl Hacc.
    - cbn. lia.
    - cbn [forallb] in Hl. apply andb_true_iff in Hl. destruct Hl as [Hc Hl].
      pose proof (digit_val_range c Hc).
      cbn [fold_left length]. rewrite Nat2Z.inj_succ, Z.pow_succ_r by lia.
      pose proof (IH (10 * acc + digit_val c) Hl ltac:(lia)).
      set (P := 10 ^ Z.of_nat (length l)) in *.
      assert (0 < P) by (apply Z.pow_pos_nonneg; lia).
      assert (acc * 10 * P <= (10 * acc + digit_val c) * P)
        by (apply Z.mul_le_mono_nonneg_r; lia).
      assert ((10 * acc + digit_val c + 1) * P <= (acc + 1) * 10 * P)
        by (apply Z.mul_le_mono_nonneg_r; lia).
      lia. }
  specialize (H ds 0 Hd ltac:(lia)). lia.
Qed.

(** [float] on a string of digits is [float] on the int they denote. *)
Lemma float_of_digits ds :
  ds <> [] -> forallb is_digit ds = true ->
  float_of_string (text ds) = Return (float_of_Z (digits_value ds)).
Proof.
  intros Hne Hd. unfold float_of_string, chars.
  rewrite list_ascii_of_string_of_list_ascii, (strip_space_digits ds Hd).
  destruct ds as [|c ds]; [congruence|].
  pose proof Hd as Hd'. cbn [forallb] in Hd'. apply andb_true_iff in Hd'.
  destruct Hd' as [Hc Hds].
  unfold parse_sign. rewrite (digit_neq c "-" Hc eq_refl), (digit_neq c "+" Hc eq_refl).
  cbn [map text string_of_list_ascii]. rewrite (digit_lower c Hc).
  assert (Hw : forall s t, is_digit (match t with String a _ => a | EmptyString => c end) = false ->
               t <> EmptyString -> String.eqb (String c s) t = false).
  { intros s [|a t] Ha Ht; [congruence|]. cbn [String.eqb].
    rewrite (digit_neq c a Hc Ha). reflexivity. }
  rewrite (Hw _ "inf"%string eq_refl ltac:(discriminate)).
  rewrite (Hw _ "infinity"%string eq_refl ltac:(discriminate)).
  rewrite (Hw _ "nan"%string eq_refl ltac:(discriminate)).
  cbn [orb].
  unfold parse_number, digitpart. rewrite Hc.
  rewrite (digitpart_tail_digits ds _ _ Hds).
  cbn [parse_exponent]. f_equal.
  change (fold_left (fun a c0 => 10 * a + digit_val c0) ds (digit_val c))
    with (fold_left (fun a c0 => 10 * a + digit_val c0) (c :: ds) 0).
  fold (digits_value (c :: ds)).
  pose proof (digits_value_range (c :: ds) Hd) as [Hv _].
  unfold float_of_decimal, float_of_Z.
  destruct (digits_value (c :: ds)) as [|p|p]; [reflexivity| |lia].
  cbn [Z.add Z.leb Z.compare binary_normalize].
  change (10 ^ 0) with 1. rewrite Z.mul_1_r. reflexivity.
Qed.

(** A string of up to 300 digits followed by a percent sign is
    accepted, and handled as that whole-number percentage. *)
Lemma vacation_total_percent_digits ds :
  ds <> [] -> forallb is_digit ds = true -> (length ds <= 300)%nat ->
  exists n,
    compute_vacation_total (PyStr (text (ds ++ ["%"%char]))) = Return n /\
    py_round (25 * (float_of_Z (digits_value ds) / 100))%float = Return n.
Proof.
  intros Hne Hd Hlen.
  pose proof (digits_value_range ds Hd) as [H0 H1].
  assert (Hmod : Z.abs (digits_value ds) <= moderate).
  { assert (10 ^ Z.of_nat (length ds) <= 10 ^ 300) by (apply Z.pow_le_mono_r; lia).
    unfold moderate. lia. }
  destruct (vacation_tail_moderate true _ Hmod) as (_ & n & Hn).
  exists n. split; [|exact Hn].
  unfold compute_vacation_total, workload_fraction.
  cbn [is_percent_str str_strip]. rewrite endswith_percent.
  rewrite (strip_percent ds Hd). cbn [py_float].
  rewrite (float_of_digits ds Hne Hd). cbn [bind].
  rewrite bind_return. exact Hn.
Qed.

End InputFacts.

(** ** Facts used by the main results *)

Module ResultFacts.
Import Py Utils Binary64 Binary64Facts PyFacts VacationFacts InputFacts.

Lemma returns_int_spec c n : returns_int c n = true -> c = Return n.
Proof.
  destruct c as [m|e]; cbn; [|discriminate].
  intros H. apply Z.eqb_eq in H. congruence.
Qed.

(** A number between two ints is finite. *)
Lemma range_finite a b x :
  num_leb (NInt a) x = true -> num_leb x (NInt b) = true -> num_finite x = true.
Proof.
  destruct x as [z|f]; [reflexivity|]. cbn [num_finite]. intros H1 H2.
  destruct (sf_is_finite (Prim2SF f)) eqn:Hf; [reflexivity|exfalso].
  destruct (not_finite_cases f Hf) as [->|[->| ->]];
    vm_compute in H1, H2; discriminate.
Qed.

Lemma number_not_percent w x : number_of w = Some x -> is_percent_str w = false.
Proof. destruct w; cbn; congruence. Qed.

(** On a number at most 1 the function rounds 25 times its float. *)
Lemma vacation_total_fraction w x :
  number_of w = Some x -> is_number_above_one w = false ->
  compute_vacation_total w = bind (py_float w) (fun f => py_round (25 * f)%float).
Proof.
  intros Hw Hab. unfold compute_vacation_total, workload_fraction.
  rewrite (number_not_percent w x Hw), Hab.
  destruct (py_float w) as [f|e]; cbn [bind]; [apply bind_return|reflexivity].
Qed.

(** The three spellings of the percentages 2..100, checked one by
    one. *)
Lemma percentages_checked : forallb Sample.same_for_percentage (seq 2 99) = true.
Proof. vm_compute. reflexivity. Qed.

Lemma percentage_formats p :
  1 < p <= 100 ->
  let n := rne_div (25 * p) 100 in
  compute_vacation_total (PyStr (str_of_int p ++ "%")) = Return n /\
  compute_vacation_total (PyFloat (float_of_Z p / 100)) = Return n /\
  compute_vacation_total (PyInt p) = Return n.
Proof.
  intros Hp. pose proof percentages_checked as H.
  rewrite forallb_forall in H. specialize (H (Z.to_nat p)).
  assert (Hin : In (Z.to_nat p) (seq 2 99)) by (apply in_seq; lia).
  specialize (H Hin). unfold Sample.same_for_percentage in H. cbv zeta in H.
  rewrite Z2Nat.id in H by lia.
  apply andb_true_iff in H. destruct H as [H H3].
  apply andb_true_iff in H. destruct H as [H1 H2].
  cbv zeta. repeat split; apply returns_int_spec; assumption.
Qed.

(** The result on a number between 0 and 1. *)
Lemma vacation_total_unit_range w x :
  number_of w = Some x ->
  num_leb (NInt 0) x = true -> num_leb x (NInt 1) = true ->
  exists f n,
    py_float w = Return f /\ py_round (25 * f)%float = Return n /\
    compute_vacation_total w = Return n /\ 0 <= n <= 25.
Proof.
  intros Hw H0 H1. pose proof (range_finite 0 1 x H0 H1) as Hf.
  pose proof pow1074_pos as Hp.
  rewrite (num_leb_spec (NInt 0) x eq_refl Hf) in H0.
  rewrite (num_leb_spec x (NInt 1) Hf eq_refl) in H1.
  apply Z.leb_le in H0, H1. cbn [nval] in H0, H1.
  assert (Hab : is_number_above_one w = false).
  { rewrite (above_one_spec w x Hw Hf). apply Z.ltb_ge. lia. }
  pose proof (vacation_total_value w x Hw Hf) as Hv. cbv zeta in Hv.
  replace (2 ^ 1074 <? nval x) with false in Hv by (symmetry; apply Z.ltb_ge; lia).
  set (v := nval x) in *. clearbody v.
  assert (Hc : Z.abs (srq v 1) < top).
  { apply (srq_between (0 * 2 ^ 1074) (1 * 2 ^ 1074)).
    - lia.
    - lia.
    - vm_compute. reflexivity.
    - vm_compute. reflexivity. }
  pose proof (vacation_value_mono false _ _ H0) as M0.
  pose proof (vacation_value_mono false _ _ H1) as M1.
  assert (E0 : vacation_value false (0 * 2 ^ 1074) = 0 * 2 ^ 1074)
    by (vm_compute; reflexivity).
  assert (E1 : vacation_value false (1 * 2 ^ 1074) = 25 * 2 ^ 1074)
    by (vm_compute; reflexivity).
  rewrite E0 in M0. rewrite E1 in M1.
  assert (HT : Z.abs (vacation_value false v) < top).
  { assert (25 * 2 ^ 1074 < top) by (vm_compute; reflexivity). lia. }
  apply Z.ltb_lt in Hc, HT. rewrite Hc, HT in Hv. cbn [andb] in Hv.
  pose proof (round_val_mono _ _ M0) as R0.
  pose proof (round_val_mono _ _ M1) as R1.
  rewrite round_val_exact in R0, R1.
  pose proof (vacation_total_fraction w x Hw Hab) as Hfr.
  rewrite Hv in Hfr.
  destruct (py_float w) as [f|e]; cbn [bind] in Hfr; [|discriminate].
  exists f, (round_val (vacation_value false v)).
  repeat split; try assumption; try lia. symmetry. exact Hfr.
Qed.

(** ** The seniority ladder *)

Lemma ladder_first_match age tenure x y :
  number_of age = Some x -> number_of tenure = Some y ->
  seniority_ladder age tenure = Return (Spec.first_match x y).
Proof.
  intros Hx Hy.
  unfold seniority_ladder, and_then, lt, ge, compare_with, Spec.first_match.
  rewrite Hx, Hy. cbv [number_of bind find Spec.ladder Spec.applies
    Spec.age_below Spec.tenure_test Spec.label].
  destruct (num_ltb x (NInt 28)), (num_ltb y (NInt 3)),
    (num_ltb x (NInt 35)), (num_ltb y (NInt 6)),
    (num_ltb x (NInt 45)), (num_ltb y (NInt 12)),
    (num_ltb x (NInt 60)), (num_geb y (NInt 8)); reflexivity.
Qed.

(** The tenure is a number whatever the hire date is. *)
Lemma years_at_company_number (to_datetime : pyval -> result timestamp) hire_date :
  exists y, number_of (years_at_company to_datetime hire_date) = Some y.
Proof.
  assert (H : forall d,
    exists y, number_of match tenure_years to_datetime d with
                        | Return v => v
                        | Raise _ => PyInt 0
                        end = Some y).
  { intros d. unfold tenure_years.
    destruct (to_datetime (PyStr "today")) as [t|]; cbn [bind]; [|eauto].
    destruct (to_datetime d) as [h|]; cbn [bind]; [|eauto].
    unfold div_by_float.
    destruct (number_of (days_between t h)); [|eauto].
    destruct (py_float (days_between t h)); cbn [bind number_of]; eauto. }
  unfold years_at_company. destruct hire_date; cbn [number_of]; eauto.
Qed.

(** A hire date that cannot be converted counts as no tenure. *)
Lemma years_at_company_raise
  (to_datetime : pyval -> result timestamp) hire_date e :
  to_datetime hire_date = Raise e ->
  years_at_company to_datetime hire_date = PyInt 0.
Proof.
  intros H. unfold years_at_company, tenure_years.
  destruct hire_date; try reflexivity;
    rewrite H; destruct (to_datetime (PyStr "today")); reflexivity.
Qed.

Lemma days_small a b :
  Z.abs (a - b) < 2 ^ 63 -> Z.abs ((a - b) / ns_per_day) <= 2 ^ 1023.
Proof.
  intros H. change ns_per_day with 86400000000000.
  assert (2 ^ 63 <= 2 ^ 1023) by (apply Z.pow_le_mono_r; lia).
  set (q := 2 ^ 63) in *. set (Q := 2 ^ 1023) in *. clearbody q Q.
  Z.div_mod_to_equations. lia.
Qed.

Lemma years_at_company_value
  (to_datetime : pyval -> result timestamp) hire_date now hired :
  hire_date <> PyNone ->
  to_datetime (PyStr "today") = Return (Timestamp now) ->
  to_datetime hire_date = Return (Timestamp hired) ->
  Z.abs (now - hired) < 2 ^ 63 ->
  years_at_company to_datetime hire_date
  = PyFloat (float_of_Z ((now - hired) / ns_per_day) / 365.25).
Proof.
  intros Hn Ht Hh Hd. unfold years_at_company, tenure_years.
  rewrite Ht, Hh. cbn [bind days_between]. unfold div_by_float.
  cbn [number_of py_float]. rewrite (float_of_int_small _ (days_small _ _ Hd)).
  cbn [bind]. destruct hire_date; try reflexivity. congruence.
Qed.

(** ** Strings without a percent sign *)

Lemma endswith_digits ds :
  ds <> [] -> forallb is_digit ds = true -> endswith (text ds) "%" = false.
Proof.
  intros Hne Hd. unfold endswith, chars. rewrite list_ascii_of_string_of_list_ascii.
  pose proof (forallb_rev _ _ Hd) as Hr.
  destruct (rev ds) as [|c l] eqn:E.
  - apply (f_equal (@rev ascii)) in E. rewrite rev_involutive in E. cbn in E. congruence.
  - cbn [forallb] in Hr. apply andb_true_iff in Hr. destruct Hr as [Hc _].
    change (is_prefix (rev (list_ascii_of_string "%")) (c :: l))
      with (Ascii.eqb "%" c && true).
    destruct (Ascii.eqb_spec "%"%char c) as [<-|]; [|reflexivity].
    vm_compute in Hc. discriminate.
Qed.

Lemma vacation_total_plain s :
  endswith s "%" = false ->
  compute_vacation_total (PyStr s)
  = bind (float_of_string s) (fun f => py_round (25 * f)%float).
Proof.
  intros H. unfold compute_vacation_total, workload_fraction.
  cbn [is_percent_str is_number_above_one number_of py_float]. rewrite H.
  destruct (float_of_string s); cbn [bind]; [apply bind_return|reflexivity].
Qed.

End ResultFacts.

(** * Main results *)

Import Py Utils Binary64 Binary64Facts PyFacts VacationFacts InputFacts ResultFacts.

(** ** Vacation entitlement *)

(** C1: for every numeric workload [w] between 0 and 1,
    [compute_vacation_total w] is [round (25 * float w)], an int between
    0 and 25; ["80%"], [0.8] and [80] all give 20; and for every
    whole-number percentage [p] with [1 < p <= 100] the string ["p%"],
    the fraction [p / 100] and the int [p] give the same result, which
    is [25 * p / 100] rounded to the nearest int, ties to even. *)
Theorem vacation_total_scaling (w : pyval) (x : number) (p : Z) :
  number_of w = Some x ->
  num_leb (NInt 0) x = true -> num_leb x (NInt 1) = true ->
  1 < p <= 100 ->
  (exists f n,
     py_float w = Return f /\ py_round (25 * f)%float = Return n /\
     compute_vacation_total w = Return n /\ 0 <= n <= 25) /\
  compute_vacation_total (PyStr "80%") = Return 20 /\
  compute_vacation_total (PyFloat 0.8) = Return 20 /\
  compute_vacation_total (PyInt 80) = Return 20 /\
  (exists n,
     compute_vacation_total (PyStr (str_of_int p ++ "%")) = Return n /\
     compute_vacation_total (PyFloat (float_of_Z p / 100)) = Return n /\
     compute_vacation_total (PyInt p) = Return n /\
     n = rne_div (25 * p) 100).
Proof.
  intros Hw H0 H1 Hp.
  split; [exact (vacation_total_unit_range w x Hw H0 H1)|].
  split; [vm_compute; reflexivity|].
  split; [vm_compute; reflexivity|].
  split; [vm_compute; reflexivity|].
  destruct (percentage_formats p Hp) as (Hs & Hf & Hi).
  exists (rne_div (25 * p) 100). repeat split; assumption.
Qed.

Lemma vacation_total_scaling_half :
  (exists f n,
     py_float (PyFloat 0.5) = Return f /\ py_round (25 * f)%float = Return n /\
     compute_vacation_total (PyFloat 0.5) = Return n /\ 0 <= n <= 25) /\
  compute_vacation_total (PyStr "80%") = Return 20 /\
  compute_vacation_total (PyFloat 0.8) = Return 20 /\
  compute_vacation_total (PyInt 80) = Return 20 /\
  (exists n,
     compute_vacation_total (PyStr (str_of_int 60 ++ "%")) = Return n /\
     compute_vacation_total (PyFloat (float_of_Z 60 / 100)) = Return n /\
     compute_vacation_total (PyInt 60) = Return n /\
     n = rne_div (25 * 60) 100).
Proof.
  apply (vacation_total_scaling (PyFloat 0.5) (NFloat 0.5) 60).
  - reflexivity.
  - vm_compute. reflexivity.
  - vm_compute. reflexivity.
  - lia.
Defined.




(** C7, as amended: on numbers of magnitude at most [10^300] that lie
    on the same side of the threshold 1 (both at most 1, or both above
    it), [compute_vacation_total] returns, and is non-decreasing. *)
Theorem vacation_total_monotone_each_side (w1 w2 : pyval) (x1 x2 : number) :
  number_of w1 = Some x1 -> number_of w2 = Some x2 ->
  num_leb (NInt (- moderate)) x1 = true -> num_leb x1 (NInt moderate) = true ->
  num_leb (NInt (- moderate)) x2 = true -> num_leb x2 (NInt moderate) = true ->
  num_leb x1 x2 = true ->
  is_number_above_one w1 = is_number_above_one w2 ->
  exists n1 n2,
    compute_vacation_total w1 = Return n1 /\
    compute_vacation_total w2 = Return n2 /\ n1 <= n2.
Proof.
  intros Hw1 Hw2 L1 U1 L2 U2 Hle Hside.
  destruct (vacation_total_moderate w1 x1 Hw1 L1 U1) as [n1 Hn1].
  destruct (vacation_total_moderate w2 x2 Hw2 L2 U2) as [n2 Hn2].
  exists n1, n2. split; [exact Hn1|]. split; [exact Hn2|].
  exact (vacation_total_mono w1 w2 x1 x2 n1 n2 Hw1 Hw2 Hle Hside Hn1 Hn2).
Qed.

Lemma vacation_total_monotone_below_one :
  exists n1 n2,
    compute_vacation_total (PyFloat 0.5) = Return n1 /\
    compute_vacation_total (PyInt 1) = Return n2 /\ n1 <= n2.
Proof.
  apply (vacation_total_monotone_each_side
           (PyFloat 0.5) (PyInt 1) (NFloat 0.5) (NInt 1));
    vm_compute; reflexivity.
Defined.

(** C7, the claim as worded fails across the threshold: 1 <= 2, and
    [compute_vacation_total 1 = 25] while [compute_vacation_total 2 = 0];
    likewise for the floats 1.0 and 1.5. *)
Lemma vacation_total_not_monotone :
  num_leb (NInt 1) (NInt 2) = true /\
  compute_vacation_total (PyInt 1) = Return 25 /\
  compute_vacation_total (PyInt 2) = Return 0 /\
  num_leb (NFloat 1) (NFloat 1.5) = true /\
  compute_vacation_total (PyFloat 1) = Return 25 /\
  compute_vacation_total (PyFloat 1.5) = Return 0 /\
  ~ 25 <= 0.
Proof. repeat split; try (vm_compute; reflexivity). lia. Qed.

(** C8: a workload of 0 gives 0 days; an int or float above 1 is
    divided by 100 before it is scaled, one at most 1 is scaled as it
    is, so that 1 gives 25 as an int and as a float, like 100 and
    ["100%"]; nothing is validated: 200 gives 50 days, -1 gives -25 and
    ["150%"] gives 38. *)
Theorem vacation_total_threshold :
  compute_vacation_total (PyInt 0) = Return 0 /\
  (forall z,
     compute_vacation_total (PyInt z)
     = let* f := float_of_int z in
       py_round (25 * (if (1 <? z)%Z then f / 100 else f))%float) /\
  (forall f,
     compute_vacation_total (PyFloat f)
     = py_round (25 * (if (1 <? f)%float then f / 100 else f))%float) /\
  compute_vacation_total (PyInt 1) = Return 25 /\
  compute_vacation_total (PyFloat 1) = Return 25 /\
  compute_vacation_total (PyInt 100) = Return 25 /\
  compute_vacation_total (PyStr "100%") = Return 25 /\
  compute_vacation_total (PyInt 200) = Return 50 /\
  compute_vacation_total (PyFloat 200) = Return 50 /\
  compute_vacation_total (PyInt (-1)) = Return (-25) /\
  compute_vacation_total (PyFloat (-0.5)) = Return (-12) /\
  compute_vacation_total (PyStr "150%") = Return 38.
Proof.
  split; [vm_compute; reflexivity|].
  split.
  { intros z. unfold compute_vacation_total, workload_fraction.
    cbn [is_percent_str py_float]. rewrite above_one_int.
    destruct (1 <? z), (float_of_int z); cbn [bind]; try reflexivity;
      apply bind_return. }
  split.
  { intros f. unfold compute_vacation_total, workload_fraction.
    cbn [is_percent_str py_float]. rewrite above_one_float.
    destruct (1 <? f)%float; cbn [bind]; apply bind_return. }
  vm_compute. repeat split.
Qed.

(** C10: a string that does not end in a percent sign is converted
    with [float] and scaled as a fraction, whatever its size; for a
    string of decimal digits this is 25 times the number they denote.
    So ["80"] gives 2000, while ["80%"] and [80] give 20. *)
Theorem vacation_total_plain_string (s : string) (ds : list ascii) :
  endswith s "%" = false ->
  ds <> [] -> forallb is_digit ds = true ->
  compute_vacation_total (PyStr s)
  = (let* f := float_of_string s in py_round (25 * f)%float) /\
  compute_vacation_total (PyStr (text ds))
  = py_round (25 * float_of_Z (digits_value ds))%float /\
  compute_vacation_total (PyStr "80") = Return 2000 /\
  compute_vacation_total (PyStr "80%") = Return 20 /\
  compute_vacation_total (PyInt 80) = Return 20.
Proof.
  intros Hs Hne Hd.
  split; [exact (vacation_total_plain s Hs)|].
  split.
  { rewrite (vacation_total_plain _ (endswith_digits ds Hne Hd)).
    rewrite (float_of_digits ds Hne Hd). reflexivity. }
  vm_compute. repeat split.
Qed.

Lemma vacation_total_plain_string_eighty :
  compute_vacation_total (PyStr "0.8")
  = (let* f := float_of_string "0.8" in py_round (25 * f)%float) /\
  compute_vacation_total (PyStr (text (chars "80")))
  = py_round (25 * float_of_Z (digits_value (chars "80")))%float /\
  compute_vacation_total (PyStr "80") = Return 2000 /\
  compute_vacation_total (PyStr "80%") = Return 20 /\
  compute_vacation_total (PyInt 80) = Return 20.
Proof.
  apply (vacation_total_plain_string "0.8" (chars "80")).
  - reflexivity.
  - discriminate.
  - reflexivity.
Defined.

(** ** Seniority *)

(** C2: for every numeric age and every hire date, the tenure is a
    number and [infer_seniority] returns the label of the first rule of
    the ladder that applies to the age and the tenure, [Director] when
    none does; the ladder gives [Junior] for age 25 and tenure 0, [Mid]
    for (30, 4), [Senior] for (40, 10), [Manager] for (50, 9) and
    [Director] for (50, 2). *)
Theorem seniority_first_rule
  (to_datetime : pyval -> result timestamp) (age hire_date : pyval) (x : number) :
  number_of age = Some x ->
  (exists y,
     number_of (years_at_company to_datetime hire_date) = Some y /\
     infer_seniority to_datetime age hire_date = Return (Spec.first_match x y)) /\
  seniority_ladder (PyInt 25) (PyInt 0) = Return "Junior"%string /\
  seniority_ladder (PyInt 30) (PyFloat 4) = Return "Mid"%string /\
  seniority_ladder (PyInt 40) (PyFloat 10) = Return "Senior"%string /\
  seniority_ladder (PyInt 50) (PyFloat 9) = Return "Manager"%string /\
  seniority_ladder (PyInt 50) (PyFloat 2) = Return "Director"%string /\
  infer_seniority to_datetime (PyInt 25) PyNone = Return "Junior"%string.
Proof.
  intros Hx. split.
  - destruct (years_at_company_number to_datetime hire_date) as [y Hy].
    exists y. split; [exact Hy|].
    unfold infer_seniority. exact (ladder_first_match _ _ x y Hx Hy).
  - vm_compute. repeat split.
Qed.

Lemma seniority_first_rule_four_years :
  (exists y,
     number_of (years_at_company (Sample.to_datetime (1461 * ns_per_day)) (PyDate 0))
     = Some y /\
     infer_seniority (Sample.to_datetime (1461 * ns_per_day)) (PyInt 30) (PyDate 0)
     = Return (Spec.first_match (NInt 30) y)) /\
  seniority_ladder (PyInt 25) (PyInt 0) = Return "Junior"%string /\
  seniority_ladder (PyInt 30) (PyFloat 4) = Return "Mid"%string /\
  seniority_ladder (PyInt 40) (PyFloat 10) = Return "Senior"%string /\
  seniority_ladder (PyInt 50) (PyFloat 9) = Return "Manager"%string /\
  seniority_ladder (PyInt 50) (PyFloat 2) = Return "Director"%string /\
  infer_seniority (Sample.to_datetime (1461 * ns_per_day)) (PyInt 25) PyNone
  = Return "Junior"%string.
Proof.
  apply (seniority_first_rule (Sample.to_datetime (1461 * ns_per_day))
           (PyInt 30) (PyDate 0) (NInt 30)).
  reflexivity.
Defined.

(** C6: with a hire date, the tenure is the number of whole days from
    the hire date to the current instant, as a float, divided by 365.25,
    and the ladder is evaluated on it; without one the tenure is 0 and
    the ladder is evaluated on 0, for every age. *)
Theorem tenure_from_hire_date
  (to_datetime : pyval -> result timestamp) (age hire_date : pyval) (now hired : Z) :
  hire_date <> PyNone ->
  to_datetime (PyStr "today") = Return (Timestamp now) ->
  to_datetime hire_date = Return (Timestamp hired) ->
  Z.abs (now - hired) < 2 ^ 63 ->
  years_at_company to_datetime hire_date
  = PyFloat (float_of_Z ((now - hired) / ns_per_day) / 365.25) /\
  infer_seniority to_datetime age hire_date
  = seniority_ladder age (PyFloat (float_of_Z ((now - hired) / ns_per_day) / 365.25)) /\
  years_at_company to_datetime PyNone = PyInt 0 /\
  infer_seniority to_datetime age PyNone = seniority_ladder age (PyInt 0).
Proof.
  intros Hn Ht Hh Hd.
  pose proof (years_at_company_value to_datetime hire_date now hired Hn Ht Hh Hd) as Hy.
  split; [exact Hy|]. split; [|split; reflexivity].
  unfold infer_seniority. rewrite Hy. reflexivity.
Qed.

Lemma tenure_from_hire_date_four_years :
  years_at_company (Sample.to_datetime (1461 * ns_per_day)) (PyDate 0)
  = PyFloat (float_of_Z ((1461 * ns_per_day - 0) / ns_per_day) / 365.25) /\
  infer_seniority (Sample.to_datetime (1461 * ns_per_day)) (PyInt 30) (PyDate 0)
  = seniority_ladder (PyInt 30)
      (PyFloat (float_of_Z ((1461 * ns_per_day - 0) / ns_per_day) / 365.25)) /\
  years_at_company (Sample.to_datetime (1461 * ns_per_day)) PyNone = PyInt 0 /\
  infer_seniority (Sample.to_datetime (1461 * ns_per_day)) (PyInt 30) PyNone
  = seniority_ladder (PyInt 30) (PyInt 0).
Proof.
  apply (tenure_from_hire_date (Sample.to_datetime (1461 * ns_per_day))
           (PyInt 30) (PyDate 0) (1461 * ns_per_day) 0).
  - discriminate.
  - reflexivity.
  - reflexivity.
  - vm_compute. reflexivity.
Defined.

(** C9, as amended: a hire date that [to_datetime] rejects raises
    nothing in [infer_seniority]: the tenure is 0 and, for a numeric age,
    the label of the first rule that applies to the age and tenure 0 is
    returned. *)
Theorem rejected_hire_date_counts_as_no_tenure
  (to_datetime : pyval -> result timestamp) (age hire_date : pyval)
  (x : number) (e : exn) :
  to_datetime hire_date = Raise e ->
  number_of age = Some x ->
  years_at_company to_datetime hire_date = PyInt 0 /\
  infer_seniority to_datetime age hire_date = seniority_ladder age (PyInt 0) /\
  infer_seniority to_datetime age hire_date = Return (Spec.first_match x (NInt 0)).
Proof.
  intros He Hx.
  pose proof (years_at_company_raise to_datetime hire_date e He) as Hy.
  unfold infer_seniority. rewrite Hy.
  split; [reflexivity|]. split; [reflexivity|].
  exact (ladder_first_match age (PyInt 0) x (NInt 0) Hx eq_refl).
Qed.

Lemma rejected_hire_date_at_thirty :
  years_at_company (Sample.to_datetime 0) (PyStr "not a date") = PyInt 0 /\
  infer_seniority (Sample.to_datetime 0) (PyInt 30) (PyStr "not a date")
  = seniority_ladder (PyInt 30) (PyInt 0) /\
  infer_seniority (Sample.to_datetime 0) (PyInt 30) (PyStr "not a date")
  = Return (Spec.first_match (NInt 30) (NInt 0)).
Proof.
  apply (rejected_hire_date_counts_as_no_tenure (Sample.to_datetime 0)
           (PyInt 30) (PyStr "not a date") (NInt 30) ValueError).
  - reflexivity.
  - reflexivity.
Defined.

(** C9, the claim as worded fails: the string ["not a date"] is
    rejected by [to_datetime], and [infer_seniority] at age 30 returns
    the label [Mid] for it. *)
Lemma rejected_hire_date_returns_label :
  Sample.to_datetime 0 (PyStr "not a date") = Raise ValueError /\
  infer_seniority (Sample.to_datetime 0) (PyInt 30) (PyStr "not a date")
  = Return "Mid"%string /\
  returns (infer_seniority (Sample.to_datetime 0) (PyInt 30) (PyStr "not a date"))
  = true.
Proof. vm_compute. repeat split. Qed.

(** ** The record store *)

(** C4: when the file is missing or cannot be read, [load_data] raises
    an [OSError] and returns no table. *)
Theorem load_data_missing_file {csv : Type}
  (read_csv : csv -> result DataFrame) (fs : gmap string (file csv)) :
  fs !! DATA_PATH = None \/ fs !! DATA_PATH = Some Unreadable ->
  (exists e, is_os_error e = true /\ load_data read_csv fs = Raise e) /\
  returns (load_data read_csv fs) = false.
Proof.
  intros [H|H]; unfold load_data; rewrite H.
  - split; [exists FileNotFoundError; split; reflexivity|reflexivity].
  - split; [exists PermissionError; split; reflexivity|reflexivity].
Qed.

Lemma load_data_missing_file_empty :
  (exists e, is_os_error e = true /\
     load_data Sample.read_csv (∅ : gmap string (file Sample.csv))
     = Raise e) /\
  returns (load_data Sample.read_csv (∅ : gmap string (file Sample.csv)))
  = false.
Proof.
  apply (load_data_missing_file Sample.read_csv ∅).
  left. reflexivity.
Defined.




(** ** Further facts about the entitlement, the tenure and the store *)

Module MoreFacts.
Import Py Utils App Binary64 Binary64Facts PyFacts VacationFacts InputFacts ResultFacts.

Lemma num_ltb_leb a b : num_ltb a b = true -> num_leb a b = true.
Proof. unfold num_ltb, num_leb. destruct (num_cmp a b) as [[]|]; congruence. Qed.

(** The result on a number whose value lies between two values on the
    same side of the threshold. *)
Lemma vacation_total_bracket w x b lo hi :
  number_of w = Some x -> num_finite x = true ->
  (2 ^ 1074 <? nval x) = b -> lo <= nval x <= hi ->
  Z.abs (srq lo 1) < top -> Z.abs (srq hi 1) < top ->
  Z.abs (vacation_value b lo) < top -> Z.abs (vacation_value b hi) < top ->
  exists n, compute_vacation_total w = Return n /\
    round_val (vacation_value b lo) <= n <= round_val (vacation_value b hi).
Proof.
  intros Hw Hf Hb [Hlo Hhi] Sl Sh Tl Th.
  rewrite (vacation_total_value w x Hw Hf). cbv zeta. rewrite Hb.
  set (v := nval x) in *. clearbody v.
  assert (Hc : Z.abs (srq v 1) < top)
    by (apply (srq_between lo hi); [lia|lia|assumption|assumption]).
  pose proof (vacation_value_mono b _ _ Hlo) as M1.
  pose proof (vacation_value_mono b _ _ Hhi) as M2.
  assert (HT : Z.abs (vacation_value b v) < top) by lia.
  apply Z.ltb_lt in Hc, HT. rewrite Hc, HT. cbn [andb].
  exists (round_val (vacation_value b v)). split; [reflexivity|].
  split; apply round_val_mono; assumption.
Qed.

(** A number within given int bounds: its value is within them. *)
Lemma range_nval a b x :
  num_leb (NInt a) x = true -> num_leb x (NInt b) = true ->
  num_finite x = true /\ a * 2 ^ 1074 <= nval x <= b * 2 ^ 1074.
Proof.
  intros H1 H2. pose proof (range_finite a b x H1 H2) as Hf.
  rewrite (num_leb_spec (NInt a) x eq_refl Hf) in H1.
  rewrite (num_leb_spec x (NInt b) Hf eq_refl) in H2.
  apply Z.leb_le in H1, H2. cbn [nval] in H1, H2. auto.
Qed.

(** The result on a number between two ints on the same side of the
    threshold, from what the floats give at the two ints. *)
Lemma vacation_total_between w x (b : bool) lo hi nlo nhi :
  number_of w = Some x -> num_finite x = true ->
  (2 ^ 1074 <? nval x) = b -> lo * 2 ^ 1074 <= nval x <= hi * 2 ^ 1074 ->
  Z.abs lo <= 2 ^ 1023 -> Z.abs hi <= 2 ^ 1023 ->
  py_round (25 * (if b then float_of_Z lo / 100 else float_of_Z lo))%float
  = Return nlo ->
  py_round (25 * (if b then float_of_Z hi / 100 else float_of_Z hi))%float
  = Return nhi ->
  exists n, compute_vacation_total w = Return n /\ nlo <= n <= nhi.
Proof.
  intros Hw Hf Hb Hr Slo Shi Rlo Rhi.
  destruct (vacation_value_of_int b lo nlo Slo Rlo) as [T1 E1].
  destruct (vacation_value_of_int b hi nhi Shi Rhi) as [T2 E2].
  destruct (vacation_total_bracket w x b _ _ Hw Hf Hb Hr
              (srq_int_bound lo Slo) (srq_int_bound hi Shi) T1 T2)
    as (n & Hn & Hn').
  exists n. split; [exact Hn|]. rewrite E1, E2 in Hn'. exact Hn'.
Qed.

(** ** Rounding *)

Lemma round_val_nearest v :
  let n := round_val v in
  2 * Z.abs (v - n * 2 ^ 1074) <= 2 ^ 1074 /\
  (2 * Z.abs (v - n * 2 ^ 1074) = 2 ^ 1074 -> Z.even n = true).
Proof.
  cbv zeta. pose proof pow1074_pos as Hp. unfold round_val.
  destruct (Z.ltb_spec v 0) as [Hv|Hv].
  - destruct (rne_div_is_rne (- v) (2 ^ 1074) Hp) as (Hb & He1 & He2).
    set (q := rne_div (- v) (2 ^ 1074)) in *. clearbody q.
    set (d := 2 ^ 1074) in *. clearbody d.
    rewrite Z.even_opp. split; [lia|]. intros Ht.
    destruct (Z.le_ge_cases (v - - q * d) 0); [apply He1|apply He2]; lia.
  - destruct (rne_div_is_rne v (2 ^ 1074) Hp) as (Hb & He1 & He2).
    set (q := rne_div v (2 ^ 1074)) in *. clearbody q.
    set (d := 2 ^ 1074) in *. clearbody d.
    split; [lia|]. intros Ht.
    destruct (Z.le_ge_cases (v - q * d) 0); [apply He2|apply He1]; lia.
Qed.

(** ** Tenure *)

Lemma fval_year : fval 365.25 = 1461 * 2 ^ 1072.
Proof. vm_compute. reflexivity. Qed.

Lemma finite_year : sf_is_finite (Prim2SF 365.25) = true.
Proof. reflexivity. Qed.

Lemma tenure_value_mono d1 d2 : d1 <= d2 -> tenure_value d1 <= tenure_value d2.
Proof.
  intros H. pose proof pow1074_pos as Hp. unfold tenure_value.
  assert (Hy : 0 < 1461 * 2 ^ 1072)
    by (apply Z.mul_pos_pos; [lia|apply pow2_pos; lia]).
  apply srq_mono; [exact Hy|exact Hy|].
  apply Z.mul_le_mono_nonneg_r; [lia|].
  apply Z.mul_le_mono_nonneg_r; [lia|].
  apply srq_mono; [lia|lia|].
  rewrite !Z.mul_1_r. apply Z.mul_le_mono_nonneg_r; lia.
Qed.

(** The value of the tenure for a number of days. *)
Lemma tenure_fval d :
  Z.abs d <= 2 ^ 1023 -> fval (float_of_Z d / 365.25) = tenure_value d.
Proof.
  intros Hd. destruct (float_of_Z_value d Hd) as [Hfin Hval].
  assert (Hy : 0 < fval 365.25).
  { rewrite fval_year. apply Z.mul_pos_pos; [lia|apply pow2_pos; lia]. }
  destruct (div_fval (float_of_Z d) 365.25 Hfin finite_year Hy) as [_ Hq].
  rewrite Hval, fval_year in Hq. exact Hq.
Qed.

Lemma pow63_small : 2 ^ 63 <= 2 ^ 1023.
Proof. apply pow2_le. lia. Qed.

(** The tenure for a number of days that fits a pandas [Timedelta]. *)
Lemma tenure_float d :
  Z.abs d <= 2 ^ 63 ->
  sf_is_finite (Prim2SF (float_of_Z d / 365.25)) = true /\
  fval (float_of_Z d / 365.25) = tenure_value d.
Proof.
  intros Hd. pose proof pow63_small as H63.
  assert (H0 : 0 < 2 ^ 63) by (apply pow2_pos; lia).
  set (B := 2 ^ 63) in *. set (C := 2 ^ 1023) in *.
  assert (Hsm : Z.abs d <= C) by lia.
  destruct (float_of_Z_value d Hsm) as [Hfin Hval].
  assert (Hy : 0 < fval 365.25).
  { rewrite fval_year. apply Z.mul_pos_pos; [lia|apply pow2_pos; lia]. }
  destruct (div_fval (float_of_Z d) 365.25 Hfin finite_year Hy) as [Hnan _].
  pose proof (tenure_fval d Hsm) as Hq.
  split; [|exact Hq].
  apply finite_of_fval; [exact Hnan|]. rewrite Hq.
  assert (F1 : sf_is_finite (Prim2SF (float_of_Z (- B) / 365.25)) = true)
    by (vm_compute; reflexivity).
  assert (F2 : sf_is_finite (Prim2SF (float_of_Z B / 365.25)) = true)
    by (vm_compute; reflexivity).
  apply fval_finite in F1, F2.
  rewrite (tenure_fval (- B)) in F1 by lia.
  rewrite (tenure_fval B) in F2 by lia.
  pose proof (tenure_value_mono (- B) d ltac:(lia)) as M1.
  pose proof (tenure_value_mono d B ltac:(lia)) as M2.
  set (t := tenure_value d) in *. set (t1 := tenure_value (- B)) in *.
  set (t2 := tenure_value B) in *. clearbody t t1 t2 B C. lia.
Qed.

(** A comparison of the tenure with a number of years is a comparison
    of the days with the first day on which that many years are
    reached. *)
Lemma tenure_lt k D d :
  Z.abs d <= 2 ^ 63 -> Z.abs (D - 1) <= 2 ^ 63 -> Z.abs D <= 2 ^ 63 ->
  num_ltb (NFloat (float_of_Z (D - 1) / 365.25)) (NInt k) = true ->
  num_ltb (NFloat (float_of_Z D / 365.25)) (NInt k) = false ->
  num_ltb (NFloat (float_of_Z d / 365.25)) (NInt k) = (d <? D).
Proof.
  intros Hd H1 H2 Hlo Hhi.
  destruct (tenure_float d Hd) as [Hfin Hval].
  destruct (tenure_float (D - 1) H1) as [Hfin1 Hval1].
  destruct (tenure_float D H2) as [Hfin2 Hval2].
  rewrite (num_ltb_spec (NFloat _) (NInt k) Hfin1 eq_refl) in Hlo.
  rewrite (num_ltb_spec (NFloat _) (NInt k) Hfin2 eq_refl) in Hhi.
  rewrite (num_ltb_spec (NFloat _) (NInt k) Hfin eq_refl).
  cbn [nval] in *. rewrite Hval1 in Hlo. rewrite Hval2 in Hhi. rewrite Hval.
  apply Z.ltb_lt in Hlo. apply Z.ltb_ge in Hhi.
  set (K := k * 2 ^ 1074) in *. clearbody K.
  destruct (Z.ltb_spec d D) as [H|H].
  - pose proof (tenure_value_mono d (D - 1) ltac:(lia)). apply Z.ltb_lt. lia.
  - pose proof (tenure_value_mono D d H). apply Z.ltb_ge. lia.
Qed.

Lemma tenure_ge k D d :
  Z.abs d <= 2 ^ 63 -> Z.abs (D - 1) <= 2 ^ 63 -> Z.abs D <= 2 ^ 63 ->
  num_geb (NFloat (float_of_Z (D - 1) / 365.25)) (NInt k) = false ->
  num_geb (NFloat (float_of_Z D / 365.25)) (NInt k) = true ->
  num_geb (NFloat (float_of_Z d / 365.25)) (NInt k) = (D <=? d).
Proof.
  intros Hd H1 H2 Hlo Hhi.
  destruct (tenure_float d Hd) as [Hfin Hval].
  destruct (tenure_float (D - 1) H1) as [Hfin1 Hval1].
  destruct (tenure_float D H2) as [Hfin2 Hval2].
  unfold num_geb in *.
  rewrite (num_leb_spec (NInt k) (NFloat _) eq_refl Hfin1) in Hlo.
  rewrite (num_leb_spec (NInt k) (NFloat _) eq_refl Hfin2) in Hhi.
  rewrite (num_leb_spec (NInt k) (NFloat _) eq_refl Hfin).
  cbn [nval] in *. rewrite Hval1 in Hlo. rewrite Hval2 in Hhi. rewrite Hval.
  apply Z.leb_gt in Hlo. apply Z.leb_le in Hhi.
  set (K := k * 2 ^ 1074) in *. clearbody K.
  destruct (Z.leb_spec D d) as [H|H].
  - pose proof (tenure_value_mono D d H). apply Z.leb_le. lia.
  - pose proof (tenure_value_mono d (D - 1) ltac:(lia)). apply Z.leb_gt. lia.
Qed.

Lemma days_fit a b : Z.abs (a - b) < 2 ^ 63 -> Z.abs ((a - b) / ns_per_day) <= 2 ^ 63.
Proof.
  intros H. change ns_per_day with 86400000000000.
  set (q := 2 ^ 63) in *. clearbody q.
  Z.div_mod_to_equations. lia.
Qed.

(** The ladder on an int age and a tenure counted in days. *)
Lemma ladder_by_days z d :
  Z.abs d <= 2 ^ 63 ->
  seniority_ladder (PyInt z) (PyFloat (float_of_Z d / 365.25))
  = Return (if (z <? 28) && (d <? 1096) then "Junior"%string
            else if (z <? 35) && (d <? 2192) then "Mid"%string
            else if (z <? 45) && (d <? 4383) then "Senior"%string
            else if (z <? 60) && (2922 <=? d) then "Manager"%string
            else "Director"%string).
Proof.
  intros Hd.
  rewrite (ladder_first_match (PyInt z) (PyFloat _) (NInt z) (NFloat _) eq_refl eq_refl).
  unfold Spec.first_match.
  cbv [find Spec.ladder Spec.applies Spec.age_below Spec.tenure_test Spec.label].
  rewrite (tenure_lt 3 1096 d Hd) by (vm_compute; reflexivity || discriminate).
  rewrite (tenure_lt 6 2192 d Hd) by (vm_compute; reflexivity || discriminate).
  rewrite (tenure_lt 12 4383 d Hd) by (vm_compute; reflexivity || discriminate).
  rewrite (tenure_ge 8 2922 d Hd) by (vm_compute; reflexivity || discriminate).
  change (num_ltb (NInt z) (NInt 28)) with (z <? 28).
  change (num_ltb (NInt z) (NInt 35)) with (z <? 35).
  change (num_ltb (NInt z) (NInt 45)) with (z <? 45).
  change (num_ltb (NInt z) (NInt 60)) with (z <? 60).
  destruct ((z <? 28) && (d <? 1096)); [reflexivity|].
  destruct ((z <? 35) && (d <? 2192)); [reflexivity|].
  destruct ((z <? 45) && (d <? 4383)); [reflexivity|].
  destruct ((z <? 60) && (2922 <=? d)); reflexivity.
Qed.

(** ** The record store *)

Section StoreMore.
Context {csv : Type}.
Variable to_datetime : pyval -> result timestamp.
Variable read_csv : csv -> result DataFrame.
Variable to_csv : DataFrame -> csv.

Lemma append_row_frame fs fs' r p :
  append_row to_datetime read_csv to_csv r fs = Return fs' ->
  p <> DATA_PATH -> fs' !! p = fs !! p.
Proof.
  unfold append_row. intros H Hp.
  destruct (load_data read_csv fs) as [df|]; [|discriminate]. cbn [bind] in H.
  destruct (r !! "Hire Date"%string) as [v|].
  - destruct (to_datetime v) as [t|]; [|discriminate]. cbn [bind] in H.
    injection H as <-. unfold save_data. apply lookup_insert_ne. congruence.
  - cbn [bind] in H. injection H as <-. unfold save_data.
    apply lookup_insert_ne. congruence.
Qed.

End StoreMore.

(** ** The page *)

Lemma first_match_level x y : In (Spec.first_match x y) seniority_levels.
Proof.
  unfold Spec.first_match.
  cbv [find Spec.ladder Spec.applies Spec.age_below Spec.tenure_test Spec.label].
  destruct (num_ltb x (NInt 28) && num_ltb y (NInt 3)); [cbn; tauto|].
  destruct (num_ltb x (NInt 35) && num_ltb y (NInt 6)); [cbn; tauto|].
  destruct (num_ltb x (NInt 45) && num_ltb y (NInt 12)); [cbn; tauto|].
  destruct (num_ltb x (NInt 60) && num_geb y (NInt 8)); cbn; tauto.
Qed.

(** The entitlement for each workload the form offers. *)
Lemma workload_option_total s :
  In s workload_options ->
  exists n, compute_vacation_total (PyStr s) = Return n /\ 15 <= n <= 25.
Proof.
  intros H. cbn in H.
  destruct H as [<-|[<-|[<-|[<-|[<-|[]]]]]].
  - exists 15. split; [vm_compute; reflexivity|lia].
  - exists 18. split; [vm_compute; reflexivity|lia].
  - exists 20. split; [vm_compute; reflexivity|lia].
  - exists 22. split; [vm_compute; reflexivity|lia].
  - exists 25. split; [vm_compute; reflexivity|lia].
Qed.

Lemma date_of_midnight d : dt_date (Timestamp (d * ns_per_day)) = PyDate d.
Proof.
  cbn [dt_date]. f_equal. apply Z.div_mul. discriminate.
Qed.

Lemma row_fields (v1 v2 v3 v4 v5 v6 v7 v8 v9 v10 : pyval) :
  let r : gmap string pyval :=
    list_to_map
      [ ("First Name"%string, v1); ("Last Name"%string, v2);
        ("Residence (Canton)"%string, v3); ("Age"%string, v4);
        ("Department"%string, v5); ("Seniority Level"%string, v6);
        ("Workload"%string, v7); ("Vacation Days Total"%string, v8);
        ("Vacation Days Taken"%string, v9); ("Hire Date"%string, v10) ] in
  r !! "First Name"%string = Some v1 /\
  r !! "Last Name"%string = Some v2 /\
  r !! "Residence (Canton)"%string = Some v3 /\
  r !! "Age"%string = Some v4 /\
  r !! "Department"%string = Some v5 /\
  r !! "Seniority Level"%string = Some v6 /\
  r !! "Workload"%string = Some v7 /\
  r !! "Vacation Days Total"%string = Some v8 /\
  r !! "Vacation Days Taken"%string = Some v9 /\
  r !! "Hire Date"%string = Some v10.
Proof. vm_compute. repeat split. Qed.

Section PageFacts.
Context {csv : Type}.
Variable to_datetime : pyval -> result timestamp.

(** The level the form stores: the one chosen, or the suggestion. *)
Lemma form_level f :
  exists level,
    (if String.eqb (seniority f) "Auto-suggest"
     then infer_seniority to_datetime (PyInt (age f)) (PyDate (hire_date f))
     else Return (seniority f)) = Return level /\
    (if String.eqb (seniority f) "Auto-suggest"
     then In level seniority_levels else level = seniority f).
Proof.
  destruct (String.eqb (seniority f) "Auto-suggest").
  - destruct (years_at_company_number to_datetime (PyDate (hire_date f))) as [y Hy].
    exists (Spec.first_match (NInt (age f)) y). split.
    + unfold infer_seniority.
      exact (ladder_first_match (PyInt (age f)) _ (NInt (age f)) y eq_refl Hy).
    + apply first_match_level.
  - exists (seniority f). split; reflexivity.
Qed.

Lemma new_row_value f total :
  to_datetime (PyDate (hire_date f)) = Return (Timestamp (hire_date f * ns_per_day)) ->
  exists level,
    (if String.eqb (seniority f) "Auto-suggest"
     then infer_seniority to_datetime (PyInt (age f)) (PyDate (hire_date f))
          = Return level /\ In level seniority_levels
     else level = seniority f) /\
    new_row to_datetime f total
    = Return (list_to_map
        [ ("First Name"%string, PyStr (first_name f));
          ("Last Name"%string, PyStr (last_name f));
          ("Residence (Canton)"%string, PyStr (canton f));
          ("Age"%string, PyInt (age f));
          ("Department"%string, PyStr (department f));
          ("Seniority Level"%string, PyStr level);
          ("Workload"%string, PyStr (workload f));
          ("Vacation Days Total"%string, PyInt total);
          ("Vacation Days Taken"%string, PyInt (vacation_taken f));
          ("Hire Date"%string, PyDate (hire_date f)) ]).
Proof.
  intros Hdate. destruct (form_level f) as (level & Hl & Hin). exists level.
  unfold new_row. rewrite Hl. cbn [bind]. rewrite Hdate. cbn [bind].
  rewrite date_of_midnight. split; [|reflexivity].
  destruct (String.eqb (seniority f) "Auto-suggest"); auto.
Qed.

End PageFacts.

(** ** Percent signs *)

Lemma lstrip_percents n l :
  lstrip_chars (chars "%") (repeat "%"%char n ++ l) = lstrip_chars (chars "%") l.
Proof. induction n as [|n IH]; [reflexivity|exact IH]. Qed.

Lemma rev_percents n : rev (repeat "%"%char n) = repeat "%"%char n.
Proof.
  induction n as [|n IH]; [reflexivity|].
  cbn [repeat rev]. rewrite IH. symmetry. apply repeat_cons.
Qed.

Lemma strip_chars_percents ds n k :
  forallb is_digit ds = true ->
  strip_chars (chars "%") (repeat "%"%char n ++ ds ++ repeat "%"%char k) = ds.
Proof.
  intros Hd. unfold strip_chars. rewrite lstrip_percents.
  destruct ds as [|c ds0] eqn:E.
  - cbn [app]. rewrite <- (app_nil_r (repeat "%"%char k)), lstrip_percents.
    reflexivity.
  - rewrite <- E in *.
    assert (H1 : lstrip_chars (chars "%") (ds ++ repeat "%"%char k)
                 = ds ++ repeat "%"%char k).
    { rewrite E in *. cbn [forallb] in Hd. apply andb_true_iff in Hd.
      destruct Hd as [Hc _]. rewrite <- app_comm_cons. cbn [lstrip_chars].
      rewrite (percent_not_digit c Hc). reflexivity. }
    rewrite H1, rev_app_distr, rev_percents, lstrip_percents.
    rewrite (lstrip_digits _ _ percent_not_digit (forallb_rev _ _ Hd)).
    apply rev_involutive.
Qed.

Lemma endswith_percents l k : endswith (text (l ++ repeat "%"%char (S k))) "%" = true.
Proof.
  replace (repeat "%"%char (S k)) with (repeat "%"%char k ++ ["%"%char])
    by (symmetry; apply (repeat_cons k "%"%char)).
  rewrite app_assoc. apply endswith_percent.
Qed.

(** ** The builtin [float] on strings *)

(** A string that [float] rejects raises [ValueError]. *)
Lemma float_of_string_raises s e : float_of_string s = Raise e -> e = ValueError.
Proof.
  unfold float_of_string.
  destruct (parse_sign (strip_space (chars s))) as [neg l].
  destruct (String.eqb (text (map lower l)) "inf"
            || String.eqb (text (map lower l)) "infinity"); [discriminate|].
  destruct (String.eqb (text (map lower l)) "nan"); [discriminate|].
  destruct (parse_number l) as [[[m e10] rest]|]; [|congruence].
  destruct (parse_exponent rest) as [x [|c r]]; [discriminate|congruence].
Qed.

End MoreFacts.

(** * Further results *)

Import Py Utils App Binary64 Binary64Facts PyFacts VacationFacts InputFacts.
Import ResultFacts MoreFacts.

(** ** Vacation entitlement *)

(** X1: a string of 1 to 300 decimal digits followed by a percent sign
    gives the same result as the int the digits denote, provided that
    int is greater than 1; the two differ at 1, where ["1%"] gives 0 and
    the int 1 gives 25. *)
Theorem percent_digits_as_int (ds : list ascii) :
  ds <> [] -> forallb is_digit ds = true -> (length ds <= 300)%nat ->
  1 < digits_value ds ->
  (exists n,
     compute_vacation_total (PyStr (text (ds ++ ["%"%char]))) = Return n /\
     compute_vacation_total (PyInt (digits_value ds)) = Return n) /\
  compute_vacation_total (PyStr "1%") = Return 0 /\
  compute_vacation_total (PyInt 1) = Return 25.
Proof.
  intros Hne Hd Hlen Hv.
  split; [|split; vm_compute; reflexivity].
  destruct (vacation_total_percent_digits ds Hne Hd Hlen) as (n & Hs & Hr).
  exists n. split; [exact Hs|].
  pose proof (digits_value_range ds Hd) as [H0 H1].
  assert (Hmod : Z.abs (digits_value ds) <= moderate).
  { assert (10 ^ Z.of_nat (length ds) <= 10 ^ 300) by (apply Z.pow_le_mono_r; lia).
    unfold moderate. lia. }
  destruct (vacation_tail_moderate true _ Hmod) as (Hf & _).
  unfold compute_vacation_total, workload_fraction.
  cbn [is_percent_str py_float]. rewrite above_one_int.
  replace (1 <? digits_value ds) with true by (symmetry; apply Z.ltb_lt; exact Hv).
  rewrite Hf. cbn [bind]. rewrite bind_return. exact Hr.
Qed.

Lemma percent_digits_as_int_eighty :
  (exists n,
     compute_vacation_total (PyStr (text (chars "080" ++ ["%"%char]))) = Return n /\
     compute_vacation_total (PyInt (digits_value (chars "080"))) = Return n) /\
  compute_vacation_total (PyStr "1%") = Return 0 /\
  compute_vacation_total (PyInt 1) = Return 25.
Proof.
  apply (percent_digits_as_int (chars "080")).
  - discriminate.
  - reflexivity.
  - simpl. lia.
  - reflexivity.
Defined.

(** X2: every int, float or bool between 0 and 100 gives a number of
    days between 0 and 25. *)
Theorem vacation_total_within_cap (w : pyval) (x : number) :
  number_of w = Some x ->
  num_leb (NInt 0) x = true -> num_leb x (NInt 100) = true ->
  exists n, compute_vacation_total w = Return n /\ 0 <= n <= 25.
Proof.
  intros Hw H0 H1. pose proof pow1074_pos as Hp.
  destruct (range_nval 0 100 x H0 H1) as (Hf & Hlo & Hhi).
  destruct (2 ^ 1074 <? nval x) eqn:Hb.
  - assert (Hr : 1 * 2 ^ 1074 <= nval x <= 100 * 2 ^ 1074)
      by (apply Z.ltb_lt in Hb; lia).
    apply (vacation_total_between w x true 1 100 0 25 Hw Hf Hb Hr).
    + vm_compute. discriminate.
    + vm_compute. discriminate.
    + vm_compute. reflexivity.
    + vm_compute. reflexivity.
  - assert (Hr : 0 * 2 ^ 1074 <= nval x <= 1 * 2 ^ 1074)
      by (apply Z.ltb_ge in Hb; lia).
    apply (vacation_total_between w x false 0 1 0 25 Hw Hf Hb Hr).
    + vm_compute. discriminate.
    + vm_compute. discriminate.
    + vm_compute. reflexivity.
    + vm_compute. reflexivity.
Qed.

Lemma vacation_total_within_cap_sixty_two :
  exists n, compute_vacation_total (PyFloat 62.5) = Return n /\ 0 <= n <= 25.
Proof.
  apply (vacation_total_within_cap (PyFloat 62.5) (NFloat 62.5));
    vm_compute; reflexivity.
Defined.

(** X3: every int or float greater than 1 and at most 2 gives 0 days:
    just above the threshold a workload is read as a percentage of at
    most 2 percent. *)
Theorem vacation_total_just_above_one (w : pyval) (x : number) :
  number_of w = Some x ->
  num_gtb x (NInt 1) = true -> num_leb x (NInt 2) = true ->
  compute_vacation_total w = Return 0.
Proof.
  intros Hw H1 H2. pose proof pow1074_pos as Hp. unfold num_gtb in H1.
  destruct (range_nval 1 2 x (num_ltb_leb _ _ H1) H2) as (Hf & Hr).
  rewrite (num_ltb_spec (NInt 1) x eq_refl Hf) in H1. cbn [nval] in H1.
  assert (Hb : (2 ^ 1074 <? nval x) = true)
    by (rewrite Z.mul_1_l in H1; exact H1).
  destruct (vacation_total_between w x true 1 2 0 0 Hw Hf Hb Hr) as (n & Hn & Hn').
  - vm_compute. discriminate.
  - vm_compute. discriminate.
  - vm_compute. reflexivity.
  - vm_compute. reflexivity.
  - rewrite Hn. f_equal. lia.
Qed.

Lemma vacation_total_just_above_one_and_a_half :
  compute_vacation_total (PyFloat 1.5) = Return 0.
Proof.
  apply (vacation_total_just_above_one (PyFloat 1.5) (NFloat 1.5));
    vm_compute; reflexivity.
Defined.

(** X4: a negative workload is not rejected: every int or float from
    [-10^300] to 0 gives a number of days that is at most 0. *)
Theorem vacation_total_of_negative (w : pyval) (x : number) :
  number_of w = Some x ->
  num_leb (NInt (- moderate)) x = true -> num_leb x (NInt 0) = true ->
  exists n, compute_vacation_total w = Return n /\ n <= 0.
Proof.
  intros Hw H0 H1. pose proof pow1074_pos as Hp.
  destruct (range_nval (- moderate) 0 x H0 H1) as (Hf & Hr).
  assert (Hb : (2 ^ 1074 <? nval x) = false) by (apply Z.ltb_ge; lia).
  destruct (moderate_rounds false) as [[nlo Rlo] _].
  destruct moderate_small as [_ Sn].
  destruct (vacation_total_between w x false (- moderate) 0 nlo 0 Hw Hf Hb Hr Sn)
    as (n & Hn & Hn').
  - vm_compute. discriminate.
  - exact Rlo.
  - vm_compute. reflexivity.
  - exists n. split; [exact Hn|]. lia.
Qed.

Lemma vacation_total_of_negative_half :
  exists n, compute_vacation_total (PyFloat (-0.5)) = Return n /\ n <= 0.
Proof.
  apply (vacation_total_of_negative (PyFloat (-0.5)) (NFloat (-0.5)));
    vm_compute; reflexivity.
Defined.

(** X5: the result is not capped at 25: every int or float from 100 to
    [10^300] gives at least 25 days. *)
Theorem vacation_total_above_cap (w : pyval) (x : number) :
  number_of w = Some x ->
  num_leb (NInt 100) x = true -> num_leb x (NInt moderate) = true ->
  exists n, compute_vacation_total w = Return n /\ 25 <= n.
Proof.
  intros Hw H0 H1. pose proof pow1074_pos as Hp.
  destruct (range_nval 100 moderate x H0 H1) as (Hf & Hr).
  assert (Hb : (2 ^ 1074 <? nval x) = true) by (apply Z.ltb_lt; lia).
  destruct (moderate_rounds true) as [_ [nhi Rhi]].
  destruct moderate_small as [Sp _].
  destruct (vacation_total_between w x true 100 moderate 25 nhi Hw Hf Hb Hr)
    as (n & Hn & Hn').
  - vm_compute. discriminate.
  - exact Sp.
  - vm_compute. reflexivity.
  - exact Rhi.
  - exists n. split; [exact Hn|]. lia.
Qed.

Lemma vacation_total_above_cap_double :
  exists n, compute_vacation_total (PyInt 200) = Return n /\ 25 <= n.
Proof.
  apply (vacation_total_above_cap (PyInt 200) (NInt 200));
    vm_compute; reflexivity.
Defined.

(** X6: whenever [compute_vacation_total] returns [n], the workload was
    normalised to a fraction [frac], and [n] is the int nearest to the
    float [25 * frac]: at most half a day away, and even when exactly
    half a day away. Values are in units of [2^-1074]. *)
Theorem vacation_total_rounds_half_even (w : pyval) (n : Z) :
  compute_vacation_total w = Return n ->
  exists frac,
    workload_fraction w = Return frac /\
    2 * Z.abs (fval (25 * frac) - n * 2 ^ 1074) <= 2 ^ 1074 /\
    (2 * Z.abs (fval (25 * frac) - n * 2 ^ 1074) = 2 ^ 1074 -> Z.even n = true).
Proof.
  unfold compute_vacation_total. intros H.
  destruct (workload_fraction w) as [frac|]; [|discriminate]. cbn [bind] in H.
  rewrite bind_return in H. exists frac. split; [reflexivity|].
  destruct (sf_is_finite (Prim2SF (25 * frac))) eqn:Hf.
  - rewrite (py_round_finite _ Hf) in H. injection H as <-.
    exact (round_val_nearest (fval (25 * frac))).
  - destruct (py_round_not_finite _ Hf) as [e He]. congruence.
Qed.

Lemma vacation_total_rounds_half_even_tie :
  exists frac,
    workload_fraction (PyFloat 0.5) = Return frac /\
    2 * Z.abs (fval (25 * frac) - 12 * 2 ^ 1074) <= 2 ^ 1074 /\
    (2 * Z.abs (fval (25 * frac) - 12 * 2 ^ 1074) = 2 ^ 1074 -> Z.even 12 = true).
Proof.
  apply (vacation_total_rounds_half_even (PyFloat 0.5) 12).
  vm_compute. reflexivity.
Defined.

(** X20: percent signs around the digits are all removed before the
    conversion: a string of digits with any number of percent signs
    before it and at least one after it gives what the digits followed
    by one percent sign give. *)
Theorem percent_signs_are_stripped (ds : list ascii) (n k : nat) :
  forallb is_digit ds = true ->
  compute_vacation_total
    (PyStr (text (repeat "%"%char n ++ ds ++ repeat "%"%char (S k))))
  = compute_vacation_total (PyStr (text (ds ++ ["%"%char]))).
Proof.
  intros Hd. unfold compute_vacation_total, workload_fraction.
  cbn [is_percent_str str_strip].
  rewrite endswith_percent.
  replace (repeat "%"%char n ++ ds ++ repeat "%"%char (S k))
    with ((repeat "%"%char n ++ ds) ++ repeat "%"%char (S k))
    by (symmetry; apply app_assoc).
  rewrite endswith_percents, <- app_assoc.
  assert (E1 : strip (text (repeat "%"%char n ++ ds ++ repeat "%"%char (S k))) "%"
               = text ds).
  { unfold strip.
    replace (chars (text (repeat "%"%char n ++ ds ++ repeat "%"%char (S k))))
      with (repeat "%"%char n ++ ds ++ repeat "%"%char (S k))
      by (symmetry; apply list_ascii_of_string_of_list_ascii).
    rewrite (strip_chars_percents ds n (S k) Hd). reflexivity. }
  rewrite E1, (strip_percent ds Hd). reflexivity.
Qed.

Lemma percent_signs_are_stripped_eighty :
  compute_vacation_total
    (PyStr (text (repeat "%"%char 1 ++ chars "80" ++ repeat "%"%char 2)))
  = compute_vacation_total (PyStr (text (chars "80" ++ ["%"%char]))).
Proof.
  apply (percent_signs_are_stripped (chars "80") 1 1). reflexivity.
Defined.

(** ** Seniority *)

(** X7: an age that is [None], a string or a [date] raises
    [TypeError] in the first comparison, whatever the hire date. *)
Theorem seniority_rejects_unordered_age
  (to_datetime : pyval -> result timestamp) (hire_date : pyval) :
  infer_seniority to_datetime PyNone hire_date = Raise TypeError /\
  (forall s, infer_seniority to_datetime (PyStr s) hire_date = Raise TypeError) /\
  (forall d, infer_seniority to_datetime (PyDate d) hire_date = Raise TypeError).
Proof. repeat split. Qed.

(** X8: without a hire date the label depends on the age alone:
    [Junior] below 28, [Mid] below 35, [Senior] below 45 and [Director]
    from 45 on; [Manager] is never suggested. *)
Theorem seniority_without_hire_date
  (to_datetime : pyval -> result timestamp) (z : Z) :
  infer_seniority to_datetime (PyInt z) PyNone
  = Return (if z <? 28 then "Junior"%string
            else if z <? 35 then "Mid"%string
            else if z <? 45 then "Senior"%string
            else "Director"%string) /\
  infer_seniority to_datetime (PyInt z) PyNone <> Return "Manager"%string.
Proof.
  assert (H : infer_seniority to_datetime (PyInt z) PyNone
              = Return (if z <? 28 then "Junior"%string
                        else if z <? 35 then "Mid"%string
                        else if z <? 45 then "Senior"%string
                        else "Director"%string)).
  { unfold infer_seniority. cbn [years_at_company].
    rewrite (ladder_first_match (PyInt z) (PyInt 0) (NInt z) (NInt 0) eq_refl eq_refl).
    unfold Spec.first_match.
    cbv [find Spec.ladder Spec.applies Spec.age_below Spec.tenure_test Spec.label].
    change (num_ltb (NInt z) (NInt 28)) with (z <? 28).
    change (num_ltb (NInt z) (NInt 35)) with (z <? 35).
    change (num_ltb (NInt z) (NInt 45)) with (z <? 45).
    change (num_ltb (NInt z) (NInt 60)) with (z <? 60).
    change (num_ltb (NInt 0) (NInt 3)) with true.
    change (num_ltb (NInt 0) (NInt 6)) with true.
    change (num_ltb (NInt 0) (NInt 12)) with true.
    change (num_geb (NInt 0) (NInt 8)) with false.
    destruct (z <? 28), (z <? 35), (z <? 45), (z <? 60); reflexivity. }
  split; [exact H|]. rewrite H.
  destruct (z <? 28), (z <? 35), (z <? 45); discriminate.
Qed.

(** X9: with a hire date, the label is decided by the age and the
    number of whole days employed: [Junior] below 28 years of age and
    1096 days, [Mid] below 35 and 2192 days, [Senior] below 45 and 4383
    days, [Manager] below 60 from 2922 days on, [Director] otherwise. *)
Theorem seniority_by_days_employed
  (to_datetime : pyval -> result timestamp) (z : Z) (hire_date : pyval)
  (now hired : Z) :
  hire_date <> PyNone ->
  to_datetime (PyStr "today") = Return (Timestamp now) ->
  to_datetime hire_date = Return (Timestamp hired) ->
  Z.abs (now - hired) < 2 ^ 63 ->
  infer_seniority to_datetime (PyInt z) hire_date
  = Return (if (z <? 28) && ((now - hired) / ns_per_day <? 1096) then "Junior"%string
            else if (z <? 35) && ((now - hired) / ns_per_day <? 2192) then "Mid"%string
            else if (z <? 45) && ((now - hired) / ns_per_day <? 4383) then "Senior"%string
            else if (z <? 60) && (2922 <=? (now - hired) / ns_per_day) then "Manager"%string
            else "Director"%string).
Proof.
  intros Hn Ht Hh Hd. unfold infer_seniority.
  rewrite (years_at_company_value to_datetime hire_date now hired Hn Ht Hh Hd).
  apply ladder_by_days. apply days_fit. exact Hd.
Qed.

Lemma seniority_by_days_employed_three_years :
  infer_seniority (Sample.to_datetime (1096 * ns_per_day)) (PyInt 25) (PyDate 0)
  = Return (if (25 <? 28) && ((1096 * ns_per_day - 0) / ns_per_day <? 1096)
            then "Junior"%string
            else if (25 <? 35) && ((1096 * ns_per_day - 0) / ns_per_day <? 2192)
            then "Mid"%string
            else if (25 <? 45) && ((1096 * ns_per_day - 0) / ns_per_day <? 4383)
            then "Senior"%string
            else if (25 <? 60) && (2922 <=? (1096 * ns_per_day - 0) / ns_per_day)
            then "Manager"%string
            else "Director"%string).
Proof.
  apply (seniority_by_days_employed (Sample.to_datetime (1096 * ns_per_day)) 25
           (PyDate 0) (1096 * ns_per_day) 0).
  - discriminate.
  - reflexivity.
  - reflexivity.
  - vm_compute. reflexivity.
Defined.

(** X10: from the age of 60 on the label is [Director], whatever the
    hire date is and whether or not it can be parsed. *)
Theorem seniority_from_sixty
  (to_datetime : pyval -> result timestamp) (z : Z) (hire_date : pyval) :
  60 <= z ->
  infer_seniority to_datetime (PyInt z) hire_date = Return "Director"%string.
Proof.
  intros Hz. unfold infer_seniority.
  destruct (years_at_company_number to_datetime hire_date) as [y Hy].
  rewrite (ladder_first_match (PyInt z) _ (NInt z) y eq_refl Hy).
  unfold Spec.first_match.
  cbv [find Spec.ladder Spec.applies Spec.age_below Spec.tenure_test Spec.label].
  change (num_ltb (NInt z) (NInt 28)) with (z <? 28).
  change (num_ltb (NInt z) (NInt 35)) with (z <? 35).
  change (num_ltb (NInt z) (NInt 45)) with (z <? 45).
  change (num_ltb (NInt z) (NInt 60)) with (z <? 60).
  replace (z <? 28) with false by (symmetry; apply Z.ltb_ge; lia).
  replace (z <? 35) with false by (symmetry; apply Z.ltb_ge; lia).
  replace (z <? 45) with false by (symmetry; apply Z.ltb_ge; lia).
  replace (z <? 60) with false by (symmetry; apply Z.ltb_ge; lia).
  reflexivity.
Qed.

Lemma seniority_from_sixty_new_hire :
  infer_seniority (Sample.to_datetime 0) (PyInt 61) (PyDate 0)
  = Return "Director"%string.
Proof.
  apply (seniority_from_sixty (Sample.to_datetime 0) 61 (PyDate 0)). lia.
Defined.

(** X11: a hire date that [to_datetime] turns into [NaT] gives the
    tenure NaN, every rule of the ladder fails, and the label is
    [Director] at every numeric age. *)
Theorem seniority_of_missing_date
  (to_datetime : pyval -> result timestamp) (age hire_date : pyval)
  (x : number) (now : Z) :
  number_of age = Some x ->
  hire_date <> PyNone ->
  to_datetime (PyStr "today") = Return (Timestamp now) ->
  to_datetime hire_date = Return NaT ->
  years_at_company to_datetime hire_date = PyFloat (nan / 365.25) /\
  infer_seniority to_datetime age hire_date = Return "Director"%string.
Proof.
  intros Hx Hn Ht Hh.
  assert (Hy : years_at_company to_datetime hire_date = PyFloat (nan / 365.25)).
  { unfold years_at_company, tenure_years. rewrite Ht, Hh.
    destruct hire_date; try reflexivity. congruence. }
  split; [exact Hy|]. unfold infer_seniority. rewrite Hy.
  rewrite (ladder_first_match age (PyFloat (nan / 365.25)) x
             (NFloat (nan / 365.25)) Hx eq_refl).
  unfold Spec.first_match.
  cbv [find Spec.ladder Spec.applies Spec.age_below Spec.tenure_test Spec.label].
  replace (num_ltb (NFloat (nan / 365.25)) (NInt 3)) with false
    by (vm_compute; reflexivity).
  replace (num_ltb (NFloat (nan / 365.25)) (NInt 6)) with false
    by (vm_compute; reflexivity).
  replace (num_ltb (NFloat (nan / 365.25)) (NInt 12)) with false
    by (vm_compute; reflexivity).
  replace (num_geb (NFloat (nan / 365.25)) (NInt 8)) with false
    by (vm_compute; reflexivity).
  rewrite !andb_false_r. reflexivity.
Qed.

Lemma seniority_of_missing_date_at_twenty :
  years_at_company (Sample.to_datetime 0) (PyTimestamp NaT) = PyFloat (nan / 365.25) /\
  infer_seniority (Sample.to_datetime 0) (PyInt 20) (PyTimestamp NaT)
  = Return "Director"%string.
Proof.
  apply (seniority_of_missing_date (Sample.to_datetime 0) (PyInt 20)
           (PyTimestamp NaT) (NInt 20) 0).
  - reflexivity.
  - discriminate.
  - reflexivity.
  - reflexivity.
Defined.

(** X21: for the same tenure the suggested level never goes down
    with the age: of two int ages, the higher one gets the same level or
    one further along Junior, Mid, Senior, Manager, Director. It does go
    down with the tenure: at 50, two years give Director and nine give
    Manager. *)
Theorem seniority_grows_with_age (z1 z2 : Z) (tenure : pyval) (y : number) :
  number_of tenure = Some y -> z1 <= z2 ->
  (exists l1 l2,
     seniority_ladder (PyInt z1) tenure = Return l1 /\
     seniority_ladder (PyInt z2) tenure = Return l2 /\
     (level_rank l1 <= level_rank l2)%nat) /\
  seniority_ladder (PyInt 50) (PyInt 2) = Return "Director"%string /\
  seniority_ladder (PyInt 50) (PyInt 9) = Return "Manager"%string.
Proof.
  intros Hy Hz. split; [|split; vm_compute; reflexivity].
  exists (Spec.first_match (NInt z1) y), (Spec.first_match (NInt z2) y).
  split; [exact (ladder_first_match (PyInt z1) tenure (NInt z1) y eq_refl Hy)|].
  split; [exact (ladder_first_match (PyInt z2) tenure (NInt z2) y eq_refl Hy)|].
  unfold Spec.first_match.
  cbv [find Spec.ladder Spec.applies Spec.age_below Spec.tenure_test Spec.label].
  change (num_ltb (NInt z1) (NInt 28)) with (z1 <? 28).
  change (num_ltb (NInt z1) (NInt 35)) with (z1 <? 35).
  change (num_ltb (NInt z1) (NInt 45)) with (z1 <? 45).
  change (num_ltb (NInt z1) (NInt 60)) with (z1 <? 60).
  change (num_ltb (NInt z2) (NInt 28)) with (z2 <? 28).
  change (num_ltb (NInt z2) (NInt 35)) with (z2 <? 35).
  change (num_ltb (NInt z2) (NInt 45)) with (z2 <? 45).
  change (num_ltb (NInt z2) (NInt 60)) with (z2 <? 60).
  destruct (num_ltb y (NInt 3)), (num_ltb y (NInt 6)),
    (num_ltb y (NInt 12)), (num_geb y (NInt 8));
    destruct (Z.ltb_spec z2 28); destruct (Z.ltb_spec z1 28); try lia;
    destruct (Z.ltb_spec z2 35); destruct (Z.ltb_spec z1 35); try lia;
    destruct (Z.ltb_spec z2 45); destruct (Z.ltb_spec z1 45); try lia;
    destruct (Z.ltb_spec z2 60); destruct (Z.ltb_spec z1 60); try lia;
    vm_compute; repeat constructor.
Qed.

Lemma seniority_grows_with_age_sample :
  (exists l1 l2,
     seniority_ladder (PyInt 30) (PyFloat 4) = Return l1 /\
     seniority_ladder (PyInt 50) (PyFloat 4) = Return l2 /\
     (level_rank l1 <= level_rank l2)%nat) /\
  seniority_ladder (PyInt 50) (PyInt 2) = Return "Director"%string /\
  seniority_ladder (PyInt 50) (PyInt 9) = Return "Manager"%string.
Proof.
  apply (seniority_grows_with_age 30 50 (PyFloat 4) (NFloat 4)).
  - reflexivity.
  - lia.
Defined.

(** ** The record store *)

(** X12: [append_row] does not create the file: when it is missing or
    cannot be read, the [OSError] of [load_data] is raised and nothing
    is written. *)
Theorem append_row_needs_file {csv : Type}
  (to_datetime : pyval -> result timestamp)
  (read_csv : csv -> result DataFrame) (to_csv : DataFrame -> csv)
  (r : gmap string pyval) (fs : gmap string (file csv)) :
  fs !! DATA_PATH = None \/ fs !! DATA_PATH = Some Unreadable ->
  exists e, is_os_error e = true /\
    append_row to_datetime read_csv to_csv r fs = Raise e.
Proof.
  intros [H|H]; unfold append_row, load_data; rewrite H; cbn [bind].
  - exists FileNotFoundError. split; reflexivity.
  - exists PermissionError. split; reflexivity.
Qed.

Lemma append_row_needs_file_empty :
  exists e, is_os_error e = true /\
    append_row (Sample.to_datetime 0) Sample.read_csv Sample.to_csv
      {["First Name"%string := PyStr "Ana"]}
      (∅ : gmap string (file Sample.csv))
    = Raise e.
Proof.
  apply (append_row_needs_file (Sample.to_datetime 0) Sample.read_csv
           Sample.to_csv {["First Name"%string := PyStr "Ana"]} ∅).
  left. reflexivity.
Defined.

(** X13: when [append_row] returns, the data file holds a table and
    every other file is as it was. *)
Theorem append_row_touches_one_file {csv : Type}
  (to_datetime : pyval -> result timestamp)
  (read_csv : csv -> result DataFrame) (to_csv : DataFrame -> csv)
  (r : gmap string pyval) (fs fs' : gmap string (file csv)) :
  append_row to_datetime read_csv to_csv r fs = Return fs' ->
  (exists c, fs' !! DATA_PATH = Some (Contents c)) /\
  (forall p, p <> DATA_PATH -> fs' !! p = fs !! p).
Proof.
  intros H. split.
  - unfold append_row in H.
    destruct (load_data read_csv fs) as [df|]; [|discriminate]. cbn [bind] in H.
    destruct (match r !! "Hire Date"%string with
              | Some v => let* t := to_datetime v in
                          Return [<["Hire Date"%string := dt_date t]> r]
              | None => Return [r]
              end) as [new_df|]; [|discriminate].
    cbn [bind] in H. injection H as <-. unfold save_data.
    rewrite lookup_insert_eq. eauto.
  - intros p Hp. exact (append_row_frame to_datetime read_csv to_csv fs fs' r p H Hp).
Qed.

Lemma append_row_touches_one_file_sample :
  (exists c,
     save_data Sample.to_csv (Sample.one_row_table ++ [Sample.ana_record])
       Sample.one_row_store !! DATA_PATH = Some (Contents c)) /\
  (forall p, p <> DATA_PATH ->
     save_data Sample.to_csv (Sample.one_row_table ++ [Sample.ana_record])
       Sample.one_row_store !! p
     = Sample.one_row_store !! p).
Proof.
  apply (append_row_touches_one_file (Sample.to_datetime 0) Sample.read_csv
           Sample.to_csv Sample.ana_record Sample.one_row_store).
  vm_compute. reflexivity.
Defined.

(** X16: a submitted form with both names and one of the offered
    workloads, on a store whose table loads as [df], overwrites the
    data file with the table made of [df] followed by exactly one row.
    That row holds the form's ten fields: the names, canton, age,
    department and workload as entered, an entitlement between 15 and
    25 days, the level chosen or, on auto-suggest, one of the five
    levels, the days taken, and the chosen day as a [date]. The hire
    date is a [date], which [to_datetime] turns into the instant at
    midnight; what it makes of ["today"] does not matter. *)
Theorem submit_writes_one_more_row {csv : Type}
  (to_datetime : pyval -> result timestamp)
  (read_csv : csv -> result DataFrame) (to_csv : DataFrame -> csv)
  (f : form) (fs : gmap string (file csv)) (df : DataFrame) :
  In (workload f) workload_options ->
  first_name f <> EmptyString -> last_name f <> EmptyString ->
  to_datetime (PyDate (hire_date f)) = Return (Timestamp (hire_date f * ns_per_day)) ->
  load_data read_csv fs = Return df ->
  exists n level,
    compute_vacation_total (PyStr (workload f)) = Return n /\ 15 <= n <= 25 /\
    (if String.eqb (seniority f) "Auto-suggest"
     then infer_seniority to_datetime (PyInt (age f)) (PyDate (hire_date f))
          = Return level /\ In level seniority_levels
     else level = seniority f) /\
    submit to_datetime read_csv to_csv f fs
    = Return (<[DATA_PATH := Contents (to_csv (df ++ [ list_to_map
        [ ("First Name"%string, PyStr (first_name f));
          ("Last Name"%string, PyStr (last_name f));
          ("Residence (Canton)"%string, PyStr (canton f));
          ("Age"%string, PyInt (age f));
          ("Department"%string, PyStr (department f));
          ("Seniority Level"%string, PyStr level);
          ("Workload"%string, PyStr (workload f));
          ("Vacation Days Total"%string, PyInt n);
          ("Vacation Days Taken"%string, PyInt (vacation_taken f));
          ("Hire Date"%string, PyDate (hire_date f)) ] ]))]> fs).
Proof.
  intros Hw Hfn Hln Hdate Hload.
  destruct (workload_option_total _ Hw) as (n & Hn & Hrange).
  destruct (new_row_value to_datetime f n Hdate) as (level & Hlevel & Hrow).
  exists n, level.
  split; [exact Hn|]. split; [exact Hrange|]. split; [exact Hlevel|].
  pose proof (row_fields (PyStr (first_name f)) (PyStr (last_name f))
                (PyStr (canton f)) (PyInt (age f)) (PyStr (department f))
                (PyStr level) (PyStr (workload f)) (PyInt n)
                (PyInt (vacation_taken f)) (PyDate (hire_date f))) as Hfields.
  cbv zeta in Hfields.
  set (r := list_to_map _ : gmap string pyval) in *.
  destruct Hfields as (_ & _ & _ & _ & _ & _ & _ & _ & _ & G10).
  assert (Hr : <["Hire Date"%string := PyDate (hire_date f)]> r = r).
  { apply insert_id. exact G10. }
  unfold submit. rewrite Hn. cbn [bind].
  destruct (String.eqb_spec (first_name f) EmptyString) as [|_]; [contradiction|].
  destruct (String.eqb_spec (last_name f) EmptyString) as [|_]; [contradiction|].
  cbn [orb]. rewrite Hrow. cbn [bind]. fold r.
  unfold append_row. rewrite Hload. cbn [bind]. rewrite G10, Hdate. cbn [bind].
  rewrite date_of_midnight, Hr. reflexivity.
Qed.

Lemma submit_writes_one_more_row_sample :
  exists n level,
    compute_vacation_total (PyStr (workload Sample.ana)) = Return n /\
    15 <= n <= 25 /\
    (if String.eqb (seniority Sample.ana) "Auto-suggest"
     then infer_seniority (Sample.to_datetime 0) (PyInt (age Sample.ana))
            (PyDate (hire_date Sample.ana)) = Return level /\
          In level seniority_levels
     else level = seniority Sample.ana) /\
    submit (Sample.to_datetime 0) Sample.read_csv Sample.to_csv
      Sample.ana Sample.one_row_store
    = Return (<[DATA_PATH := Contents (Sample.to_csv (Sample.one_row_table ++
        [ list_to_map
        [ ("First Name"%string, PyStr (first_name Sample.ana));
          ("Last Name"%string, PyStr (last_name Sample.ana));
          ("Residence (Canton)"%string, PyStr (canton Sample.ana));
          ("Age"%string, PyInt (age Sample.ana));
          ("Department"%string, PyStr (department Sample.ana));
          ("Seniority Level"%string, PyStr level);
          ("Workload"%string, PyStr (workload Sample.ana));
          ("Vacation Days Total"%string, PyInt n);
          ("Vacation Days Taken"%string, PyInt (vacation_taken Sample.ana));
          ("Hire Date"%string, PyDate (hire_date Sample.ana)) ] ]))]>
        Sample.one_row_store).
Proof.
  apply (submit_writes_one_more_row (Sample.to_datetime 0) Sample.read_csv
           Sample.to_csv Sample.ana Sample.one_row_store Sample.one_row_table).
  - simpl. tauto.
  - discriminate.
  - discriminate.
  - reflexivity.
  - vm_compute. reflexivity.
Defined.

(** X17: a form submitted without a first name or without a last name
    changes nothing in the store. *)
Theorem submit_requires_names {csv : Type}
  (to_datetime : pyval -> result timestamp)
  (read_csv : csv -> result DataFrame) (to_csv : DataFrame -> csv)
  (f : form) (fs : gmap string (file csv)) :
  In (workload f) workload_options ->
  first_name f = EmptyString \/ last_name f = EmptyString ->
  submit to_datetime read_csv to_csv f fs = Return fs.
Proof.
  intros Hw Hname. destruct (workload_option_total _ Hw) as (n & Hn & _).
  unfold submit. rewrite Hn. cbn [bind].
  destruct Hname as [-> | ->]; [reflexivity|].
  rewrite orb_true_r. reflexivity.
Qed.

Lemma submit_requires_names_sample :
  submit (Sample.to_datetime 0) Sample.read_csv Sample.to_csv
    Sample.nameless Sample.one_row_store
  = Return Sample.one_row_store.
Proof.
  apply (submit_requires_names (Sample.to_datetime 0) Sample.read_csv Sample.to_csv
           Sample.nameless Sample.one_row_store).
  - simpl. tauto.
  - left. reflexivity.
Defined.

(** ** The chart's workload normalisation *)

(** X18: whenever [workload_to_float] gives a float [f] for a value,
    [compute_vacation_total] on that value rounds [25 * f], except for
    an int or float greater than 1, which the chart leaves as it is and
    the entitlement divides by 100 first. *)
Theorem workload_to_float_entitlement (v : pyval) (f : float) :
  workload_to_float v = Return (PyFloat f) ->
  compute_vacation_total v
  = py_round (25 * (if is_number_above_one v then f / 100 else f))%float.
Proof.
  unfold workload_to_float, compute_vacation_total, workload_fraction.
  destruct (is_percent_str v) eqn:Hp.
  - assert (Hab : is_number_above_one v = false)
      by (destruct v; try discriminate; reflexivity).
    rewrite Hab.
    destruct (py_float (str_strip v "%")) as [f0|]; cbn [bind]; [|discriminate].
    intros H. injection H as <-. apply bind_return.
  - destruct (py_float v) as [f0|] eqn:Hf; [|discriminate].
    intros H. injection H as <-.
    destruct (is_number_above_one v); rewrite ?Hf; cbn [bind]; apply bind_return.
Qed.

Lemma workload_to_float_entitlement_eighty :
  compute_vacation_total (PyInt 80)
  = py_round (25 * (if is_number_above_one (PyInt 80) then 80 / 100 else 80))%float.
Proof.
  apply (workload_to_float_entitlement (PyInt 80) 80).
  vm_compute. reflexivity.
Defined.

(** X19: for a string of decimal digits followed by a percent sign
    [workload_to_float] gives the number the digits denote divided by
    100; any value that does not end in a percent sign and that
    [float] rejects gives [None], whatever the exception; and any
    string ending in a percent sign whose rest [float] rejects raises
    [ValueError], that conversion being outside the [try]. So [None],
    ["full time"] and the int [10^400] give [None], and ["abc%"]
    raises. *)
Theorem workload_to_float_cases :
  (forall ds, ds <> [] -> forallb is_digit ds = true ->
     workload_to_float (PyStr (text (ds ++ ["%"%char])))
     = Return (PyFloat (float_of_Z (digits_value ds) / 100))) /\
  (forall v, is_percent_str v = false -> returns (py_float v) = false ->
     workload_to_float v = Return PyNone) /\
  (forall s, endswith s "%" = true ->
     returns (float_of_string (strip s "%")) = false ->
     workload_to_float (PyStr s) = Raise ValueError) /\
  workload_to_float PyNone = Return PyNone /\
  workload_to_float (PyStr "full time") = Return PyNone /\
  workload_to_float (PyInt (10 ^ 400)) = Return PyNone /\
  workload_to_float (PyStr "abc%") = Raise ValueError.
Proof.
  split; [|split; [|split; [|vm_compute; repeat split]]].
  - intros ds Hne Hd.
    unfold workload_to_float. cbn [is_percent_str str_strip].
    rewrite endswith_percent, (strip_percent ds Hd). cbn [py_float].
    rewrite (float_of_digits ds Hne Hd). reflexivity.
  - intros v Hp Hf. unfold workload_to_float. rewrite Hp.
    destruct (py_float v); [discriminate Hf|reflexivity].
  - intros s He Hf. unfold workload_to_float. cbn [is_percent_str str_strip].
    rewrite He. cbn [py_float].
    destruct (float_of_string (strip s "%")) as [x|e] eqn:E; [discriminate Hf|].
    cbn [bind]. rewrite (float_of_string_raises _ _ E). reflexivity.
Qed.
